(** * gozk: session, watch registry, event dispatch and RetryChange

    A shallow embedding of [zookeeper/gozk.go].  The Go package keeps a
    process-wide watch registry ([watchConns], [watchCounter]) next to the
    per-connection map [Conn.watchChannels]; both are modelled as finite
    maps inside one [World] record together with the heap of [Conn] objects
    and the heap of Go channels.  The C client library is a black box: its
    entry points are the fields of the [Runtime] class, and every facade
    operation is written against that interface.

    Calls are modelled as atomic (each Go function below takes
    [watchMutex] or [zk.mutex] for its whole critical section).

    The run-directory code of [server.go] is embedded in the module
    [ZkServer], against a [FileSystem] interface for the calls it makes
    to the operating system. *)

From Stdlib Require Import ZArith NArith Lia Ascii String List.
From stdpp Require Import base tactics option list gmap strings pretty.

Local Open Scope Z_scope.

(** ** Error codes *)

(** [type Error int].  The numeric values are those of [zookeeper.h] of the
    C client the package links against. *)
Abbreviation Error := Z (only parsing).

Definition ZOK : Error := 0.
Definition ZSYSTEMERROR : Error := -1.
Definition ZRUNTIMEINCONSISTENCY : Error := -2.
Definition ZDATAINCONSISTENCY : Error := -3.
Definition ZCONNECTIONLOSS : Error := -4.
Definition ZMARSHALLINGERROR : Error := -5.
Definition ZUNIMPLEMENTED : Error := -6.
Definition ZOPERATIONTIMEOUT : Error := -7.
Definition ZBADARGUMENTS : Error := -8.
Definition ZINVALIDSTATE : Error := -9.
Definition ZAPIERROR : Error := -100.
Definition ZNONODE : Error := -101.
Definition ZNOAUTH : Error := -102.
Definition ZBADVERSION : Error := -103.
Definition ZNOCHILDRENFOREPHEMERALS : Error := -108.
Definition ZNODEEXISTS : Error := -110.
Definition ZNOTEMPTY : Error := -111.
Definition ZSESSIONEXPIRED : Error := -112.
Definition ZINVALIDCALLBACK : Error := -113.
Definition ZINVALIDACL : Error := -114.
Definition ZAUTHFAILED : Error := -115.
Definition ZCLOSING : Error := -116.
Definition ZNOTHING : Error := -117.
Definition ZSESSIONMOVED : Error := -118.

(** A non-nil [os.Error] value: a ZooKeeper [Error], the errno cgo reports
    next to a C call, or any other error (a [ChangeFunc] may return one).
    The nil interface value is [None]. *)
Inductive OsError : Type :=
  | ErrCode (code : Error)
  | Errno (n : Z)
  | ErrOther (msg : string).

#[global] Instance OsError_eq_dec : EqDecision OsError.
Proof. solve_decision. Defined.

(** [err == code] for an interface value [err] and an [Error] constant. *)
Definition err_is (code : Error) (err : option OsError) : bool :=
  match err with
  | Some (ErrCode c0) => c0 =? code
  | _ => false
  end.

Definition is_nil {A} (p : option A) : bool :=
  match p with None => true | Some _ => false end.

(** [zkError]: the error value for a status [rc] and the errno [cerr]. *)
Definition zkError (rc : Z) (cerr : option OsError) : option OsError :=
  let code := rc in
  if code =? ZOK then None
  else if code =? ZSYSTEMERROR then
    match cerr with
    | Some e => Some e
    | None => Some (ErrCode code)
    end
  else Some (ErrCode code).

(** ** Events *)

Definition EVENT_CREATED : Z := 1.
Definition EVENT_DELETED : Z := 2.
Definition EVENT_CHANGED : Z := 3.
Definition EVENT_CHILD : Z := 4.
Definition EVENT_SESSION : Z := -1.
Definition EVENT_NOTWATCHING : Z := -2.
Definition EVENT_CLOSED : Z := 0.

Definition STATE_EXPIRED_SESSION : Z := -112.
Definition STATE_AUTH_FAILED : Z := -113.
Definition STATE_CONNECTING : Z := 1.
Definition STATE_ASSOCIATING : Z := 2.
Definition STATE_CONNECTED : Z := 3.
Definition STATE_CLOSED : Z := 0.

(** [type Event struct { Type int; Path string; State int }]; the first
    field is spelled [Type_] because [Type] is reserved. *)
Record Event : Type := mkEvent { Type_ : Z; Path : string; State : Z }.

#[global] Instance Event_eq_dec : EqDecision Event.
Proof. solve_decision. Defined.

(** The zeroed [Event], which a receive on a closed channel yields. *)
Definition zero_Event : Event := mkEvent 0 "" 0.

(** [func (e Event) Ok() bool] *)
Definition Ok (e : Event) : bool := State e =? STATE_CONNECTED.

(** ** Node stat *)

(** [struct Stat] of the C client. *)
Record C_Stat : Type := mkCStat {
  czxid : Z; mzxid : Z; ctime : Z; mtime : Z;
  version : Z; cversion : Z; aversion : Z;
  ephemeralOwner : Z; dataLength : Z; numChildren : Z; pzxid : Z
}.

(** [type Stat struct { c C.struct_Stat }] *)
Record Stat : Type := mkStat { c : C_Stat }.

Definition zero_C_Stat : C_Stat := mkCStat 0 0 0 0 0 0 0 0 0 0 0.
Definition zero_Stat : Stat := mkStat zero_C_Stat.

Definition Version (stat : Stat) : Z := version (c stat).
Definition NumChildren (stat : Stat) : Z := numChildren (c stat).

(** The [struct Stat *] handed to the C call as out-parameter.
    [StatOfNil] is [&stat.c] for a nil [stat *Stat]: field [c] sits at
    offset 0, so the address is the null pointer, which the C client
    accepts and never writes through. *)
Inductive StatPtr : Type :=
  | StatOfLocal
  | StatOfNil.

(** What the local [cstat] holds after a call that was given [p] and whose
    reply carried [reply]. *)
Definition stat_after_call (p : StatPtr) (reply : C_Stat) (cstat : Stat) : Stat :=
  match p with
  | StatOfLocal => mkStat reply
  | StatOfNil => cstat
  end.

Record ACL : Type := mkACL { Perms : Z; Scheme : string; Id : string }.

(** ** Go channels of events *)

(** A buffered channel: its capacity, every event sent so far, how many of
    them the consumer has taken, and whether it was closed.  The buffer
    holds [drop rcvd sent]. *)
Record Chan : Type := mkChan {
  cap : nat; sent : list Event; rcvd : nat; closed : bool
}.

Definition make_chan (n : nat) : Chan := mkChan n [] 0 false.

Definition chan_len (ch : Chan) : nat := (length (sent ch) - rcvd ch)%nat.

Inductive SendRes : Type :=
  | Sent (ch : Chan)
  | WouldBlock
  | SendOnClosed.

(** [select { case ch <- e: ... default: ... }] *)
Definition chan_try_send (ch : Chan) (e : Event) : SendRes :=
  if closed ch then SendOnClosed
  else if (chan_len ch <? cap ch)%nat
       then Sent (mkChan (cap ch) (sent ch ++ [e]) (rcvd ch) false)
       else WouldBlock.

(** [close(ch)]; closing twice panics ([None]). *)
Definition chan_close (ch : Chan) : option Chan :=
  if closed ch then None
  else Some (mkChan (cap ch) (sent ch) (rcvd ch) true).

Inductive RecvRes : Type :=
  | Received (e : Event) (ok : bool) (ch : Chan)
  | Blocked.

(** [e, ok := <-ch] *)
Definition chan_recv (ch : Chan) : RecvRes :=
  match drop (rcvd ch) (sent ch) with
  | e :: _ => Received e true (mkChan (cap ch) (sent ch) (S (rcvd ch)) (closed ch))
  | [] => if closed ch then Received zero_Event false ch else Blocked
  end.

(** ** Connections and the process-wide state *)

(** [uintptr] is taken to be 64 bits wide. *)
Definition uintptr_bits : N := 64.
Definition uintptr_modulus : N := (2 ^ uintptr_bits)%N.
Definition uintptr_wrap (n : N) : N := (n mod uintptr_modulus)%N.

(** [type Conn struct]; channels and connections are referred to by their
    index in the heaps of [World].  [handle] is [None] for a nil handle. *)
Record Conn : Type := mkConn {
  watchChannels : gmap N nat;
  sessionWatchId : N;
  handle : option nat
}.

Record World : Type := mkWorld {
  conns : list Conn;
  chans : list Chan;
  watchConns : gmap N nat;
  watchCounter : N;
  watchLoopCounter : Z;
  watchLoops : nat
}.

(** Process start: the package-level variables at their initial values. *)
Definition init_World : World := mkWorld [] [] ∅ 0%N 0 0%nat.

Definition set_conns (f : list Conn → list Conn) (w : World) : World :=
  mkWorld (f (conns w)) (chans w) (watchConns w) (watchCounter w)
          (watchLoopCounter w) (watchLoops w).
Definition set_chans (f : list Chan → list Chan) (w : World) : World :=
  mkWorld (conns w) (f (chans w)) (watchConns w) (watchCounter w)
          (watchLoopCounter w) (watchLoops w).
Definition set_watchConns (f : gmap N nat → gmap N nat) (w : World) : World :=
  mkWorld (conns w) (chans w) (f (watchConns w)) (watchCounter w)
          (watchLoopCounter w) (watchLoops w).
Definition set_watchCounter (n : N) (w : World) : World :=
  mkWorld (conns w) (chans w) (watchConns w) n
          (watchLoopCounter w) (watchLoops w).
Definition set_watchLoop (n : Z) (k : nat) (w : World) : World :=
  mkWorld (conns w) (chans w) (watchConns w) (watchCounter w) n k.

Definition set_watchChannels (f : gmap N nat → gmap N nat) (zk : Conn) : Conn :=
  mkConn (f (watchChannels zk)) (sessionWatchId zk) (handle zk).
Definition set_sessionWatchId (id : N) (zk : Conn) : Conn :=
  mkConn (watchChannels zk) id (handle zk).
Definition set_handle (h : option nat) (zk : Conn) : Conn :=
  mkConn (watchChannels zk) (sessionWatchId zk) h.

(** ** Computations on the world *)

(** A call either returns a value and the next world, or panics. *)
Inductive Res (A : Type) : Type :=
  | Done (a : A) (w : World)
  | Panic (msg : string).
Arguments Done {A} a w.
Arguments Panic {A} msg.

Definition M (A : Type) : Type := World → Res A.

#[global] Instance M_ret : MRet M := λ A a w, Done a w.
#[global] Instance M_bind : MBind M := λ A B f m w,
  match m w with
  | Done a w' => f a w'
  | Panic msg => Panic msg
  end.

Definition panic {A} (msg : string) : M A := λ _, Panic msg.
Definition modify (f : World → World) : M unit := λ w, Done tt (f w).
Definition gets {A} (f : World → A) : M A := λ w, Done (f w) w.

(** [*zk] *)
Definition get_conn (zk : nat) : M Conn := λ w,
  match conns w !! zk with
  | Some conn => Done conn w
  | None => Panic "nil pointer dereference"
  end.

Definition update_conn (zk : nat) (f : Conn → Conn) : M unit :=
  conn ← get_conn zk;
  modify (set_conns (λ l, <[zk := f conn]> l)).

(** [make(chan Event, buf)] *)
Definition new_chan (buf : nat) : M nat := λ w,
  Done (length (chans w)) (set_chans (λ l, l ++ [make_chan buf]) w).

(** [&Conn{}] with [watchChannels] set to a fresh map. *)
Definition new_conn : M nat := λ w,
  Done (length (conns w)) (set_conns (λ l, l ++ [mkConn ∅ 0%N None]) w).

(** ** The watch registry *)

(** [CountPendingWatches] *)
Definition CountPendingWatches (w : World) : nat := size (watchConns w).

(** [createWatch] *)
Definition createWatch (zk : nat) (session : bool) : M (N * nat) :=
  let buf := if session then 32%nat else 1%nat in
  watchChannel ← new_chan buf;
  watchId ← gets watchCounter;
  _ ← modify (set_watchCounter (uintptr_wrap (watchId + 1)));
  _ ← update_conn zk (set_watchChannels (λ m, <[watchId := watchChannel]> m));
  _ ← modify (set_watchConns (λ m, <[watchId := zk]> m));
  mret (watchId, watchChannel).

(** [forgetWatch] *)
Definition forgetWatch (zk : nat) (watchId : N) : M unit :=
  _ ← update_conn zk (set_watchChannels (λ m, delete watchId m));
  modify (set_watchConns (λ m, delete watchId m)).

(** [*ch] on the channel heap. *)
Definition get_chan (ch : nat) : M Chan := λ w,
  match chans w !! ch with
  | Some ch0 => Done ch0 w
  | None => Panic "nil channel"
  end.

Definition put_chan (ch : nat) (ch1 : Chan) : M unit :=
  modify (set_chans (λ l, <[ch := ch1]> l)).

(** [close(ch)] *)
Definition close_chan (ch : nat) : M unit :=
  ch0 ← get_chan ch;
  match chan_close ch0 with
  | None => panic "close of closed channel"
  | Some ch1 => put_chan ch ch1
  end.

(** The body of the [range] loop of [closeAllWatches], over the entries of
    the map in the order they are visited. *)
Fixpoint close_watches (zk : nat) (l : list (N * nat)) : M unit :=
  match l with
  | [] => mret tt
  | (watchId, ch) :: l' =>
    _ ← close_chan ch;
    _ ← update_conn zk (set_watchChannels (λ m, delete watchId m));
    _ ← modify (set_watchConns (λ m, delete watchId m));
    close_watches zk l'
  end.

(** [closeAllWatches] *)
Definition closeAllWatches (zk : nat) : M unit :=
  conn ← get_conn zk;
  close_watches zk (map_to_list (watchChannels conn)).

(** The filter of [sendEvent]: a session event for a watch other than the
    session watch is dropped unless its state is critical. *)
Definition filtered (watchId : N) (event : Event) (zk : Conn) : bool :=
  (Type_ event =? EVENT_SESSION)
  && negb (watchId =? sessionWatchId zk)%N
  && negb ((State event =? STATE_EXPIRED_SESSION)
           || (State event =? STATE_AUTH_FAILED)).

(** [sendEvent] *)
Definition sendEvent (watchId : N) (event : Event) : M unit :=
  if State event =? STATE_CLOSED then panic "Attempted to send a CLOSED event"
  else
    reg ← gets watchConns;
    match reg !! watchId with
    | None => mret tt
    | Some zk =>
      conn ← get_conn zk;
      if filtered watchId event conn then mret tt
      else
        match watchChannels conn !! watchId with
        | None => mret tt
        | Some ch =>
          ch0 ← get_chan ch;
          match chan_try_send ch0 event with
          | SendOnClosed => panic "send on closed channel"
          | WouldBlock =>
            if (watchId =? sessionWatchId conn)%N
            then panic "Session event channel buffer is full"
            else panic "Watch event channel buffer is full"
          | Sent ch1 =>
            _ ← put_chan ch ch1;
            if negb (watchId =? sessionWatchId conn)%N
            then
              _ ← update_conn zk (set_watchChannels (λ m, delete watchId m));
              _ ← modify (set_watchConns (λ m, delete watchId m));
              close_chan ch
            else mret tt
          end
        end
    end.

(** [runWatchLoop]: [watchLoops] counts the [_watchLoop] goroutines started. *)
Definition runWatchLoop : M unit := λ w,
  let started := if watchLoopCounter w =? 0 then S (watchLoops w) else watchLoops w in
  Done tt (set_watchLoop (watchLoopCounter w + 1) started w).

(** [stopWatchLoop] *)
Definition stopWatchLoop : M unit := λ w,
  let n := watchLoopCounter w - 1 in
  Done tt (set_watchLoop (if n =? 0 then n + 1 else n) (watchLoops w) w).

(** A consumer's [<-ch] on channel [ch]; [None] when the receive blocks. *)
Definition recv (ch : nat) (w : World) : option (Event * bool * World) :=
  match chans w !! ch with
  | None => None
  | Some ch0 =>
    match chan_recv ch0 with
    | Received e ok ch1 => Some (e, ok, set_chans (λ l, <[ch := ch1]> l) w)
    | Blocked => None
    end
  end.

(** ** The C client library *)

(** The entry points of the C client used by the package, as state
    transformers on an abstract library state [R].  A handle is [None]
    when nil; a watch context is [None] when no watcher is passed.  Each
    reply carries the status [rc], the errno cgo reports, and what the
    call stores through its out-parameters on success. *)
Class Runtime (R : Type) : Type := {
  zookeeper_init :
    string → Z → option nat → N → R → (option nat * option OsError) * R;
  zookeeper_close : option nat → R → (Z * option OsError) * R;
  zoo_wget :
    option nat → string → option N → R → (Z * option OsError * string * C_Stat) * R;
  zoo_wget_children2 :
    option nat → string → option N → R
    → (Z * option OsError * list string * C_Stat) * R;
  zoo_wexists :
    option nat → string → option N → R → (Z * option OsError * C_Stat) * R;
  zoo_create :
    option nat → string → string → list ACL → Z → R
    → (Z * option OsError * string) * R;
  zoo_set2 :
    option nat → string → string → Z → R → (Z * option OsError * C_Stat) * R
}.

(** Computations that also talk to the library. *)
Definition MR (R A : Type) : Type := World → R → Res (A * R).

#[global] Instance MR_ret {R} : MRet (MR R) := λ A a w r, Done (a, r) w.
#[global] Instance MR_bind {R} : MBind (MR R) := λ A B f m w r,
  match m w r with
  | Done (a, r') w' => f a w' r'
  | Panic msg => Panic msg
  end.

Definition liftW {R A} (m : M A) : MR R A := λ w r,
  match m w with
  | Done a w' => Done (a, r) w'
  | Panic msg => Panic msg
  end.

Definition native {R A} (f : R → A * R) : MR R A := λ w r,
  let '(a, r') := f r in Done (a, r') w.

(** [C.int(x)] for an [int64] [x]. *)
Definition C_int (x : Z) : Z := (x + 2 ^ 31) mod 2 ^ 32 - 2 ^ 31.

(** [type ChangeFunc func(oldValue string, oldStat *Stat) (string, os.Error)] *)
Definition ChangeFunc : Type := string → option Stat → string * option OsError.

(** Result of running the retry loop for a bounded number of rounds. *)
Inductive LoopRes : Type :=
  | Returned (err : option OsError)
  | StillLooping.

Section Facade.
Context {R : Type} `{!Runtime R}.

(** [dial] *)
Definition dial (servers : string) (recvTimeoutNS : Z) (clientId : option nat)
  : MR R (option nat * option nat * option OsError) :=
  zk ← liftW new_conn;
  '(watchId, watchChannel) ← liftW (createWatch zk true);
  _ ← liftW (update_conn zk (set_sessionWatchId watchId));
  '(h, cerr) ← native (zookeeper_init servers
                         (C_int (recvTimeoutNS `quot` 1000000)) clientId watchId);
  match h with
  | None =>
    _ ← liftW (closeAllWatches zk);
    mret (None, None, zkError ZSYSTEMERROR cerr)
  | Some _ =>
    _ ← liftW (update_conn zk (set_handle h));
    _ ← liftW runWatchLoop;
    mret (Some zk, Some watchChannel, None)
  end.

(** [Dial] and [Redial] *)
Definition Dial (servers : string) (recvTimeoutNS : Z) :=
  dial servers recvTimeoutNS None.
Definition Redial (servers : string) (recvTimeoutNS : Z) (clientId : nat) :=
  dial servers recvTimeoutNS (Some clientId).

(** [Conn.Close] *)
Definition Close (zk : nat) : MR R (option OsError) :=
  conn ← liftW (get_conn zk);
  match handle conn with
  | None => mret (Some (ErrCode ZCLOSING))
  | Some h =>
    '(rc, cerr) ← native (zookeeper_close (Some h));
    _ ← liftW (closeAllWatches zk);
    _ ← liftW stopWatchLoop;
    _ ← liftW (update_conn zk (set_handle None));
    mret (zkError rc cerr)
  end.

(** [Conn.Get] *)
Definition Get (zk : nat) (path : string)
  : MR R (string * option Stat * option OsError) :=
  conn ← liftW (get_conn zk);
  let cstat := zero_Stat in
  '(rc, cerr, data, reply) ← native (zoo_wget (handle conn) path None);
  let cstat := stat_after_call StatOfLocal reply cstat in
  if negb (rc =? ZOK) then mret (""%string, None, zkError rc cerr)
  else mret (data, Some cstat, None).

(** [Conn.GetW] *)
Definition GetW (zk : nat) (path : string)
  : MR R (string * option Stat * option nat * option OsError) :=
  '(watchId, watchChannel) ← liftW (createWatch zk true);
  conn ← liftW (get_conn zk);
  let cstat := zero_Stat in
  '(rc, cerr, data, reply) ← native (zoo_wget (handle conn) path (Some watchId));
  let cstat := stat_after_call StatOfLocal reply cstat in
  if negb (rc =? ZOK) then
    _ ← liftW (forgetWatch zk watchId);
    mret (""%string, None, None, zkError rc cerr)
  else mret (data, Some cstat, Some watchChannel, None).

(** [Conn.Children] *)
Definition Children (zk : nat) (path : string)
  : MR R (list string * option Stat * option OsError) :=
  conn ← liftW (get_conn zk);
  let cstat := zero_Stat in
  '(rc, cerr, cvector, reply) ←
    native (zoo_wget_children2 (handle conn) path None);
  let cstat := stat_after_call StatOfLocal reply cstat in
  let children := if (length cvector =? 0)%nat then [] else cvector in
  if rc =? ZOK then mret (children, Some cstat, None)
  else mret (children, None, zkError rc cerr).

(** [Conn.ChildrenW] *)
Definition ChildrenW (zk : nat) (path : string)
  : MR R (list string * option Stat * option nat * option OsError) :=
  '(watchId, watchChannel) ← liftW (createWatch zk true);
  conn ← liftW (get_conn zk);
  let cstat := zero_Stat in
  '(rc, cerr, cvector, reply) ←
    native (zoo_wget_children2 (handle conn) path (Some watchId));
  let cstat := stat_after_call StatOfLocal reply cstat in
  let children := if (length cvector =? 0)%nat then [] else cvector in
  if rc =? ZOK then mret (children, Some cstat, Some watchChannel, None)
  else
    _ ← liftW (forgetWatch zk watchId);
    mret (children, None, None, zkError rc cerr).

(** [Conn.Exists].  The out-parameter of the call is [&stat.c], with
    [stat] the still-nil named result, not [&cstat.c]. *)
Definition Exists (zk : nat) (path : string)
  : MR R (option Stat * option OsError) :=
  conn ← liftW (get_conn zk);
  let cstat := zero_Stat in
  '(rc, cerr, reply) ← native (zoo_wexists (handle conn) path None);
  let cstat := stat_after_call StatOfNil reply cstat in
  if rc =? ZOK then mret (Some cstat, None)
  else if negb (rc =? ZNONODE) then mret (None, zkError rc cerr)
  else mret (None, None).

(** [Conn.ExistsW] *)
Definition ExistsW (zk : nat) (path : string)
  : MR R (option Stat * option nat * option OsError) :=
  '(watchId, watchChannel) ← liftW (createWatch zk true);
  conn ← liftW (get_conn zk);
  let cstat := zero_Stat in
  '(rc, cerr, reply) ← native (zoo_wexists (handle conn) path (Some watchId));
  let cstat := stat_after_call StatOfLocal reply cstat in
  if rc =? ZOK then mret (Some cstat, Some watchChannel, None)
  else if rc =? ZNONODE then mret (None, Some watchChannel, None)
  else
    _ ← liftW (forgetWatch zk watchId);
    mret (None, None, zkError rc cerr).

(** [Conn.Create] *)
Definition Create (zk : nat) (path value : string) (flags : Z) (aclv : list ACL)
  : MR R (string * option OsError) :=
  conn ← liftW (get_conn zk);
  '(rc, cerr, cpathCreated) ←
    native (zoo_create (handle conn) path value aclv (C_int flags));
  if rc =? ZOK then mret (cpathCreated, None)
  else mret (""%string, zkError rc cerr).

(** [Conn.Set] *)
Definition Set_ (zk : nat) (path value : string) (version : Z)
  : MR R (option Stat * option OsError) :=
  conn ← liftW (get_conn zk);
  let cstat := zero_Stat in
  '(rc, cerr, reply) ← native (zoo_set2 (handle conn) path value version);
  let cstat := stat_after_call StatOfLocal reply cstat in
  if rc =? ZOK then mret (Some cstat, None)
  else mret (None, zkError rc cerr).

(** [Conn.RetryChange]: the [for] loop, run for at most [fuel] rounds. *)
Fixpoint RetryChange (fuel : nat) (zk : nat) (path : string) (flags : Z)
    (acl : list ACL) (changeFunc : ChangeFunc) : MR R LoopRes :=
  match fuel with
  | O => mret StillLooping
  | S fuel' =>
    '(oldValue, oldStat, err) ← Get zk path;
    if negb (is_nil err) && negb (err_is ZNONODE err) then mret (Returned err)
    else
      let '(newValue, err) := changeFunc oldValue oldStat in
      if negb (is_nil err) then mret (Returned err)
      else
        match oldStat with
        | None =>
          '(_, err) ← Create zk path newValue flags acl;
          if is_nil err || negb (err_is ZNODEEXISTS err) then mret (Returned err)
          else RetryChange fuel' zk path flags acl changeFunc
        | Some oldStat =>
          if String.eqb newValue oldValue then mret (Returned None)
          else
            '(_, err) ← Set_ zk path newValue (Version oldStat);
            if is_nil err
               || (negb (err_is ZBADVERSION err) && negb (err_is ZNONODE err))
            then mret (Returned None)
            else RetryChange fuel' zk path flags acl changeFunc
        end
  end.
End Facade.

(** ** A scripted library, for running the operations on concrete inputs *)

Module Script.
Inductive Reply : Type :=
  | RInit (h : option nat) (cerr : option OsError)
  | RClose (rc : Z) (cerr : option OsError)
  | RGet (rc : Z) (cerr : option OsError) (data : string) (stat : C_Stat)
  | RChildren (rc : Z) (cerr : option OsError) (names : list string) (stat : C_Stat)
  | RExists (rc : Z) (cerr : option OsError) (stat : C_Stat)
  | RCreate (rc : Z) (cerr : option OsError) (created : string)
  | RSet (rc : Z) (cerr : option OsError) (stat : C_Stat).

Inductive Call : Type :=
  | CInit (servers : string) (timeout : Z) (clientId : option nat) (ctx : N)
  | CClose (h : option nat)
  | CGet (h : option nat) (path : string) (ctx : option N)
  | CChildren (h : option nat) (path : string) (ctx : option N)
  | CExists (h : option nat) (path : string) (ctx : option N)
  | CCreate (h : option nat) (path value : string) (aclv : list ACL) (flags : Z)
  | CSet (h : option nat) (path value : string) (version : Z).

(** The replies still to be given, and the calls received so far. *)
Record t : Type := mk { replies : list Reply; calls : list Call }.

Definition next (call : Call) (s : t) : option Reply * t :=
  (head (replies s), mk (tail (replies s)) (calls s ++ [call])).

(** A call that finds no reply of its kind fails with [ZSYSTEMERROR]. *)
#[global] Instance runtime : Runtime t := {|
  zookeeper_init servers timeout clientId ctx s :=
    match next (CInit servers timeout clientId ctx) s with
    | (Some (RInit h cerr), s') => ((h, cerr), s')
    | (_, s') => ((None, None), s')
    end;
  zookeeper_close h s :=
    match next (CClose h) s with
    | (Some (RClose rc cerr), s') => ((rc, cerr), s')
    | (_, s') => ((ZSYSTEMERROR, None), s')
    end;
  zoo_wget h path ctx s :=
    match next (CGet h path ctx) s with
    | (Some (RGet rc cerr data stat), s') => ((rc, cerr, data, stat), s')
    | (_, s') => ((ZSYSTEMERROR, None, ""%string, zero_C_Stat), s')
    end;
  zoo_wget_children2 h path ctx s :=
    match next (CChildren h path ctx) s with
    | (Some (RChildren rc cerr names stat), s') => ((rc, cerr, names, stat), s')
    | (_, s') => ((ZSYSTEMERROR, None, [], zero_C_Stat), s')
    end;
  zoo_wexists h path ctx s :=
    match next (CExists h path ctx) s with
    | (Some (RExists rc cerr stat), s') => ((rc, cerr, stat), s')
    | (_, s') => ((ZSYSTEMERROR, None, zero_C_Stat), s')
    end;
  zoo_create h path value aclv flags s :=
    match next (CCreate h path value aclv flags) s with
    | (Some (RCreate rc cerr created), s') => ((rc, cerr, created), s')
    | (_, s') => ((ZSYSTEMERROR, None, ""%string), s')
    end;
  zoo_set2 h path value version s :=
    match next (CSet h path value version) s with
    | (Some (RSet rc cerr stat), s') => ((rc, cerr, stat), s')
    | (_, s') => ((ZSYSTEMERROR, None, zero_C_Stat), s')
    end
|}.
End Script.

(** ** Sequences of registry operations *)

Inductive RegOp : Type :=
  | OpCreate (zk : nat) (session : bool)
  | OpForget (zk : nat) (watchId : N)
  | OpCloseAll (zk : nat)
  | OpSend (watchId : N) (event : Event).

(** Runs the operations in order and returns the identifiers that the
    [createWatch] calls among them handed out, oldest first. *)
Fixpoint run_ops (ops : list RegOp) : M (list N) :=
  match ops with
  | [] => mret []
  | OpCreate zk session :: ops' =>
    '(watchId, _) ← createWatch zk session;
    ids ← run_ops ops';
    mret (watchId :: ids)
  | OpForget zk watchId :: ops' => _ ← forgetWatch zk watchId; run_ops ops'
  | OpCloseAll zk :: ops' => _ ← closeAllWatches zk; run_ops ops'
  | OpSend watchId event :: ops' => _ ← sendEvent watchId event; run_ops ops'
  end.

(** ** Well-formed worlds and the transitions of the package *)

(** The next identifier can be handed out without [watchCounter] wrapping. *)
Definition no_wrap (w : World) : Prop :=
  (watchCounter w + 1 < uintptr_modulus)%N.

(** [zk] owns watch [watchId], delivered on channel [ch]. *)
Definition owns (w : World) (zk : nat) (watchId : N) (ch : nat) : Prop :=
  ∃ conn, conns w !! zk = Some conn ∧ watchChannels conn !! watchId = Some ch.

(** [watchId] is the session watch of the connection [zk]. *)
Definition is_session (w : World) (zk : nat) (watchId : N) : Prop :=
  ∃ conn, conns w !! zk = Some conn ∧ sessionWatchId conn = watchId.

(** The connection [zk] has not been closed. *)
Definition is_open (w : World) (zk : nat) : Prop :=
  ∃ conn, conns w !! zk = Some conn ∧ is_Some (handle conn).

Record wf (w : World) : Prop := mk_wf {
  (** the two registry maps agree *)
  wf_reg : ∀ id zk, watchConns w !! id = Some zk ↔ ∃ ch, owns w zk id ch;
  (** registered identifiers were handed out before *)
  wf_below : ∀ id zk, watchConns w !! id = Some zk → (id < watchCounter w)%N;
  (** a registered channel is open, and nothing was sent yet on a one-shot one *)
  wf_live : ∀ zk id ch, owns w zk id ch →
    ∃ ch0, chans w !! ch = Some ch0 ∧ closed ch0 = false
           ∧ (¬ is_session w zk id → sent ch0 = []);
  (** no channel serves two watches *)
  wf_alias : ∀ zk1 id1 zk2 id2 ch,
    owns w zk1 id1 ch → owns w zk2 id2 ch → id1 = id2;
  (** an open connection has its session watch *)
  wf_session : ∀ zk, is_open w zk → ∃ id ch, is_session w zk id ∧ owns w zk id ch;
  (** no event in flight carries [STATE_CLOSED] *)
  wf_sent : ∀ ch ch0 e, chans w !! ch = Some ch0 → e ∈ sent ch0 →
    State e ≠ STATE_CLOSED;
  (** a consumer has taken no more than was sent *)
  wf_rcvd : ∀ ch ch0, chans w !! ch = Some ch0 →
    (rcvd ch0 ≤ length (sent ch0))%nat
}.

(** One transition of the process: a public operation that touches the
    registry, the dispatcher handling one notification, or a consumer
    receiving from a channel.  Operations that allocate an identifier are
    taken while the counter has not wrapped. *)
Inductive step : World → World → Prop :=
  | step_dial (R : Type) (RT : Runtime R) servers ns clientId w r res w' :
      no_wrap w → dial servers ns clientId w r = Done res w' → step w w'
  | step_Close (R : Type) (RT : Runtime R) zk w r res w' :
      Close zk w r = Done res w' → step w w'
  | step_GetW (R : Type) (RT : Runtime R) zk path w r res w' :
      no_wrap w → GetW zk path w r = Done res w' → step w w'
  | step_ChildrenW (R : Type) (RT : Runtime R) zk path w r res w' :
      no_wrap w → ChildrenW zk path w r = Done res w' → step w w'
  | step_ExistsW (R : Type) (RT : Runtime R) zk path w r res w' :
      no_wrap w → ExistsW zk path w r = Done res w' → step w w'
  | step_sendEvent watchId event w w' :
      sendEvent watchId event w = Done tt w' → step w w'
  | step_recv ch w e ok w' :
      recv ch w = Some (e, ok, w') → step w w'.

Inductive reachable : World → Prop :=
  | reach_init : reachable init_World
  | reach_step w w' : reachable w → step w w' → reachable w'.

(** The world a computation ends in ([init_World] if it panicked). *)
Definition world_of {A} (r : Res A) : World :=
  match r with
  | Done _ w => w
  | Panic _ => init_World
  end.

(** The world [createWatch] leaves behind, and the one left after the
    watch it registered has been forgotten again. *)
Definition created (zk : nat) (session : bool) (conn : Conn) (w : World) : World :=
  mkWorld
    (<[zk := set_watchChannels
               (λ m, <[watchCounter w := length (chans w)]> m) conn]> (conns w))
    (chans w ++ [make_chan (if session then 32 else 1)%nat])
    (<[watchCounter w := zk]> (watchConns w))
    (uintptr_wrap (watchCounter w + 1))
    (watchLoopCounter w) (watchLoops w).

Definition forgotten (session : bool) (w : World) : World :=
  mkWorld (conns w) (chans w ++ [make_chan (if session then 32 else 1)%nat])
    (watchConns w) (uintptr_wrap (watchCounter w + 1))
    (watchLoopCounter w) (watchLoops w).

(** A channel after [close]. *)
Definition shut (ch0 : Chan) : Chan :=
  mkChan (cap ch0) (sent ch0) (rcvd ch0) true.

Definition delete_all (ids : list N) (m : gmap N nat) : gmap N nat :=
  foldl (λ acc id, delete id acc) m ids.

Definition shut_all (chs : list nat) (l : list Chan) : list Chan :=
  foldl (λ acc ch, alter shut ch acc) l chs.

(** The world after the loop of [closeAllWatches] has visited the entries
    [l] of the map of [zk]. *)
Definition watches_closed (zk : nat) (conn : Conn) (l : list (N * nat))
    (w : World) : World :=
  mkWorld (<[zk := set_watchChannels (delete_all l.*1) conn]> (conns w))
    (shut_all l.*2 (chans w))
    (delete_all l.*1 (watchConns w))
    (watchCounter w) (watchLoopCounter w) (watchLoops w).

(** The world after [Close] on an open connection. *)
Definition closed_world (zk : nat) (conn : Conn) (w : World) : World :=
  let l := map_to_list (watchChannels conn) in
  mkWorld (<[zk := mkConn ∅ (sessionWatchId conn) None]> (conns w))
    (shut_all l.*2 (chans w))
    (delete_all l.*1 (watchConns w))
    (watchCounter w)
    (if watchLoopCounter w - 1 =? 0 then watchLoopCounter w - 1 + 1
     else watchLoopCounter w - 1)
    (watchLoops w).

(** The worlds after a successful and after a failed [dial]. *)
Definition dialed (h : nat) (w : World) : World :=
  mkWorld
    (conns w ++ [mkConn {[watchCounter w := length (chans w)]} (watchCounter w) (Some h)])
    (chans w ++ [make_chan 32])
    (<[watchCounter w := length (conns w)]> (watchConns w))
    (uintptr_wrap (watchCounter w + 1))
    (watchLoopCounter w + 1)
    (if watchLoopCounter w =? 0 then S (watchLoops w) else watchLoops w).

Definition dial_failed (w : World) : World :=
  mkWorld
    (conns w ++ [mkConn ∅ (watchCounter w) None])
    (chans w ++ [shut (make_chan 32)])
    (delete (watchCounter w) (watchConns w))
    (uintptr_wrap (watchCounter w + 1))
    (watchLoopCounter w) (watchLoops w).

(** How a channel can differ between a world and a later one: the capacity
    is fixed, events are only appended, and nothing is appended once the
    channel is closed. *)
Definition evolves (ch0 ch1 : Chan) : Prop :=
  cap ch1 = cap ch0 ∧ sent ch0 `prefix_of` sent ch1 ∧
  (closed ch0 = true → closed ch1 = true ∧ sent ch1 = sent ch0).

(** ** Concrete runs *)

Definition ex_stat : C_Stat := mkCStat 3 9 100 200 5 0 0 0 3 1 9.

(** A connection dialled at process start. *)
Definition ex_dialed : World :=
  world_of (Dial "localhost:2181" 5000000000 init_World
              (Script.mk [Script.RInit (Some 1%nat) None] [])).

(** The same connection after a successful [GetW]: watch 0 is the session
    watch, watch 1 a one-shot watch. *)
Definition ex_watching : World :=
  world_of (GetW 0 "/test" ex_dialed
              (Script.mk [Script.RGet ZOK None "one" ex_stat] [])).

(** [ex_dialed] with the identifier counter at its last value. *)
Definition ex_wrapping : World :=
  set_watchCounter (uintptr_modulus - 1) ex_dialed.

(** A run that registers, forgets, delivers and closes between allocations. *)
Definition ex_ops : list RegOp :=
  [OpCreate 0 true; OpForget 0 1; OpCreate 0 true;
   OpSend 2 (mkEvent EVENT_CHANGED "/test" STATE_CONNECTED);
   OpCreate 0 false; OpCloseAll 0; OpCreate 0 true].

(** ** Worlds after a delivery, and the effects of a transition *)

Definition session_delivered (ch : nat) (ch0 : Chan) (event : Event)
    (w : World) : World :=
  set_chans
    (λ l, <[ch := mkChan (cap ch0) (sent ch0 ++ [event]) (rcvd ch0) false]> l) w.

Definition oneshot_delivered (zk : nat) (conn : Conn) (watchId : N) (ch : nat)
    (ch0 : Chan) (event : Event) (w : World) : World :=
  mkWorld
    (<[zk := set_watchChannels (λ m, delete watchId m) conn]> (conns w))
    (<[ch := mkChan (cap ch0) (sent ch0 ++ [event]) (rcvd ch0) true]> (chans w))
    (delete watchId (watchConns w))
    (watchCounter w) (watchLoopCounter w) (watchLoops w).

(** Everything a transition can do to a world. *)
Inductive effect (w : World) : World → Prop :=
  | eff_dialed h : no_wrap w → effect w (dialed h w)
  | eff_dial_failed : no_wrap w → effect w (dial_failed w)
  | eff_closed zk conn h :
      conns w !! zk = Some conn → handle conn = Some h →
      effect w (closed_world zk conn w)
  | eff_none : effect w w
  | eff_created zk conn :
      no_wrap w → conns w !! zk = Some conn → effect w (created zk true conn w)
  | eff_forgotten : no_wrap w → effect w (forgotten true w)
  | eff_session_delivered zk conn ch ch0 event :
      watchConns w !! sessionWatchId conn = Some zk →
      conns w !! zk = Some conn →
      watchChannels conn !! sessionWatchId conn = Some ch →
      chans w !! ch = Some ch0 →
      closed ch0 = false → (chan_len ch0 < cap ch0)%nat →
      State event ≠ STATE_CLOSED →
      effect w (session_delivered ch ch0 event w)
  | eff_oneshot_delivered zk conn watchId ch ch0 event :
      watchConns w !! watchId = Some zk →
      conns w !! zk = Some conn →
      watchId ≠ sessionWatchId conn →
      watchChannels conn !! watchId = Some ch →
      chans w !! ch = Some ch0 →
      closed ch0 = false → (chan_len ch0 < cap ch0)%nat →
      State event ≠ STATE_CLOSED →
      effect w (oneshot_delivered zk conn watchId ch ch0 event w)
  | eff_recv ch ch0 e ok ch1 :
      chans w !! ch = Some ch0 → chan_recv ch0 = Received e ok ch1 →
      effect w (set_chans (λ l, <[ch := ch1]> l) w).

(** The number of watches the connections hold in their own maps. *)
Definition owned_total (w : World) : nat :=
  sum_list_with (λ conn, size (watchChannels conn)) (conns w).



(** Two connections, the first with a one-shot watch. *)
Definition ex_two : World :=
  world_of (Dial "localhost:2181" 5000000000 ex_watching
              (Script.mk [Script.RInit (Some 2%nat) None] [])).

(** ** A library whose node changes between every read and write *)

Module Contended.
(** The state counts the calls received.  Every read finds the node,
    every version-checked write is refused because the node has changed
    in between. *)
#[global] Instance runtime : Runtime nat := {|
  zookeeper_init _ _ _ _ n := ((None, None), S n);
  zookeeper_close _ n := ((ZSYSTEMERROR, None), S n);
  zoo_wget _ _ _ n := ((ZOK, None, "old"%string, zero_C_Stat), S n);
  zoo_wget_children2 _ _ _ n := ((ZSYSTEMERROR, None, [], zero_C_Stat), S n);
  zoo_wexists _ _ _ n := ((ZSYSTEMERROR, None, zero_C_Stat), S n);
  zoo_create _ _ _ _ _ n := ((ZNODEEXISTS, None, ""%string), S n);
  zoo_set2 _ _ _ _ n := ((ZBADVERSION, None, zero_C_Stat), S n)
|}.
End Contended.

(** ** The watch loop *)

(** [watch_data] of the C helpers: one notification as [wait_for_watch]
    hands it out. *)
Record watch_data : Type := mk_watch_data {
  watch_context : N;
  event_type : Z;
  connection_state : Z;
  event_path : string
}.

(** The [Event] built by [_watchLoop] from a notification. *)
Definition watch_event (data : watch_data) : Event :=
  mkEvent (event_type data) (event_path data) (connection_state data).

(** [_watchLoop], run on the notifications the library hands out in turn. *)
Fixpoint _watchLoop (queue : list watch_data) : M unit :=
  match queue with
  | [] => mret tt
  | data :: rest =>
    let event := watch_event data in
    let watchId := watch_context data in
    _ ← sendEvent watchId event;
    _watchLoop rest
  end.

(** ** Printing events *)

(** [func (e Event) String() (s string)] *)
Definition Event_String (e : Event) : string :=
  let s :=
    if State e =? STATE_EXPIRED_SESSION then "Conn session expired"
    else if State e =? STATE_AUTH_FAILED then "Conn authentication failed"
    else if State e =? STATE_CONNECTING then "Conn connecting"
    else if State e =? STATE_ASSOCIATING then "Conn still associating"
    else if State e =? STATE_CONNECTED then "Conn connected"
    else if State e =? STATE_CLOSED then "Conn connection closed"
    else "unknown Conn state " +:+ pretty (State e) in
  if (Type_ e =? -1) || (Type_ e =? EVENT_SESSION) then s
  else
    let s := if negb (String.eqb s "") then s +:+ "; " else s in
    let s :=
      if Type_ e =? EVENT_CREATED then s +:+ "path created: "
      else if Type_ e =? EVENT_DELETED then s +:+ "path deleted: "
      else if Type_ e =? EVENT_CHANGED then s +:+ "path changed: "
      else if Type_ e =? EVENT_CHILD then s +:+ "path children changed: "
      else if Type_ e =? EVENT_NOTWATCHING then s +:+ "not watching: "
      else s in
    s +:+ Path e.

(** ** C strings and ACL vectors *)

(** What the package uses of cgo's pseudo-package [C]. *)
Module C.
(** [C.CString]: a fresh buffer holding the bytes of the Go string and a
    terminating NUL. *)
Definition CString (s : string) : list ascii :=
  list_ascii_of_string s ++ [Ascii.zero].

(** [C.GoString]: the bytes of the buffer before its first NUL. *)
Fixpoint GoString (p : list ascii) : string :=
  match p with
  | [] => EmptyString
  | a :: p' => if Ascii.eqb a Ascii.zero then EmptyString else String a (GoString p')
  end.

(** [C.int32_t(x)] *)
Definition int32_t (x : Z) : Z := (x + 2 ^ 31) mod 2 ^ 32 - 2 ^ 31.

(** [struct ACL { int32_t perms; struct Id id; }], with the two strings
    of [struct Id] inlined. *)
Record struct_ACL : Type := mk_ACL {
  perms : Z;
  id_scheme : list ascii;
  id_id : list ascii
}.

(** [struct ACL_vector { int32_t count; struct ACL *data; }] *)
Record struct_ACL_vector : Type := mk_ACL_vector {
  count : Z;
  data : list struct_ACL
}.
End C.

(** [uint32(x)] *)
Definition uint32 (x : Z) : Z := x mod 2 ^ 32.

(** [AuthACL] and [WorldACL] *)
Definition AuthACL (perms : Z) : list ACL := [mkACL perms "auth" ""].
Definition WorldACL (perms : Z) : list ACL := [mkACL perms "world" "anyone"].

(** [buildACLVector]; [allocated] tells whether [calloc] returned a
    block, and [None] is the panic when it did not. *)
Definition buildACLVector (allocated : bool) (aclv : list ACL)
  : option C.struct_ACL_vector :=
  if negb allocated then None
  else
    Some (C.mk_ACL_vector (C.int32_t (Z.of_nat (length aclv)))
            (map (λ acl, C.mk_ACL (C.int32_t (Perms acl))
                           (C.CString (Scheme acl)) (C.CString (Id acl)))
                 aclv)).

(** [parseACLVector]; [None] when [make] is given a negative length or
    the loop reads past the end of the data. *)
Definition parseACLVector (caclv : C.struct_ACL_vector) : option (list ACL) :=
  if C.count caclv <? 0 then None
  else
    mapM (λ i, cacl ← C.data caclv !! i;
               Some (mkACL (uint32 (C.perms cacl))
                       (C.GoString (C.id_scheme cacl))
                       (C.GoString (C.id_id cacl))))
         (seq 0 (Z.to_nat (C.count caclv))).

(** ** The server's run directory ([server.go]) *)

Module ZkServer.
(** A call that returns, or a run-time panic. *)
Inductive Outcome (A : Type) : Type :=
  | Returns (a : A)
  | Panics (msg : string).
Arguments Returns {A} a.
Arguments Panics {A} msg.

(** The errors the server code returns: one the system reported, or one
    made by [fmt.Errorf] from a format and its argument. *)
Inductive ServerError : Type :=
  | OsErr (e : OsError)
  | Errorf_v (format : string) (cause : OsError)
  | Errorf_q (format : string) (arg : string).

(** The file-system calls of the server code; [Join] is [filepath.Join]. *)
Class FileSystem (F : Type) : Type := {
  Mkdir : string → Z → F → option OsError * F;
  WriteFile : string → string → Z → F → option OsError * F;
  ReadFile : string → F → string * option OsError;
  Join : string → string → string
}.

(** [type Server struct { runDir string; zkDir string }] *)
Record Server : Type := mkServer { runDir : string; zkDir : string }.

Definition nl : string := String "010" "".

Definition log4jProperties : string :=
  nl +:+ "log4j.rootLogger=INFO, CONSOLE" +:+ nl
  +:+ "log4j.appender.CONSOLE=org.apache.log4j.ConsoleAppender" +:+ nl
  +:+ "log4j.appender.CONSOLE.Threshold=INFO" +:+ nl
  +:+ "log4j.appender.CONSOLE.layout=org.apache.log4j.PatternLayout" +:+ nl
  +:+ "log4j.appender.CONSOLE.layout.ConversionPattern=%d{ISO8601} - %-5p [%t:%C{1}@%L] - %m%n"
  +:+ nl.

Section Files.
Context {F : Type} `{!FileSystem F}.

(** [Server.path] *)
Definition path (srv : Server) (name : string) : string := Join (runDir srv) name.

(** [Server.writeLog4JConfig] *)
Definition writeLog4JConfig (srv : Server) (fs : F) : option OsError * F :=
  WriteFile (path srv "log4j.properties") log4jProperties 438 fs.

(** [Server.writeZooKeeperConfig] *)
Definition writeZooKeeperConfig (srv : Server) (port : Z) (fs : F)
  : option OsError * F :=
  WriteFile (path srv "zoo.cfg")
    ("tickTime=2000" +:+ nl
     +:+ "dataDir=" +:+ runDir srv +:+ nl
     +:+ "clientPort=" +:+ pretty port +:+ nl
     +:+ "maxClientCnxns=500" +:+ nl) 438 fs.

(** [Server.writeInstallDir] *)
Definition writeInstallDir (srv : Server) (fs : F) : option OsError * F :=
  WriteFile (path srv "installdir.txt") (zkDir srv +:+ nl) 438 fs.

(** [Server.readInstallDir]; the server is returned as the method
    leaves it. *)
Definition readInstallDir (srv : Server) (fs : F)
  : Outcome (Server * option OsError) :=
  let '(data, err) := ReadFile (path srv "installdir.txt") fs in
  if negb (is_nil err) then Returns (srv, err)
  else
    let data := list_ascii_of_string data in
    match last data with
    | None => Panics "index out of range"
    | Some b =>
      let data := if Ascii.eqb b "010" then take (length data - 1) data else data in
      Returns (mkServer (runDir srv) (string_of_list_ascii data), None)
    end.

(** [CreateServer] *)
Definition CreateServer (port : Z) (runDir zkDir : string) (fs : F)
  : (option Server * option OsError) * F :=
  let '(err, fs) := Mkdir runDir 511 fs in
  if negb (is_nil err) then ((None, err), fs)
  else
    let srv := mkServer runDir zkDir in
    let '(err, fs) := writeLog4JConfig srv fs in
    if negb (is_nil err) then ((None, err), fs)
    else
      let '(err, fs) := writeZooKeeperConfig srv port fs in
      if negb (is_nil err) then ((None, err), fs)
      else
        let '(err, fs) := writeInstallDir srv fs in
        if negb (is_nil err) then ((None, err), fs)
        else ((Some srv, None), fs).

(** [AttachServer] *)
Definition AttachServer (runDir : string) (fs : F)
  : Outcome (option Server * option ServerError) :=
  let srv := mkServer runDir "" in
  match readInstallDir srv fs with
  | Panics msg => Panics msg
  | Returns (srv, Some err) =>
    Returns (None, Some (Errorf_v "cannot read server install directory: %v" err))
  | Returns (srv, None) => Returns (Some srv, None)
  end.
End Files.

(** A file system kept in memory: a map from paths to contents. *)
Module MemFS.
#[global] Instance fs : FileSystem (gmap string string) := {|
  Mkdir _ _ m := (None, m);
  WriteFile name data _ m := (None, <[name := data]> m);
  ReadFile name m :=
    match m !! name with
    | Some data => (data, None)
    | None => (""%string, Some (Errno 2))
    end;
  Join dir name := dir +:+ "/" +:+ name
|}.
End MemFS.

(** [bytes.HasPrefix] *)
Fixpoint HasPrefix (s prefix : list ascii) {struct prefix} : bool :=
  match prefix with
  | [] => true
  | a :: prefix' =>
    match s with
    | [] => false
    | b :: s' => Ascii.eqb a b && HasPrefix s' prefix'
    end
  end.

Fixpoint TrimLeft (s cutset : list ascii) : list ascii :=
  match s with
  | [] => []
  | a :: s' => if bool_decide (a ∈ cutset) then TrimLeft s' cutset else s
  end.

(** [strings.Trim] *)
Definition Trim (s cutset : list ascii) : list ascii :=
  reverse (TrimLeft (reverse (TrimLeft s cutset)) cutset).

(** [strings.Split], for a separator of one byte. *)
Fixpoint Split (s : list ascii) (sep : ascii) : list (list ascii) :=
  match s with
  | [] => [[]]
  | a :: s' =>
    if Ascii.eqb a sep then [] :: Split s' sep
    else match Split s' sep with
         | cur :: rest => (a :: cur) :: rest
         | [] => [[a]]
         end
  end.

(** [strings.Join], for a separator of one byte. *)
Fixpoint strings_Join (a : list (list ascii)) (sep : ascii) : list ascii :=
  match a with
  | [] => []
  | x :: rest =>
    match rest with
    | [] => x
    | _ :: _ => x ++ sep :: strings_Join rest sep
    end
  end.

Definition zookeeperEnviron : string := "/etc/zookeeper/conf/environment".

(** The loop of [systemClassPath], on the lines that [ReadSlice] returns
    before it fails. *)
Fixpoint systemClassPath_lines (lines : list (list ascii))
  : Outcome (option (list string) * option ServerError) :=
  match lines with
  | [] =>
    Returns (None, Some (Errorf_q "no class path found in %q" zookeeperEnviron))
  | line :: rest =>
    if negb (HasPrefix line (list_ascii_of_string "CLASSPATH="))
    then systemClassPath_lines rest
    else if (length line <? 11)%nat then Panics "slice bounds out of range"
    else
      let path := take (length line - 1 - 10) (drop 10 line) in
      let path := Trim path (list_ascii_of_string (String " " (String "009" (String "013" "")))) in
      match path with
      | [] => Panics "index out of range"
      | first :: _ =>
        if Ascii.eqb first "034" && (length path <? 2)%nat
        then Panics "slice bounds out of range"
        else
          let path :=
            if Ascii.eqb first "034" then take (length path - 1 - 1) (drop 1 path)
            else path in
          let classPath := Split path ":" in
          let classPath :=
            match classPath with
            | first :: others =>
              if String.eqb (string_of_list_ascii first) "$ZOOCFGDIR"
              then others else classPath
            | [] => classPath
            end in
          if (length classPath =? 0)%nat
          then Returns (None, Some (Errorf_q "empty class path in %q" zookeeperEnviron))
          else Returns (Some (string_of_list_ascii <$> classPath), None)
      end
  end.

(** [systemClassPath]; [f] is [None] when the file cannot be opened. *)
Definition systemClassPath (f : option (list (list ascii))) (err : option OsError)
  : Outcome (option (list string) * option ServerError) :=
  match f with
  | None => Returns (None, OsErr <$> err)
  | Some lines => systemClassPath_lines lines
  end.
End ZkServer.

(** * Properties *)

(** ** Unfolding the monads *)

Ltac munfold :=
  unfold mbind, mret, M_bind, M_ret, MR_bind, MR_ret, liftW, native,
    modify, gets, panic, put_chan in *.

Lemma sendEvent_absent watchId event w :
  State event ≠ STATE_CLOSED →
  watchConns w !! watchId = None →
  sendEvent watchId event w = Done tt w.
Proof.
  intros Hst Hreg. unfold sendEvent.
  destruct (Z.eqb_spec (State event) STATE_CLOSED) as [|_]; [done|].
  munfold. by rewrite Hreg.
Qed.

Lemma sendEvent_filtered watchId event w zk conn :
  State event ≠ STATE_CLOSED →
  watchConns w !! watchId = Some zk →
  conns w !! zk = Some conn →
  filtered watchId event conn = true →
  sendEvent watchId event w = Done tt w.
Proof.
  intros Hst Hreg Hzk Hf. unfold sendEvent.
  destruct (Z.eqb_spec (State event) STATE_CLOSED) as [|_]; [done|].
  munfold. rewrite Hreg. unfold get_conn. by rewrite Hzk, Hf.
Qed.

(** The world after a delivery on the session watch. *)
Lemma sendEvent_session watchId event w zk conn ch ch0 :
  State event ≠ STATE_CLOSED →
  watchConns w !! watchId = Some zk →
  conns w !! zk = Some conn →
  watchId = sessionWatchId conn →
  watchChannels conn !! watchId = Some ch →
  chans w !! ch = Some ch0 →
  closed ch0 = false →
  (chan_len ch0 < cap ch0)%nat →
  sendEvent watchId event w =
    Done tt (set_chans
               (λ l, <[ch := mkChan (cap ch0) (sent ch0 ++ [event]) (rcvd ch0) false]> l) w).
Proof.
  intros Hst Hreg Hzk Hid Hch Hch0 Hopen Hroom. unfold sendEvent.
  destruct (Z.eqb_spec (State event) STATE_CLOSED) as [|_]; [done|].
  munfold. rewrite Hreg. unfold get_conn. rewrite Hzk.
  unfold filtered. rewrite <- Hid, N.eqb_refl, andb_false_r. simpl.
  rewrite Hch. unfold get_chan. rewrite Hch0.
  unfold chan_try_send. rewrite Hopen.
  destruct (Nat.ltb_spec (chan_len ch0) (cap ch0)) as [_|?]; [|lia].
  done.
Qed.

(** The world after a delivery on any other watch: the entry is gone from
    both maps and the channel is closed behind the event. *)
Lemma sendEvent_oneshot watchId event w zk conn ch ch0 :
  State event ≠ STATE_CLOSED →
  watchConns w !! watchId = Some zk →
  conns w !! zk = Some conn →
  watchId ≠ sessionWatchId conn →
  filtered watchId event conn = false →
  watchChannels conn !! watchId = Some ch →
  chans w !! ch = Some ch0 →
  closed ch0 = false →
  (chan_len ch0 < cap ch0)%nat →
  sendEvent watchId event w =
    Done tt (mkWorld
               (<[zk := set_watchChannels (λ m, delete watchId m) conn]> (conns w))
               (<[ch := mkChan (cap ch0) (sent ch0 ++ [event]) (rcvd ch0) true]> (chans w))
               (delete watchId (watchConns w))
               (watchCounter w) (watchLoopCounter w) (watchLoops w)).
Proof.
  intros Hst Hreg Hzk Hid Hf Hch Hch0 Hopen Hroom. unfold sendEvent.
  destruct (Z.eqb_spec (State event) STATE_CLOSED) as [|_]; [done|].
  munfold. rewrite Hreg. unfold get_conn. rewrite Hzk, Hf, Hch.
  unfold get_chan. rewrite Hch0.
  unfold chan_try_send. rewrite Hopen.
  destruct (Nat.ltb_spec (chan_len ch0) (cap ch0)) as [_|?]; [|lia].
  destruct (N.eqb_spec watchId (sessionWatchId conn)) as [|_]; [done|].
  simpl. unfold update_conn, close_chan. munfold. unfold get_conn, get_chan. simpl.
  rewrite Hzk. simpl.
  rewrite list_lookup_insert_eq by (by eapply lookup_lt_Some).
  unfold chan_close, modify, set_chans, set_watchConns, set_conns. simpl.
  by rewrite list_insert_insert_eq.
Qed.

(** A full buffer makes the dispatcher panic. *)
Lemma sendEvent_full watchId event w zk conn ch ch0 :
  State event ≠ STATE_CLOSED →
  watchConns w !! watchId = Some zk →
  conns w !! zk = Some conn →
  filtered watchId event conn = false →
  watchChannels conn !! watchId = Some ch →
  chans w !! ch = Some ch0 →
  closed ch0 = false →
  (cap ch0 ≤ chan_len ch0)%nat →
  sendEvent watchId event w =
    Panic (if (watchId =? sessionWatchId conn)%N
           then "Session event channel buffer is full"
           else "Watch event channel buffer is full").
Proof.
  intros Hst Hreg Hzk Hf Hch Hch0 Hopen Hfull. unfold sendEvent.
  destruct (Z.eqb_spec (State event) STATE_CLOSED) as [|_]; [done|].
  munfold. rewrite Hreg. unfold get_conn. rewrite Hzk, Hf, Hch.
  unfold get_chan. rewrite Hch0.
  unfold chan_try_send. rewrite Hopen.
  destruct (Nat.ltb_spec (chan_len ch0) (cap ch0)) as [?|_]; [lia|].
  by destruct (watchId =? sessionWatchId conn)%N.
Qed.

Lemma sendEvent_closed_state watchId event w :
  State event = STATE_CLOSED →
  sendEvent watchId event w = Panic "Attempted to send a CLOSED event".
Proof. intros Hst. unfold sendEvent. by rewrite Hst. Qed.

(** Whatever [sendEvent] does, it returns only if the event is not a
    closed one, and then every channel either is untouched or has got
    exactly this event appended. *)
Lemma sendEvent_sent watchId event w w' :
  sendEvent watchId event w = Done tt w' →
  State event ≠ STATE_CLOSED ∧
  length (chans w') = length (chans w) ∧
  ∀ ch ch1, chans w' !! ch = Some ch1 →
    ∃ ch0, chans w !! ch = Some ch0 ∧ cap ch1 = cap ch0 ∧ rcvd ch1 = rcvd ch0 ∧
           (sent ch1 = sent ch0 ∨ sent ch1 = sent ch0 ++ [event]).
Proof.
  unfold sendEvent.
  destruct (Z.eqb_spec (State event) STATE_CLOSED) as [|Hst]; [done|].
  intros H. split; [done|]. revert H. munfold.
  assert (Hsame : ∀ w0 : World, length (chans w0) = length (chans w0) ∧
            ∀ ch ch1, chans w0 !! ch = Some ch1 →
            ∃ ch0, chans w0 !! ch = Some ch0 ∧ cap ch1 = cap ch0 ∧
                   rcvd ch1 = rcvd ch0 ∧
                   (sent ch1 = sent ch0 ∨ sent ch1 = sent ch0 ++ [event])).
  { intros w0. split; [done|]. intros ch ch1 ?. exists ch1. auto. }
  destruct (watchConns w !! watchId) as [zk|]; [|intros [= <-]; apply Hsame].
  unfold get_conn. destruct (conns w !! zk) as [conn|] eqn:Hzk; [|done].
  destruct (filtered watchId event conn); [intros [= <-]; apply Hsame|].
  destruct (watchChannels conn !! watchId) as [ch|]; [|intros [= <-]; apply Hsame].
  unfold get_chan. destruct (chans w !! ch) as [ch0|] eqn:Hch0; [|done].
  unfold chan_try_send. destruct (closed ch0) eqn:Hopen; [done|].
  destruct (chan_len ch0 <? cap ch0)%nat;
    [|by destruct (watchId =? sessionWatchId conn)%N].
  pose proof (lookup_lt_Some _ _ _ Hch0) as Hlt.
  destruct (watchId =? sessionWatchId conn)%N; simpl.
  - intros [= <-]. simpl. split; [by rewrite length_insert|].
    intros ch' ch1. destruct (decide (ch = ch')) as [<-|Hne].
    + rewrite list_lookup_insert_eq by done. intros [= <-].
      exists ch0. simpl. auto.
    + rewrite list_lookup_insert_ne by done. intros ?. exists ch1. auto.
  - unfold update_conn, close_chan. munfold. unfold get_conn, get_chan. simpl.
    rewrite Hzk. simpl. rewrite list_lookup_insert_eq by done.
    unfold chan_close, modify, set_chans, set_watchConns, set_conns. simpl.
    intros [= <-]. simpl. split; [by rewrite !length_insert|].
    intros ch' ch1. rewrite list_insert_insert_eq.
    destruct (decide (ch = ch')) as [<-|Hne].
    + rewrite list_lookup_insert_eq by done. intros [= <-].
      exists ch0. simpl. auto.
    + rewrite list_lookup_insert_ne by done. intros ?. exists ch1. auto.
Qed.

Example ex_watching_eval :
  watchConns ex_watching = {[0%N := 0%nat; 1%N := 0%nat]} ∧
  conns ex_watching = [mkConn {[0%N := 0%nat; 1%N := 1%nat]} 0 (Some 1%nat)] ∧
  chans ex_watching = [make_chan 32; make_chan 32] ∧
  watchCounter ex_watching = 2%N.
Proof. vm_compute. done. Qed.

(** ** Events *)

(** C10.  [Event.Ok] is true exactly when the state is [STATE_CONNECTED];
    the expired-session, auth-failed, connecting, associating and closed
    states (and with them the zeroed event read from a closed channel) all
    give false. *)
Theorem Ok_iff_connected :
  (∀ e : Event, Ok e = true ↔ State e = STATE_CONNECTED) ∧
  (∀ (ty : Z) (path : string),
     Ok (mkEvent ty path STATE_EXPIRED_SESSION) = false ∧
     Ok (mkEvent ty path STATE_AUTH_FAILED) = false ∧
     Ok (mkEvent ty path STATE_CONNECTING) = false ∧
     Ok (mkEvent ty path STATE_ASSOCIATING) = false ∧
     Ok (mkEvent ty path STATE_CLOSED) = false) ∧
  Ok zero_Event = false.
Proof.
  split; [|split].
  - intros e. unfold Ok. apply Z.eqb_eq.
  - intros ty path. by repeat split.
  - done.
Qed.

(** ** The dispatcher's filter *)

(** C4, as stated, fails for events whose state is [STATE_CLOSED]: for an
    identifier absent from the registry the event is not dropped silently,
    the dispatcher panics before it looks the identifier up. *)
Lemma sendEvent_absent_not_dropped :
  watchConns init_World !! 7%N = None ∧
  sendEvent 7 (mkEvent EVENT_SESSION "" STATE_CLOSED) init_World
    ≠ Done tt init_World.
Proof. split; [done|]. vm_compute. discriminate. Qed.

(** C4 (amended).  For an event whose state is not [STATE_CLOSED]: if the
    identifier is absent from the registry the event is dropped and the
    world is unchanged; a session event for a registered watch that is not
    its connection's session watch is dropped, world unchanged, unless its
    state is expired-session or auth-failed, so a world that changed means
    one of these two states; and in these two states the event is indeed
    appended to the watch's channel when that channel has room. *)
Theorem sendEvent_session_filter (watchId : N) (event : Event) (w : World) :
  State event ≠ STATE_CLOSED →
  (watchConns w !! watchId = None → sendEvent watchId event w = Done tt w) ∧
  (∀ zk conn,
     watchConns w !! watchId = Some zk →
     conns w !! zk = Some conn →
     Type_ event = EVENT_SESSION →
     watchId ≠ sessionWatchId conn →
     (State event ≠ STATE_EXPIRED_SESSION → State event ≠ STATE_AUTH_FAILED →
      sendEvent watchId event w = Done tt w) ∧
     (∀ w', sendEvent watchId event w = Done tt w' → w' ≠ w →
            State event = STATE_EXPIRED_SESSION ∨ State event = STATE_AUTH_FAILED) ∧
     (∀ ch ch0,
        State event = STATE_EXPIRED_SESSION ∨ State event = STATE_AUTH_FAILED →
        watchChannels conn !! watchId = Some ch →
        chans w !! ch = Some ch0 → closed ch0 = false →
        (chan_len ch0 < cap ch0)%nat →
        ∃ w' ch1, sendEvent watchId event w = Done tt w' ∧
                  chans w' !! ch = Some ch1 ∧ sent ch1 = sent ch0 ++ [event])).
Proof.
  intros Hst. split; [by apply sendEvent_absent|].
  intros zk conn Hreg Hzk Hty Hid.
  assert (Hdrop : State event ≠ STATE_EXPIRED_SESSION →
                  State event ≠ STATE_AUTH_FAILED →
                  sendEvent watchId event w = Done tt w).
  { intros H1 H2. eapply sendEvent_filtered; eauto.
    unfold filtered. rewrite Hty. simpl.
    destruct (N.eqb_spec watchId (sessionWatchId conn)) as [|_]; [done|].
    destruct (Z.eqb_spec (State event) STATE_EXPIRED_SESSION) as [|_]; [done|].
    by destruct (Z.eqb_spec (State event) STATE_AUTH_FAILED) as [|_]. }
  split; [done|split].
  - intros w' Hsend Hne.
    destruct (decide (State event = STATE_EXPIRED_SESSION)) as [|H1]; [by left|].
    destruct (decide (State event = STATE_AUTH_FAILED)) as [|H2]; [by right|].
    rewrite Hdrop in Hsend by done. by injection Hsend as <-.
  - intros ch ch0 Hcrit Hch Hch0 Hopen Hroom.
    eexists _, _. split; [|split].
    + eapply sendEvent_oneshot; eauto.
      unfold filtered.
      destruct Hcrit as [-> | ->]; simpl; by rewrite andb_false_r.
    + simpl. apply list_lookup_insert_eq. by eapply lookup_lt_Some.
    + done.
Qed.

(** C4 on a concrete registry: a "connecting" session event for the
    one-shot watch 1 of [ex_watching] leaves the world as it is. *)
Lemma sendEvent_session_filter_witness :
  sendEvent 1 (mkEvent EVENT_SESSION "" STATE_CONNECTING) ex_watching
    = Done tt ex_watching.
Proof.
  pose (ev := mkEvent EVENT_SESSION "" STATE_CONNECTING).
  assert (Hst : State ev ≠ STATE_CLOSED) by (vm_compute; discriminate).
  destruct (sendEvent_session_filter 1 ev ex_watching Hst) as [_ H].
  destruct (H 0%nat (mkConn {[0%N := 0%nat; 1%N := 1%nat]} 0 (Some 1%nat)))
    as [Hdrop _].
  - vm_compute. reflexivity.
  - vm_compute. reflexivity.
  - reflexivity.
  - vm_compute. discriminate.
  - apply Hdrop; vm_compute; discriminate.
Defined.

(** ** Registry primitives, as equations *)

Lemma createWatch_eq zk session w conn :
  conns w !! zk = Some conn →
  createWatch zk session w =
    Done (watchCounter w, length (chans w))
      (mkWorld
         (<[zk := set_watchChannels
                    (λ m, <[watchCounter w := length (chans w)]> m) conn]> (conns w))
         (chans w ++ [make_chan (if session then 32 else 1)%nat])
         (<[watchCounter w := zk]> (watchConns w))
         (uintptr_wrap (watchCounter w + 1))
         (watchLoopCounter w) (watchLoops w)).
Proof.
  intros Hzk. unfold createWatch, new_chan, update_conn. munfold.
  unfold get_conn. simpl. by rewrite Hzk.
Qed.

Lemma createWatch_nil zk session w :
  conns w !! zk = None →
  createWatch zk session w = Panic "nil pointer dereference".
Proof.
  intros Hzk. unfold createWatch, new_chan, update_conn. munfold.
  unfold get_conn. simpl. by rewrite Hzk.
Qed.

Lemma forgetWatch_eq zk watchId w conn :
  conns w !! zk = Some conn →
  forgetWatch zk watchId w =
    Done tt
      (mkWorld
         (<[zk := set_watchChannels (λ m, delete watchId m) conn]> (conns w))
         (chans w) (delete watchId (watchConns w))
         (watchCounter w) (watchLoopCounter w) (watchLoops w)).
Proof.
  intros Hzk. unfold forgetWatch, update_conn. munfold.
  unfold get_conn. by rewrite Hzk.
Qed.

Lemma createWatch_created zk session w conn :
  conns w !! zk = Some conn →
  createWatch zk session w =
    Done (watchCounter w, length (chans w)) (created zk session conn w).
Proof. apply createWatch_eq. Qed.

Lemma created_conn zk session w conn :
  conns w !! zk = Some conn →
  conns (created zk session conn w) !! zk =
    Some (set_watchChannels (λ m, <[watchCounter w := length (chans w)]> m) conn).
Proof.
  intros Hzk. simpl. apply list_lookup_insert_eq. by eapply lookup_lt_Some.
Qed.

(** Forgetting a watch registered under a fresh identifier restores both
    registry maps. *)
Lemma forget_created zk session w conn :
  conns w !! zk = Some conn →
  watchConns w !! watchCounter w = None →
  watchChannels conn !! watchCounter w = None →
  forgetWatch zk (watchCounter w) (created zk session conn w) =
    Done tt (forgotten session w).
Proof.
  intros Hzk Hreg Hown.
  rewrite (forgetWatch_eq _ _ _ _ (created_conn _ session _ _ Hzk)).
  unfold forgotten. simpl. f_equal. f_equal.
  - rewrite list_insert_insert_eq. apply list_insert_id.
    rewrite Hzk. f_equal. destruct conn as [m sid h]. unfold set_watchChannels.
    simpl in *. f_equal. by rewrite delete_insert_id.
  - by apply delete_insert_id.
Qed.

(** ** The facade, as equations on the library's replies *)

Section FacadeFacts.
Context {R : Type} `{!Runtime R}.

Lemma zkError_nonzero rc cerr : rc ≠ ZOK → zkError rc cerr ≠ None.
Proof.
  intros Hrc. unfold zkError.
  destruct (Z.eqb_spec rc ZOK) as [|_]; [done|].
  destruct (rc =? ZSYSTEMERROR); [by destruct cerr|done].
Qed.

Lemma Get_eq zk path w (r : R) conn rc cerr data reply r' :
  conns w !! zk = Some conn →
  zoo_wget (handle conn) path None r = ((rc, cerr, data, reply), r') →
  Get zk path w r =
    Done (if rc =? ZOK then (data, Some (mkStat reply), None)
          else (""%string, None, zkError rc cerr), r') w.
Proof.
  intros Hzk Hcall. unfold Get. munfold. unfold get_conn. rewrite Hzk, Hcall.
  by destruct (rc =? ZOK).
Qed.

Lemma Exists_eq zk path w (r : R) conn rc cerr reply r' :
  conns w !! zk = Some conn →
  zoo_wexists (handle conn) path None r = ((rc, cerr, reply), r') →
  Exists zk path w r =
    Done (if rc =? ZOK then (Some zero_Stat, None)
          else if rc =? ZNONODE then (None, None)
          else (None, zkError rc cerr), r') w.
Proof.
  intros Hzk Hcall. unfold Exists. munfold. unfold get_conn. rewrite Hzk, Hcall.
  destruct (rc =? ZOK); [done|]. by destruct (rc =? ZNONODE).
Qed.

Lemma Create_eq zk path value flags aclv w (r : R) conn rc cerr created r' :
  conns w !! zk = Some conn →
  zoo_create (handle conn) path value aclv (C_int flags) r = ((rc, cerr, created), r') →
  Create zk path value flags aclv w r =
    Done (if rc =? ZOK then (created, None)
          else (""%string, zkError rc cerr), r') w.
Proof.
  intros Hzk Hcall. unfold Create. munfold. unfold get_conn. rewrite Hzk, Hcall.
  by destruct (rc =? ZOK).
Qed.

Lemma Set_eq zk path value version w (r : R) conn rc cerr reply r' :
  conns w !! zk = Some conn →
  zoo_set2 (handle conn) path value version r = ((rc, cerr, reply), r') →
  Set_ zk path value version w r =
    Done (if rc =? ZOK then (Some (mkStat reply), None)
          else (None, zkError rc cerr), r') w.
Proof.
  intros Hzk Hcall. unfold Set_. munfold. unfold get_conn. rewrite Hzk, Hcall.
  by destruct (rc =? ZOK).
Qed.

Lemma GetW_eq zk path w (r : R) conn rc cerr data reply r' :
  conns w !! zk = Some conn →
  zoo_wget (handle conn) path (Some (watchCounter w)) r = ((rc, cerr, data, reply), r') →
  GetW zk path w r =
    if rc =? ZOK
    then Done (data, Some (mkStat reply), Some (length (chans w)), None, r')
           (created zk true conn w)
    else match forgetWatch zk (watchCounter w) (created zk true conn w) with
         | Done _ w' => Done (""%string, None, None, zkError rc cerr, r') w'
         | Panic msg => Panic msg
         end.
Proof.
  intros Hzk Hcall. unfold GetW. munfold.
  rewrite (createWatch_created _ _ _ _ Hzk).
  unfold get_conn. rewrite (created_conn _ _ _ _ Hzk). simpl.
  rewrite Hcall. destruct (rc =? ZOK); simpl; [done|].
  by destruct (forgetWatch zk (watchCounter w) (created zk true conn w)).
Qed.

Lemma ChildrenW_eq zk path w (r : R) conn rc cerr names reply r' :
  conns w !! zk = Some conn →
  zoo_wget_children2 (handle conn) path (Some (watchCounter w)) r
    = ((rc, cerr, names, reply), r') →
  ChildrenW zk path w r =
    let children := if (length names =? 0)%nat then [] else names in
    if rc =? ZOK
    then Done (children, Some (mkStat reply), Some (length (chans w)), None, r')
           (created zk true conn w)
    else match forgetWatch zk (watchCounter w) (created zk true conn w) with
         | Done _ w' => Done (children, None, None, zkError rc cerr, r') w'
         | Panic msg => Panic msg
         end.
Proof.
  intros Hzk Hcall. unfold ChildrenW. munfold.
  rewrite (createWatch_created _ _ _ _ Hzk).
  unfold get_conn. rewrite (created_conn _ _ _ _ Hzk). simpl.
  rewrite Hcall. simpl. destruct (rc =? ZOK); simpl; [done|].
  by destruct (forgetWatch zk (watchCounter w) (created zk true conn w)).
Qed.

Lemma ExistsW_eq zk path w (r : R) conn rc cerr reply r' :
  conns w !! zk = Some conn →
  zoo_wexists (handle conn) path (Some (watchCounter w)) r = ((rc, cerr, reply), r') →
  ExistsW zk path w r =
    if rc =? ZOK
    then Done (Some (mkStat reply), Some (length (chans w)), None, r')
           (created zk true conn w)
    else if rc =? ZNONODE
    then Done (None, Some (length (chans w)), None, r') (created zk true conn w)
    else match forgetWatch zk (watchCounter w) (created zk true conn w) with
         | Done _ w' => Done (None, None, zkError rc cerr, r') w'
         | Panic msg => Panic msg
         end.
Proof.
  intros Hzk Hcall. unfold ExistsW. munfold.
  rewrite (createWatch_created _ _ _ _ Hzk).
  unfold get_conn. rewrite (created_conn _ _ _ _ Hzk). simpl.
  rewrite Hcall. destruct (rc =? ZOK); [done|].
  destruct (rc =? ZNONODE); [done|].
  by destruct (forgetWatch zk (watchCounter w) (created zk true conn w)).
Qed.
End FacadeFacts.

(** ** RetryChange *)

Section RetryChangeFacts.
Context {R : Type} `{!Runtime R}.

Lemma err_is_true code err : err_is code err = true ↔ err = Some (ErrCode code).
Proof.
  destruct err as [[c0| |]|]; simpl; try (split; [discriminate|congruence]).
  rewrite Z.eqb_eq. split; congruence.
Qed.

(** One round of the loop when the node exists and the new value
    differs: [Set] is called with the version of the stat just read, and
    the round ends as the status of that call says. *)
Lemma RetryChange_set_round fuel zk path flags acl (changeFunc : ChangeFunc)
    w (r : R) conn cerr0 oldValue reply r1 newValue rc cerr reply2 r2 :
  conns w !! zk = Some conn →
  zoo_wget (handle conn) path None r = ((ZOK, cerr0, oldValue, reply), r1) →
  changeFunc oldValue (Some (mkStat reply)) = (newValue, None) →
  newValue ≠ oldValue →
  zoo_set2 (handle conn) path newValue (version reply) r1 = ((rc, cerr, reply2), r2) →
  RetryChange (S fuel) zk path flags acl changeFunc w r =
    if rc =? ZOK then Done (Returned None, r2) w
    else if err_is ZBADVERSION (zkError rc cerr) || err_is ZNONODE (zkError rc cerr)
         then RetryChange fuel zk path flags acl changeFunc w r2
         else Done (Returned None, r2) w.
Proof.
  intros Hzk Hget Hf Hne Hset. cbn [RetryChange].
  unfold mbind at 1. unfold MR_bind.
  rewrite (Get_eq _ _ _ _ _ _ _ _ _ _ Hzk Hget). simpl.
  rewrite Hf. simpl.
  apply String.eqb_neq in Hne. rewrite Hne.
  unfold mbind at 1. unfold MR_bind. unfold Version. simpl.
  rewrite (Set_eq _ _ _ _ _ _ _ _ _ _ _ Hzk Hset).
  destruct (Z.eqb_spec rc ZOK) as [|Hrc]; simpl; [done|].
  pose proof (zkError_nonzero rc cerr Hrc) as Herr.
  destruct (zkError rc cerr) as [e|]; [|done]. simpl.
  destruct e as [c0| |]; try done. by destruct (c0 =? ZBADVERSION), (c0 =? ZNONODE).
Qed.

(** C1 (the code departs from the claim).  When the node existed, the new
    value differs and the version-checked [Set] fails with an error that
    is neither bad-version nor no-such-node, [RetryChange] stops, but it
    returns nil, not that error. *)
Theorem RetryChange_set_error_lost fuel zk path flags acl (changeFunc : ChangeFunc)
    w (r : R) conn cerr0 oldValue reply r1 newValue rc cerr reply2 r2 :
  conns w !! zk = Some conn →
  zoo_wget (handle conn) path None r = ((ZOK, cerr0, oldValue, reply), r1) →
  changeFunc oldValue (Some (mkStat reply)) = (newValue, None) →
  newValue ≠ oldValue →
  zoo_set2 (handle conn) path newValue (version reply) r1 = ((rc, cerr, reply2), r2) →
  rc ≠ ZOK →
  zkError rc cerr ≠ Some (ErrCode ZBADVERSION) →
  zkError rc cerr ≠ Some (ErrCode ZNONODE) →
  zkError rc cerr ≠ None ∧
  RetryChange (S fuel) zk path flags acl changeFunc w r = Done (Returned None, r2) w.
Proof.
  intros Hzk Hget Hf Hne Hset Hrc Hbv Hnn. split; [by apply zkError_nonzero|].
  rewrite (RetryChange_set_round _ _ _ _ _ _ _ _ _ _ _ _ _ _ _ _ _ _
             Hzk Hget Hf Hne Hset).
  destruct (Z.eqb_spec rc ZOK) as [|_]; [done|].
  destruct (err_is ZBADVERSION (zkError rc cerr)) eqn:H1;
    [by apply err_is_true in H1|].
  destruct (err_is ZNONODE (zkError rc cerr)) eqn:H2;
    [by apply err_is_true in H2|].
  done.
Qed.

(** The two retryable failures of [Set] do restart the loop, and a
    successful [Set] returns nil. *)
Lemma RetryChange_set_retry fuel zk path flags acl (changeFunc : ChangeFunc)
    w (r : R) conn cerr0 oldValue reply r1 newValue rc cerr reply2 r2 :
  conns w !! zk = Some conn →
  zoo_wget (handle conn) path None r = ((ZOK, cerr0, oldValue, reply), r1) →
  changeFunc oldValue (Some (mkStat reply)) = (newValue, None) →
  newValue ≠ oldValue →
  zoo_set2 (handle conn) path newValue (version reply) r1 = ((rc, cerr, reply2), r2) →
  (rc = ZOK →
   RetryChange (S fuel) zk path flags acl changeFunc w r = Done (Returned None, r2) w) ∧
  (rc = ZBADVERSION ∨ rc = ZNONODE →
   RetryChange (S fuel) zk path flags acl changeFunc w r
     = RetryChange fuel zk path flags acl changeFunc w r2).
Proof.
  intros Hzk Hget Hf Hne Hset.
  rewrite (RetryChange_set_round _ _ _ _ _ _ _ _ _ _ _ _ _ _ _ _ _ _
             Hzk Hget Hf Hne Hset).
  split; [by intros ->|]. by intros [-> | ->].
Qed.
End RetryChangeFacts.

(** C1 on a concrete run: the node holds "one" at version 5, the change
    function asks for "two", and [Set] is refused with [ZNOAUTH].  The log
    shows [Set] called with version 5, and the result is nil. *)
Lemma RetryChange_set_error_lost_witness :
  RetryChange 1 0 "/test" 0 [] (λ _ _, ("two"%string, None)) ex_dialed
    (Script.mk [Script.RGet ZOK None "one" ex_stat;
                Script.RSet ZNOAUTH None zero_C_Stat] [])
  = Done (Returned None,
          Script.mk [] [Script.CGet (Some 1%nat) "/test" None;
                        Script.CSet (Some 1%nat) "/test" "two" 5])
         ex_dialed.
Proof.
  refine (proj2 (RetryChange_set_error_lost 0 0 "/test" 0 [] _ ex_dialed _
                   (mkConn {[0%N := 0%nat]} 0 (Some 1%nat)) None "one" ex_stat
                   _ "two" ZNOAUTH None zero_C_Stat _ _ _ _ _ _ _ _ _)).
  - vm_compute. reflexivity.
  - reflexivity.
  - reflexivity.
  - discriminate.
  - reflexivity.
  - vm_compute. discriminate.
  - vm_compute. discriminate.
  - vm_compute. discriminate.
Defined.

(** ** Exists and Get on absent and present nodes *)

Section ExistsFacts.
Context {R : Type} `{!Runtime R}.

(** What holds of the claim: on an absent node [Exists] returns a nil
    stat and a nil error, and [Get] returns the no-such-node error. *)
Lemma Exists_Get_absent zk path w (r : R) conn cerr reply data r' :
  conns w !! zk = Some conn →
  (zoo_wexists (handle conn) path None r = ((ZNONODE, cerr, reply), r') →
   Exists zk path w r = Done ((None, None), r') w) ∧
  (zoo_wget (handle conn) path None r = ((ZNONODE, cerr, data, reply), r') →
   Get zk path w r = Done ((""%string, None, Some (ErrCode ZNONODE)), r') w).
Proof.
  intros Hzk. split; intros Hcall.
  - by rewrite (Exists_eq _ _ _ _ _ _ _ _ _ Hzk Hcall).
  - by rewrite (Get_eq _ _ _ _ _ _ _ _ _ _ Hzk Hcall).
Qed.

(** C2 (the code departs from the claim).  On an existing node [Exists]
    returns a non-nil stat, but it is the zeroed one whatever the stat of
    the node is: the reply of the library never reaches it. *)
Theorem Exists_stat_not_filled zk path w (r : R) conn cerr reply r' :
  conns w !! zk = Some conn →
  zoo_wexists (handle conn) path None r = ((ZOK, cerr, reply), r') →
  Exists zk path w r = Done ((Some zero_Stat, None), r') w.
Proof.
  intros Hzk Hcall. by rewrite (Exists_eq _ _ _ _ _ _ _ _ _ Hzk Hcall).
Qed.
End ExistsFacts.

(** C2 on a concrete run: the node has version 5 and one child; the stat
    [Exists] returns has version 0 and no child, while [ExistsW] on the
    same reply returns the node's stat. *)
Lemma Exists_stat_not_filled_witness :
  Exists 0 "/zookeeper" ex_dialed (Script.mk [Script.RExists ZOK None ex_stat] [])
    = Done ((Some zero_Stat, None),
            Script.mk [] [Script.CExists (Some 1%nat) "/zookeeper" None])
        ex_dialed
  ∧ zero_Stat ≠ mkStat ex_stat
  ∧ ∃ w', ExistsW 0 "/zookeeper" ex_dialed
            (Script.mk [Script.RExists ZOK None ex_stat] [])
          = Done ((Some (mkStat ex_stat), Some 1%nat, None),
                  Script.mk [] [Script.CExists (Some 1%nat) "/zookeeper" (Some 1%N)])
              w'.
Proof.
  split; [|split].
  - apply (Exists_stat_not_filled 0 "/zookeeper" ex_dialed _
             (mkConn {[0%N := 0%nat]} 0 (Some 1%nat)) None ex_stat).
    + vm_compute. reflexivity.
    + reflexivity.
  - discriminate.
  - eexists. vm_compute. reflexivity.
Defined.

(** ** Capacity of the watch channels *)

Lemma createWatch_capacity zk session w watchId ch w' :
  createWatch zk session w = Done (watchId, ch) w' →
  chans w' !! ch = Some (make_chan (if session then 32 else 1)%nat).
Proof.
  destruct (conns w !! zk) as [conn|] eqn:Hzk.
  - rewrite (createWatch_eq _ _ _ _ Hzk). intros [= <- <- <-]. simpl.
    by apply list_lookup_middle.
  - by rewrite (createWatch_nil _ _ _ Hzk).
Qed.

Section CapacityFacts.
Context {R : Type} `{!Runtime R}.

Lemma created_chan zk session conn w :
  chans (created zk session conn w) !! length (chans w)
    = Some (make_chan (if session then 32 else 1)%nat).
Proof. simpl. by apply list_lookup_middle. Qed.

(** C3 (the code departs from the claim).  The channel a watch-installing
    operation returns is created by [createWatch true], like the session
    channel, and has capacity 32, not 1. *)
Theorem watch_channel_capacity_32 zk path w (r : R) :
  (∀ data stat ch err r' w',
     GetW zk path w r = Done (data, stat, Some ch, err, r') w' →
     chans w' !! ch = Some (make_chan 32)) ∧
  (∀ children stat ch err r' w',
     ChildrenW zk path w r = Done (children, stat, Some ch, err, r') w' →
     chans w' !! ch = Some (make_chan 32)) ∧
  (∀ stat ch err r' w',
     ExistsW zk path w r = Done (stat, Some ch, err, r') w' →
     chans w' !! ch = Some (make_chan 32)).
Proof.
  destruct (conns w !! zk) as [conn|] eqn:Hzk.
  - pose proof (created_chan zk true conn w) as Hcap.
    split; [|split].
    + intros data stat ch err r' w'.
      destruct (zoo_wget (handle conn) path (Some (watchCounter w)) r)
        as [[[[rc cerr] data0] reply] r0] eqn:Hcall.
      rewrite (GetW_eq _ _ _ _ _ _ _ _ _ _ Hzk Hcall).
      destruct (rc =? ZOK); [by intros [= _ _ <- _ _ <-]|].
      by destruct (forgetWatch _ _ _).
    + intros children stat ch err r' w'.
      destruct (zoo_wget_children2 (handle conn) path (Some (watchCounter w)) r)
        as [[[[rc cerr] names] reply] r0] eqn:Hcall.
      rewrite (ChildrenW_eq _ _ _ _ _ _ _ _ _ _ Hzk Hcall). simpl.
      destruct (rc =? ZOK); [by intros [= _ _ <- _ _ <-]|].
      by destruct (forgetWatch _ _ _).
    + intros stat ch err r' w'.
      destruct (zoo_wexists (handle conn) path (Some (watchCounter w)) r)
        as [[[rc cerr] reply] r0] eqn:Hcall.
      rewrite (ExistsW_eq _ _ _ _ _ _ _ _ _ Hzk Hcall).
      destruct (rc =? ZOK); [by intros [= _ <- _ _ <-]|].
      destruct (rc =? ZNONODE); [by intros [= _ <- _ _ <-]|].
      by destruct (forgetWatch _ _ _).
  - pose proof (createWatch_nil zk true w Hzk) as Hnil.
    unfold GetW, ChildrenW, ExistsW. munfold. rewrite Hnil.
    by repeat split.
Qed.
End CapacityFacts.

(** C3 on a concrete run: the one-shot channel [GetW] returned in
    [ex_watching] has capacity 32. *)
Lemma watch_channel_capacity_32_witness :
  ∃ ch, GetW 0 "/test" ex_dialed (Script.mk [Script.RGet ZOK None "one" ex_stat] [])
        = Done ("one"%string, Some (mkStat ex_stat), Some ch, None,
                Script.mk [] [Script.CGet (Some 1%nat) "/test" (Some 1%N)])
            ex_watching
        ∧ cap <$> chans ex_watching !! ch = Some 32%nat.
Proof.
  exists 1%nat.
  assert (Hrun : GetW 0 "/test" ex_dialed
                   (Script.mk [Script.RGet ZOK None "one" ex_stat] [])
                 = Done ("one"%string, Some (mkStat ex_stat), Some 1%nat, None,
                         Script.mk [] [Script.CGet (Some 1%nat) "/test" (Some 1%N)])
                     ex_watching) by (vm_compute; reflexivity).
  split; [exact Hrun|].
  destruct (watch_channel_capacity_32 0 "/test" ex_dialed
              (Script.mk [Script.RGet ZOK None "one" ex_stat] [])) as [H _].
  by rewrite (H _ _ _ _ _ _ Hrun).
Defined.

(** ** Inverting computations *)

Lemma bind_Done {A B} (m : M A) (f : A → M B) w b w' :
  (x ← m; f x) w = Done b w' ↔ ∃ a w1, m w = Done a w1 ∧ f a w1 = Done b w'.
Proof.
  unfold mbind, M_bind. split.
  - destruct (m w) as [a w1|]; [eauto|done].
  - by intros (a & w1 & -> & ?).
Qed.

Lemma bindR_Done {R A B} (m : MR R A) (f : A → MR R B) w r b w' :
  (x ← m; f x) w r = Done b w'
  ↔ ∃ a r1 w1, m w r = Done (a, r1) w1 ∧ f a w1 r1 = Done b w'.
Proof.
  unfold mbind, MR_bind. split.
  - destruct (m w r) as [[a r1] w1|]; [eauto|done].
  - by intros (a & r1 & w1 & -> & ?).
Qed.

Lemma liftW_Done {R A} (m : M A) w (r : R) a r' w' :
  liftW m w r = Done (a, r') w' ↔ m w = Done a w' ∧ r' = r.
Proof.
  unfold liftW. destruct (m w) as [a0 w0|]; split.
  - by intros [= -> -> ->].
  - by intros [[= -> ->] ->].
  - done.
  - by intros [? _].
Qed.

Lemma native_Done {R A} (f : R → A * R) w r a r' w' :
  native f w r = Done (a, r') w' ↔ f r = (a, r') ∧ w' = w.
Proof.
  unfold native. destruct (f r) as [a0 r0]. split.
  - by intros [= -> -> ->].
  - by intros [[= -> ->] ->].
Qed.

Lemma get_conn_Done zk w conn w' :
  get_conn zk w = Done conn w' ↔ conns w !! zk = Some conn ∧ w' = w.
Proof.
  unfold get_conn. destruct (conns w !! zk) as [conn0|]; split.
  - by intros [= -> ->].
  - by intros [[= ->] ->].
  - done.
  - by intros [? _].
Qed.

Lemma get_chan_Done ch w ch0 w' :
  get_chan ch w = Done ch0 w' ↔ chans w !! ch = Some ch0 ∧ w' = w.
Proof.
  unfold get_chan. destruct (chans w !! ch) as [ch1|]; split.
  - by intros [= -> ->].
  - by intros [[= ->] ->].
  - done.
  - by intros [? _].
Qed.

Lemma update_conn_Done zk f w w' :
  update_conn zk f w = Done tt w'
  ↔ ∃ conn, conns w !! zk = Some conn ∧ w' = set_conns (λ l, <[zk := f conn]> l) w.
Proof.
  unfold update_conn. rewrite bind_Done. split.
  - intros (conn & w1 & [? ->]%get_conn_Done & [= <-]). eauto.
  - intros (conn & ? & ->). exists conn, w. by rewrite get_conn_Done.
Qed.

Lemma close_chan_Done ch w w' :
  close_chan ch w = Done tt w'
  ↔ ∃ ch0, chans w !! ch = Some ch0 ∧ closed ch0 = false ∧
           w' = set_chans (λ l, <[ch := mkChan (cap ch0) (sent ch0) (rcvd ch0) true]> l) w.
Proof.
  unfold close_chan. rewrite bind_Done. split.
  - intros (ch0 & w1 & [? ->]%get_chan_Done & Hclose). exists ch0.
    unfold chan_close in Hclose. destruct (closed ch0); [done|].
    by injection Hclose as <-.
  - intros (ch0 & ? & Hopen & ->). exists ch0, w. rewrite get_chan_Done.
    split; [done|]. unfold chan_close. by rewrite Hopen.
Qed.

(** ** Identifier allocation *)

Lemma modify_Done f w w' : modify f w = Done tt w' ↔ w' = f w.
Proof. unfold modify. split; [by intros [= <-]|by intros ->]. Qed.

Lemma createWatch_Done zk session w watchId ch w' :
  createWatch zk session w = Done (watchId, ch) w' →
  watchId = watchCounter w ∧ ch = length (chans w) ∧
  watchCounter w' = uintptr_wrap (watchCounter w + 1) ∧
  ∃ conn, conns w !! zk = Some conn ∧ w' = created zk session conn w.
Proof.
  destruct (conns w !! zk) as [conn|] eqn:Hzk.
  - rewrite (createWatch_eq _ _ _ _ Hzk). intros [= <- <- <-]. eauto 10.
  - by rewrite (createWatch_nil _ _ _ Hzk).
Qed.

Lemma forgetWatch_counter zk watchId w w' :
  forgetWatch zk watchId w = Done tt w' → watchCounter w' = watchCounter w.
Proof.
  unfold forgetWatch. rewrite bind_Done.
  intros ([] & w1 & (conn & _ & ->)%update_conn_Done & ->%modify_Done). done.
Qed.

Lemma close_watches_counter zk l w w' :
  close_watches zk l w = Done tt w' → watchCounter w' = watchCounter w.
Proof.
  revert w. induction l as [|[watchId ch] l IH]; intros w; simpl.
  - by intros [= <-].
  - rewrite bind_Done.
    intros ([] & w1 & (ch0 & _ & _ & ->)%close_chan_Done & H).
    apply bind_Done in H as ([] & w2 & (conn & _ & ->)%update_conn_Done & H).
    apply bind_Done in H as ([] & w3 & ->%modify_Done & H).
    by rewrite (IH _ H).
Qed.

Lemma closeAllWatches_counter zk w w' :
  closeAllWatches zk w = Done tt w' → watchCounter w' = watchCounter w.
Proof.
  unfold closeAllWatches. rewrite bind_Done.
  intros (conn & w1 & [_ ->]%get_conn_Done & H).
  by apply close_watches_counter in H.
Qed.

(** The three worlds [sendEvent] can return into: the one it started in
    (event dropped), the one after a delivery on a session watch, and the
    one after a delivery on a one-shot watch. *)
Lemma sendEvent_Done watchId event w w' :
  sendEvent watchId event w = Done tt w' →
  State event ≠ STATE_CLOSED ∧
  (w' = w ∨
   ∃ zk conn ch ch0,
     watchConns w !! watchId = Some zk ∧ conns w !! zk = Some conn ∧
     filtered watchId event conn = false ∧
     watchChannels conn !! watchId = Some ch ∧ chans w !! ch = Some ch0 ∧
     closed ch0 = false ∧ (chan_len ch0 < cap ch0)%nat ∧
     ((watchId = sessionWatchId conn ∧
       w' = set_chans
              (λ l, <[ch := mkChan (cap ch0) (sent ch0 ++ [event]) (rcvd ch0) false]> l) w)
      ∨ (watchId ≠ sessionWatchId conn ∧
         w' = mkWorld
                (<[zk := set_watchChannels (λ m, delete watchId m) conn]> (conns w))
                (<[ch := mkChan (cap ch0) (sent ch0 ++ [event]) (rcvd ch0) true]> (chans w))
                (delete watchId (watchConns w))
                (watchCounter w) (watchLoopCounter w) (watchLoops w)))).
Proof.
  intros Hsend.
  destruct (decide (State event = STATE_CLOSED)) as [Hst|Hst];
    [by rewrite (sendEvent_closed_state _ _ _ Hst) in Hsend|].
  split; [done|].
  destruct (watchConns w !! watchId) as [zk|] eqn:Hreg; last first.
  { rewrite (sendEvent_absent _ _ _ Hst Hreg) in Hsend. left. congruence. }
  destruct (conns w !! zk) as [conn|] eqn:Hzk; last first.
  { revert Hsend. unfold sendEvent.
    destruct (Z.eqb_spec (State event) STATE_CLOSED) as [|_]; [done|].
    munfold. rewrite Hreg. unfold get_conn. by rewrite Hzk. }
  destruct (filtered watchId event conn) eqn:Hf.
  { rewrite (sendEvent_filtered _ _ _ _ _ Hst Hreg Hzk Hf) in Hsend.
    left. congruence. }
  destruct (watchChannels conn !! watchId) as [ch|] eqn:Hch; last first.
  { revert Hsend. unfold sendEvent.
    destruct (Z.eqb_spec (State event) STATE_CLOSED) as [|_]; [done|].
    munfold. rewrite Hreg. unfold get_conn. rewrite Hzk, Hf, Hch.
    intros [= <-]. by left. }
  destruct (chans w !! ch) as [ch0|] eqn:Hch0; last first.
  { revert Hsend. unfold sendEvent.
    destruct (Z.eqb_spec (State event) STATE_CLOSED) as [|_]; [done|].
    munfold. rewrite Hreg. unfold get_conn. rewrite Hzk, Hf, Hch.
    unfold get_chan. by rewrite Hch0. }
  destruct (closed ch0) eqn:Hopen.
  { revert Hsend. unfold sendEvent.
    destruct (Z.eqb_spec (State event) STATE_CLOSED) as [|_]; [done|].
    munfold. rewrite Hreg. unfold get_conn. rewrite Hzk, Hf, Hch.
    unfold get_chan. rewrite Hch0. unfold chan_try_send. by rewrite Hopen. }
  destruct (Nat.ltb_spec (chan_len ch0) (cap ch0)) as [Hroom|Hfull]; last first.
  { by rewrite (sendEvent_full _ _ _ _ _ _ _ Hst Hreg Hzk Hf Hch Hch0 Hopen Hfull)
      in Hsend. }
  right. exists zk, conn, ch, ch0. repeat (split; [done|]).
  destruct (decide (watchId = sessionWatchId conn)) as [Hid|Hid].
  - left. split; [done|].
    rewrite (sendEvent_session _ _ _ _ _ _ _ Hst Hreg Hzk Hid Hch Hch0 Hopen Hroom)
      in Hsend. congruence.
  - right. split; [done|].
    rewrite (sendEvent_oneshot _ _ _ _ _ _ _ Hst Hreg Hzk Hid Hf Hch Hch0 Hopen Hroom)
      in Hsend. congruence.
Qed.

Lemma sendEvent_counter watchId event w w' :
  sendEvent watchId event w = Done tt w' → watchCounter w' = watchCounter w.
Proof.
  intros [_ [->|(zk & conn & ch & ch0 & _ & _ & _ & _ & _ & _ & _ & H)]]%sendEvent_Done;
    [done|].
  by destruct H as [[_ ->]|[_ ->]].
Qed.

Lemma uintptr_wrap_small n : (n < uintptr_modulus)%N → uintptr_wrap n = n.
Proof. intros. unfold uintptr_wrap. by apply N.mod_small. Qed.

(** The identifiers handed out along a run are the successive values of
    the counter, as long as it does not wrap. *)
Lemma run_ops_ids ops : ∀ w ids w',
  run_ops ops w = Done ids w' →
  (watchCounter w < uintptr_modulus)%N →
  (watchCounter w + N.of_nat (length ids) ≤ uintptr_modulus)%N →
  ids = (λ i, (watchCounter w + N.of_nat i)%N) <$> seq 0 (length ids) ∧
  watchCounter w' = uintptr_wrap (watchCounter w + N.of_nat (length ids)).
Proof.
  induction ops as [|op ops IH]; intros w ids w'.
  - intros [= <- <-] Hlt Hle. simpl in *. split; [done|].
    rewrite N.add_0_r. symmetry. by apply uintptr_wrap_small.
  - destruct op as [zk session|zk watchId|zk|watchId event]; simpl;
      rewrite bind_Done.
    + intros ([id ch] & w1 & Hc & H) Hlt Hle.
      apply bind_Done in H as (ids' & w2 & Hrun & [= <- <-]).
      apply createWatch_Done in Hc as (-> & _ & Hcnt & _).
      simpl in Hle.
      assert (Hlt1 : (watchCounter w1 < uintptr_modulus)%N).
      { rewrite Hcnt. unfold uintptr_wrap. by apply N.mod_lt. }
      destruct ids' as [|id' ids'].
      * destruct (IH _ _ _ Hrun Hlt1) as [_ Hcnt']; [simpl; lia|].
        simpl in *. split; [by rewrite N.add_0_r|].
        rewrite Hcnt', N.add_0_r, uintptr_wrap_small by done. by rewrite Hcnt.
      * assert (Hsmall : uintptr_wrap (watchCounter w + 1) = (watchCounter w + 1)%N)
          by (apply uintptr_wrap_small; simpl in Hle; lia).
        rewrite Hsmall in Hcnt.
        destruct (IH _ _ _ Hrun Hlt1) as [Hids Hcnt']; [rewrite Hcnt; lia|].
        split.
        -- change (length (watchCounter w :: id' :: ids'))
             with (S (length (id' :: ids'))).
           cbn [seq fmap list_fmap]. rewrite N.add_0_r. f_equal.
           rewrite Hids at 1.
           rewrite <- fmap_S_seq, <- list_fmap_compose. apply list_fmap_ext.
           intros i x _. simpl. rewrite Hcnt. lia.
        -- rewrite Hcnt', Hcnt. f_equal.
           change (length (watchCounter w :: id' :: ids'))
             with (S (length (id' :: ids'))). lia.
    + intros ([] & w1 & Hc%forgetWatch_counter & H) Hlt Hle.
      destruct (IH _ _ _ H) as [Hids Hcnt']; rewrite Hc in *; done.
    + intros ([] & w1 & Hc%closeAllWatches_counter & H) Hlt Hle.
      destruct (IH _ _ _ H) as [Hids Hcnt']; rewrite Hc in *; done.
    + intros ([] & w1 & Hc%sendEvent_counter & H) Hlt Hle.
      destruct (IH _ _ _ H) as [Hids Hcnt']; rewrite Hc in *; done.
Qed.

(** C8, as stated, fails once the counter wraps: with the counter at
    2^64 - 1, two successive calls return 2^64 - 1 and then 0, which is
    smaller and is the identifier of the still registered session watch. *)
Lemma createWatch_wraps :
  ∃ ch1 w1 ch2 w2,
    createWatch 0 true ex_wrapping = Done (18446744073709551615%N, ch1) w1 ∧
    createWatch 0 true w1 = Done (0%N, ch2) w2 ∧
    (0 < 18446744073709551615)%N ∧
    watchConns w1 !! 0%N = Some 0%nat.
Proof. do 4 eexists. vm_compute. repeat split; reflexivity. Qed.

(** Every value of the counter is reached by calls of [createWatch] alone. *)
Lemma counter_reaches n : ∀ w,
  is_Some (conns w !! 0%nat) →
  (watchCounter w < uintptr_modulus)%N →
  ∃ ids w', run_ops (replicate n (OpCreate 0 true)) w = Done ids w' ∧
            watchCounter w' = uintptr_wrap (watchCounter w + N.of_nat n).
Proof.
  induction n as [|n IH]; intros w [conn Hzk] Hlt.
  - exists [], w. split; [done|].
    rewrite N.add_0_r. symmetry. by apply uintptr_wrap_small.
  - cbn [replicate run_ops]. unfold mbind at 1. unfold M_bind.
    rewrite (createWatch_created _ _ _ _ Hzk).
    destruct (IH (created 0 true conn w)) as (ids & w' & Hrun & Hcnt).
    { rewrite (created_conn _ _ _ _ Hzk). eauto. }
    { simpl. unfold uintptr_wrap. by apply N.mod_lt. }
    exists (watchCounter w :: ids), w'. unfold mbind, M_bind. rewrite Hrun.
    split; [done|]. rewrite Hcnt. simpl watchCounter. unfold uintptr_wrap.
    rewrite N.Div0.add_mod_idemp_l. f_equal. lia.
Qed.

Lemma wrapping_counter_reached :
  ∃ ops ids w', run_ops ops ex_dialed = Done ids w' ∧
                watchCounter w' = watchCounter ex_wrapping.
Proof.
  assert (Hzk : is_Some (conns ex_dialed !! 0%nat)) by (eexists; reflexivity).
  assert (Hlt : (watchCounter ex_dialed < uintptr_modulus)%N) by reflexivity.
  pose (n := 18446744073709551614%N).
  destruct (counter_reaches (N.to_nat n) ex_dialed Hzk Hlt)
    as (ids & w' & Hrun & Hcnt).
  exists (replicate (N.to_nat n) (OpCreate 0 true)), ids, w'.
  split; [exact Hrun|]. rewrite Hcnt, N2Nat.id. subst n. reflexivity.
Qed.

(** C8 (amended).  [createWatch] returns the current value of the
    process-wide counter and advances it by one modulo 2^64.  Along any run
    of registrations, forgets, deliveries and closes during which the
    counter does not wrap, the identifiers handed out are the successive
    counter values: each is strictly greater than every earlier one and at
    least the counter at the start, and none occurs twice. *)
Theorem createWatch_ids_increase ops w ids w' :
  run_ops ops w = Done ids w' →
  (watchCounter w < uintptr_modulus)%N →
  (watchCounter w + N.of_nat (length ids) ≤ uintptr_modulus)%N →
  (∀ i a, ids !! i = Some a → a = (watchCounter w + N.of_nat i)%N) ∧
  (∀ i j a b, (i < j)%nat → ids !! i = Some a → ids !! j = Some b → (a < b)%N) ∧
  NoDup ids.
Proof.
  intros Hrun Hlt Hle.
  destruct (run_ops_ids _ _ _ _ Hrun Hlt Hle) as [Hids _].
  assert (Hnth : ∀ i a, ids !! i = Some a → a = (watchCounter w + N.of_nat i)%N).
  { intros i a. rewrite Hids at 1. rewrite list_lookup_fmap.
    intros Hi. apply fmap_Some in Hi as (k & Hk & ->).
    apply lookup_seq in Hk as [-> _]. done. }
  split; [done|split].
  - intros i j a b Hij ->%Hnth ->%Hnth. lia.
  - apply NoDup_alt. intros i j a ->%Hnth Hj%Hnth. lia.
Qed.

(** C8 on a concrete run: the four calls among [ex_ops] return 1, 2, 3, 4. *)
Lemma createWatch_ids_increase_witness :
  ∃ w', run_ops ex_ops ex_dialed = Done [1; 2; 3; 4]%N w' ∧
        NoDup [1; 2; 3; 4]%N.
Proof.
  eexists. split; [vm_compute; reflexivity|].
  refine (proj2 (proj2 (createWatch_ids_increase ex_ops ex_dialed [1; 2; 3; 4]%N
                          _ _ _ _))).
  - vm_compute. reflexivity.
  - vm_compute. reflexivity.
  - vm_compute. discriminate.
Defined.

(** ** Watch-installing operations that fail *)

(** C7, as stated, fails for [ExistsW] on an absent node: the status
    [ZNONODE] is not a success status, yet the watch stays registered, the
    channel is returned with a nil error, and one more watch is pending. *)
Lemma ExistsW_nonode_keeps_watch :
  ∃ ch r' w',
    ExistsW 0 "/test" ex_dialed
      (Script.mk [Script.RExists ZNONODE None zero_C_Stat] [])
      = Done (None, Some ch, None, r') w' ∧
    ZNONODE ≠ ZOK ∧
    watchConns w' !! 1%N = Some 0%nat ∧
    CountPendingWatches ex_dialed = 1%nat ∧
    CountPendingWatches w' = 2%nat.
Proof. do 3 eexists. vm_compute. repeat split; (reflexivity || discriminate). Qed.

Section FailedWatchCalls.
Context {R : Type} `{!Runtime R}.

(** C7 (amended).  In a world where the identifier about to be handed
    out is not registered: if the call under [GetW] or [ChildrenW]
    returns a status other than [ZOK], or the call under [ExistsW] one
    other than [ZOK] and [ZNONODE], the operation returns a non-nil
    error and no channel, and the world afterwards has the same
    connections and the same [watchConns] (hence the same number of
    pending watches) as before; every channel that existed is
    untouched.  Only the counter has advanced and the new, unused
    channel is left in the heap. *)
Theorem failed_watch_call_forgets zk path w (r : R) conn :
  conns w !! zk = Some conn →
  watchConns w !! watchCounter w = None →
  watchChannels conn !! watchCounter w = None →
  (∀ rc cerr data reply r',
     zoo_wget (handle conn) path (Some (watchCounter w)) r
       = ((rc, cerr, data, reply), r') →
     rc ≠ ZOK →
     GetW zk path w r
       = Done (""%string, None, None, zkError rc cerr, r') (forgotten true w)) ∧
  (∀ rc cerr names reply r',
     zoo_wget_children2 (handle conn) path (Some (watchCounter w)) r
       = ((rc, cerr, names, reply), r') →
     rc ≠ ZOK →
     ChildrenW zk path w r
       = Done (if (length names =? 0)%nat then [] else names,
               None, None, zkError rc cerr, r') (forgotten true w)) ∧
  (∀ rc cerr reply r',
     zoo_wexists (handle conn) path (Some (watchCounter w)) r
       = ((rc, cerr, reply), r') →
     rc ≠ ZOK → rc ≠ ZNONODE →
     ExistsW zk path w r
       = Done (None, None, zkError rc cerr, r') (forgotten true w)) ∧
  (∀ rc cerr, rc ≠ ZOK → zkError rc cerr ≠ None) ∧
  conns (forgotten true w) = conns w ∧
  watchConns (forgotten true w) = watchConns w ∧
  CountPendingWatches (forgotten true w) = CountPendingWatches w ∧
  (∀ ch ch0, chans w !! ch = Some ch0 → chans (forgotten true w) !! ch = Some ch0).
Proof.
  intros Hzk Hreg Hown.
  pose proof (forget_created zk true w conn Hzk Hreg Hown) as Hforget.
  repeat split.
  - intros rc cerr data reply r' Hcall Hrc.
    rewrite (GetW_eq _ _ _ _ _ _ _ _ _ _ Hzk Hcall), Hforget.
    by destruct (Z.eqb_spec rc ZOK).
  - intros rc cerr names reply r' Hcall Hrc.
    rewrite (ChildrenW_eq _ _ _ _ _ _ _ _ _ _ Hzk Hcall), Hforget. simpl.
    by destruct (Z.eqb_spec rc ZOK).
  - intros rc cerr reply r' Hcall Hrc Hnn.
    rewrite (ExistsW_eq _ _ _ _ _ _ _ _ _ Hzk Hcall), Hforget.
    destruct (Z.eqb_spec rc ZOK); [done|].
    by destruct (Z.eqb_spec rc ZNONODE).
  - intros rc cerr. apply zkError_nonzero.
  - intros ch ch0 Hch. simpl. rewrite lookup_app_l; [done|].
    by eapply lookup_lt_Some.
Qed.
End FailedWatchCalls.

(** C7 on a concrete run: [GetW] on an absent node of [ex_dialed] returns
    the no-such-node error and leaves one pending watch, as before. *)
Lemma failed_watch_call_forgets_witness :
  GetW 0 "/test" ex_dialed (Script.mk [Script.RGet ZNONODE None "" zero_C_Stat] [])
    = Done (""%string, None, None, Some (ErrCode ZNONODE),
            Script.mk [] [Script.CGet (Some 1%nat) "/test" (Some 1%N)])
        (forgotten true ex_dialed)
  ∧ CountPendingWatches (forgotten true ex_dialed) = 1%nat.
Proof.
  destruct (failed_watch_call_forgets 0 "/test" ex_dialed
              (Script.mk [Script.RGet ZNONODE None "" zero_C_Stat] [])
              (mkConn {[0%N := 0%nat]} 0 (Some 1%nat)))
    as (HGetW & _ & _ & _ & _ & _ & Hcount & _).
  - vm_compute. reflexivity.
  - vm_compute. reflexivity.
  - vm_compute. reflexivity.
  - split.
    + apply (HGetW ZNONODE None ""%string zero_C_Stat); [reflexivity|discriminate].
    + rewrite Hcount. vm_compute. reflexivity.
Defined.

(** ** Ownership under updates of the connection heap *)

Lemma owns_same w w' :
  conns w' = conns w → ∀ zk id ch, owns w' zk id ch ↔ owns w zk id ch.
Proof. intros Heq zk id ch. unfold owns. by rewrite Heq. Qed.

Lemma is_session_same w w' :
  conns w' = conns w → ∀ zk id, is_session w' zk id ↔ is_session w zk id.
Proof. intros Heq zk id. unfold is_session. by rewrite Heq. Qed.

Lemma is_open_same w w' :
  conns w' = conns w → ∀ zk, is_open w' zk ↔ is_open w zk.
Proof. intros Heq zk. unfold is_open. by rewrite Heq. Qed.

Lemma owns_insert w w' zk conn conn' :
  conns w !! zk = Some conn →
  conns w' = <[zk := conn']> (conns w) →
  ∀ zk' id ch,
    owns w' zk' id ch
    ↔ (zk' = zk ∧ watchChannels conn' !! id = Some ch) ∨ (zk' ≠ zk ∧ owns w zk' id ch).
Proof.
  intros Hzk Heq zk' id ch. unfold owns. rewrite Heq.
  pose proof (lookup_lt_Some _ _ _ Hzk) as Hlt.
  destruct (decide (zk' = zk)) as [->|Hne].
  - rewrite list_lookup_insert_eq by done. split.
    + intros (? & [= <-] & ?). by left.
    + intros [[_ ?]|[? _]]; [eauto|done].
  - rewrite list_lookup_insert_ne by done. split.
    + intros H. by right.
    + by intros [[? _]|[_ ?]].
Qed.

Lemma is_session_insert w w' zk conn conn' :
  conns w !! zk = Some conn →
  conns w' = <[zk := conn']> (conns w) →
  sessionWatchId conn' = sessionWatchId conn →
  ∀ zk' id, is_session w' zk' id ↔ is_session w zk' id.
Proof.
  intros Hzk Heq Hsid zk' id. unfold is_session. rewrite Heq.
  pose proof (lookup_lt_Some _ _ _ Hzk) as Hlt.
  destruct (decide (zk' = zk)) as [->|Hne].
  - rewrite list_lookup_insert_eq by done. rewrite Hzk. split.
    + intros (? & [= <-] & ?). exists conn. by rewrite <- Hsid.
    + intros (? & [= <-] & ?). exists conn'. by rewrite Hsid.
  - by rewrite list_lookup_insert_ne.
Qed.

Lemma is_open_insert w w' zk conn conn' :
  conns w !! zk = Some conn →
  conns w' = <[zk := conn']> (conns w) →
  ∀ zk', is_open w' zk'
         ↔ (zk' = zk ∧ is_Some (handle conn')) ∨ (zk' ≠ zk ∧ is_open w zk').
Proof.
  intros Hzk Heq zk'. unfold is_open. rewrite Heq.
  pose proof (lookup_lt_Some _ _ _ Hzk) as Hlt.
  destruct (decide (zk' = zk)) as [->|Hne].
  - rewrite list_lookup_insert_eq by done. split.
    + intros (? & [= <-] & ?). by left.
    + intros [[_ ?]|[? _]]; [eauto|done].
  - rewrite list_lookup_insert_ne by done. split.
    + intros H. by right.
    + by intros [[? _]|[_ ?]].
Qed.

Lemma owns_snoc w w' conn' :
  conns w' = conns w ++ [conn'] →
  ∀ zk id ch,
    owns w' zk id ch
    ↔ owns w zk id ch ∨ (zk = length (conns w) ∧ watchChannels conn' !! id = Some ch).
Proof.
  intros Heq zk id ch. unfold owns. rewrite Heq. split.
  - intros (conn & [[_ ?]|[-> ->]]%lookup_snoc_Some & ?); [left; eauto|by right].
  - intros [(conn & Hzk & ?)|[-> ?]].
    + exists conn. split; [|done]. rewrite lookup_app_l; [done|].
      by eapply lookup_lt_Some.
    + exists conn'. split; [|done]. by apply list_lookup_middle.
Qed.

Lemma is_session_snoc w w' conn' :
  conns w' = conns w ++ [conn'] →
  ∀ zk id,
    is_session w' zk id
    ↔ is_session w zk id ∨ (zk = length (conns w) ∧ sessionWatchId conn' = id).
Proof.
  intros Heq zk id. unfold is_session. rewrite Heq. split.
  - intros (conn & [[_ ?]|[-> ->]]%lookup_snoc_Some & ?); [left; eauto|by right].
  - intros [(conn & Hzk & ?)|[-> ?]].
    + exists conn. split; [|done]. rewrite lookup_app_l; [done|].
      by eapply lookup_lt_Some.
    + exists conn'. split; [|done]. by apply list_lookup_middle.
Qed.

Lemma is_open_snoc w w' conn' :
  conns w' = conns w ++ [conn'] →
  ∀ zk, is_open w' zk
        ↔ is_open w zk ∨ (zk = length (conns w) ∧ is_Some (handle conn')).
Proof.
  intros Heq zk. unfold is_open. rewrite Heq. split.
  - intros (conn & [[_ ?]|[-> ->]]%lookup_snoc_Some & ?); [left; eauto|by right].
  - intros [(conn & Hzk & ?)|[-> ?]].
    + exists conn. split; [|done]. rewrite lookup_app_l; [done|].
      by eapply lookup_lt_Some.
    + exists conn'. split; [|done]. by apply list_lookup_middle.
Qed.

Lemma owns_lt w zk id ch : owns w zk id ch → (zk < length (conns w))%nat.
Proof. intros (conn & Hzk & _). by eapply lookup_lt_Some. Qed.

(** In a well-formed world the next identifier is registered nowhere. *)
Lemma wf_fresh w :
  wf w →
  watchConns w !! watchCounter w = None ∧
  ∀ zk ch, ¬ owns w zk (watchCounter w) ch.
Proof.
  intros Hwf.
  assert (Hnone : watchConns w !! watchCounter w = None).
  { destruct (watchConns w !! watchCounter w) as [zk|] eqn:Hreg; [|done].
    apply (wf_below _ Hwf) in Hreg. lia. }
  split; [done|]. intros zk ch Hown.
  assert (watchConns w !! watchCounter w = Some zk) as Hreg
    by (apply (wf_reg _ Hwf); eauto).
  congruence.
Qed.

Lemma wf_fresh_conn w zk conn :
  wf w → conns w !! zk = Some conn →
  watchChannels conn !! watchCounter w = None.
Proof.
  intros Hwf Hzk.
  destruct (watchChannels conn !! watchCounter w) as [ch|] eqn:Hch; [|done].
  destruct (wf_fresh w Hwf) as [_ Hno]. destruct (Hno zk ch). by exists conn.
Qed.

(** ** Well-formedness is kept by every transition *)

Lemma chans_snoc_lookup (l : list Chan) x ch ch0 :
  (l ++ [x]) !! ch = Some ch0 ↔ l !! ch = Some ch0 ∨ (ch = length l ∧ ch0 = x).
Proof.
  rewrite lookup_snoc_Some. split.
  - intros [[_ ?]|[-> ->]]; auto.
  - intros [H|[-> ->]]; [left; split; [by eapply lookup_lt_Some|done]|by right].
Qed.

Lemma owns_created zk session conn w :
  wf w → conns w !! zk = Some conn →
  ∀ zk' id ch,
    owns (created zk session conn w) zk' id ch
    ↔ owns w zk' id ch
      ∨ (zk' = zk ∧ id = watchCounter w ∧ ch = length (chans w)).
Proof.
  intros Hwf Hzk zk' id ch.
  pose proof (wf_fresh_conn w zk conn Hwf Hzk) as Hfresh.
  rewrite (owns_insert w (created zk session conn w) zk conn _ Hzk eq_refl).
  simpl. rewrite lookup_insert_Some. split.
  - intros [[-> [[<- <-]|[Hne Hch]]]|[Hne Hown]].
    + by right.
    + left. by exists conn.
    + by left.
  - intros [Hown|(-> & -> & ->)]; [|left; split; [done|by left]].
    destruct (decide (zk' = zk)) as [->|Hne]; [|by right].
    left. split; [done|]. right.
    destruct Hown as (conn' & Hzk' & Hch). rewrite Hzk in Hzk'.
    injection Hzk' as <-. split; [|done]. intros <-. congruence.
Qed.

Lemma wf_created zk session conn w :
  wf w → no_wrap w → conns w !! zk = Some conn →
  wf (created zk session conn w).
Proof.
  intros Hwf Hnw Hzk.
  pose proof (owns_created zk session conn w Hwf Hzk) as Hown.
  pose proof (is_session_insert w (created zk session conn w) zk conn _
                Hzk eq_refl eq_refl) as Hses.
  pose proof (is_open_insert w (created zk session conn w) zk conn _
                Hzk eq_refl) as Hopen.
  destruct (wf_fresh w Hwf) as [Hfresh Hnown].
  assert (Hcnt : watchCounter (created zk session conn w) = (watchCounter w + 1)%N).
  { simpl. by apply uintptr_wrap_small. }
  split.
  - intros id zk'. setoid_rewrite Hown. simpl. rewrite lookup_insert_Some.
    rewrite (wf_reg _ Hwf). split.
    + intros [[<- <-]|[Hne [ch Hch]]]; [exists (length (chans w)); by right|].
      exists ch. by left.
    + intros (ch & [Hch|(-> & -> & ->)]); [|by left].
      right. split; [|by exists ch]. intros <-. by destruct (Hnown zk' ch).
  - intros id zk'. rewrite Hcnt. simpl. rewrite lookup_insert_Some.
    intros [[<- _]|[_ Hreg%(wf_below _ Hwf)]]; lia.
  - intros zk' id ch. rewrite Hown. setoid_rewrite Hses. simpl.
    intros [Hch|(-> & -> & ->)].
    + destruct (wf_live _ Hwf _ _ _ Hch) as (ch0 & Hch0 & ? & ?).
      exists ch0. rewrite chans_snoc_lookup. auto.
    + eexists. rewrite chans_snoc_lookup. split; [by right|]. done.
  - intros zk1 id1 zk2 id2 ch. rewrite !Hown.
    intros [H1|(-> & -> & ->)] [H2|(-> & -> & ?)].
    + by eapply (wf_alias _ Hwf).
    + subst ch. destruct (wf_live _ Hwf _ _ _ H1) as (ch0 & Hch0%lookup_lt_Some & _).
      lia.
    + destruct (wf_live _ Hwf _ _ _ H2) as (ch0 & Hch0%lookup_lt_Some & _). lia.
    + done.
  - intros zk'. rewrite Hopen. setoid_rewrite Hses. setoid_rewrite Hown.
    intros Hop.
    assert (is_open w zk') as Hop'.
    { destruct Hop as [[-> ?]|[_ ?]]; [|done]. by exists conn. }
    destruct (wf_session _ Hwf _ Hop') as (id & ch & ? & ?). exists id, ch. auto.
  - intros ch ch0 e. simpl. rewrite chans_snoc_lookup.
    intros [Hch0|[_ ->]]; [by apply (wf_sent _ Hwf ch)|].
    simpl. by intros ?%elem_of_nil.
  - intros ch ch0. simpl. rewrite chans_snoc_lookup.
    intros [Hch0|[_ ->]]; [by apply (wf_rcvd _ Hwf ch)|]. simpl. lia.
Qed.

(** A change of the channel heap alone keeps a world well-formed if the
    registered channels stay open, one-shot channels stay empty, and no
    closed event shows up. *)
Lemma wf_chans w w' :
  wf w →
  conns w' = conns w →
  watchConns w' = watchConns w →
  (watchCounter w ≤ watchCounter w')%N →
  (∀ zk id ch ch0, owns w zk id ch → chans w !! ch = Some ch0 →
     ∃ ch1, chans w' !! ch = Some ch1 ∧ closed ch1 = false ∧
            (¬ is_session w zk id → sent ch1 = sent ch0)) →
  (∀ ch ch1 e, chans w' !! ch = Some ch1 → e ∈ sent ch1 → State e ≠ STATE_CLOSED) →
  (∀ ch ch1, chans w' !! ch = Some ch1 → (rcvd ch1 ≤ length (sent ch1))%nat) →
  wf w'.
Proof.
  intros Hwf Hconns Hreg Hcnt Hlive Hsent Hrcvd.
  pose proof (owns_same w w' Hconns) as Hown.
  pose proof (is_session_same w w' Hconns) as Hses.
  pose proof (is_open_same w w' Hconns) as Hopen.
  split.
  - intros id zk. rewrite Hreg. setoid_rewrite Hown. apply (wf_reg _ Hwf).
  - intros id zk. rewrite Hreg. intros ?%(wf_below _ Hwf). lia.
  - intros zk id ch. rewrite Hown. setoid_rewrite Hses. intros Hch.
    destruct (wf_live _ Hwf _ _ _ Hch) as (ch0 & Hch0 & _ & Hempty).
    destruct (Hlive _ _ _ _ Hch Hch0) as (ch1 & Hch1 & Hop & Hkeep).
    exists ch1. repeat split; [done..|].
    intros Hns. by rewrite Hkeep, Hempty.
  - intros zk1 id1 zk2 id2 ch. rewrite !Hown. apply (wf_alias _ Hwf).
  - intros zk. rewrite Hopen. setoid_rewrite Hses. setoid_rewrite Hown.
    apply (wf_session _ Hwf).
  - done.
  - done.
Qed.

Lemma wf_forgotten session w : wf w → no_wrap w → wf (forgotten session w).
Proof.
  intros Hwf Hnw. apply (wf_chans w); try done.
  - simpl. rewrite uintptr_wrap_small by done. lia.
  - intros zk id ch ch0 Hown Hch0. exists ch0. simpl.
    rewrite chans_snoc_lookup.
    destruct (wf_live _ Hwf _ _ _ Hown) as (ch0' & Hch0' & ? & _).
    rewrite Hch0 in Hch0'. injection Hch0' as <-. auto.
  - intros ch ch1 e. simpl. rewrite chans_snoc_lookup.
    intros [Hch0|[_ ->]]; [by apply (wf_sent _ Hwf ch)|].
    simpl. by intros ?%elem_of_nil.
  - intros ch ch1. simpl. rewrite chans_snoc_lookup.
    intros [Hch0|[_ ->]]; [by apply (wf_rcvd _ Hwf ch)|]. simpl. lia.
Qed.

Lemma wf_session_delivery w zk conn ch ch0 event :
  wf w →
  conns w !! zk = Some conn →
  watchChannels conn !! sessionWatchId conn = Some ch →
  chans w !! ch = Some ch0 →
  State event ≠ STATE_CLOSED →
  wf (set_chans
        (λ l, <[ch := mkChan (cap ch0) (sent ch0 ++ [event]) (rcvd ch0) false]> l) w).
Proof.
  intros Hwf Hzk Hch Hch0 Hst.
  pose proof (lookup_lt_Some _ _ _ Hch0) as Hlt.
  assert (Hsown : owns w zk (sessionWatchId conn) ch) by (by exists conn).
  apply (wf_chans w); try done.
  - intros zk' id ch' ch0' Hown Hch0'. simpl.
    destruct (wf_live _ Hwf _ _ _ Hown) as (ch0'' & Heq & Hop & _).
    rewrite Hch0' in Heq. injection Heq as <-.
    destruct (decide (ch' = ch)) as [->|Hne].
    + rewrite list_lookup_insert_eq by done. eexists. split; [done|].
      split; [done|]. intros Hns. destruct Hns.
      pose proof (wf_alias _ Hwf _ _ _ _ _ Hown Hsown) as ->.
      assert (watchConns w !! sessionWatchId conn = Some zk') as H1
        by (apply (wf_reg _ Hwf); eauto).
      assert (watchConns w !! sessionWatchId conn = Some zk) as H2
        by (apply (wf_reg _ Hwf); eauto).
      rewrite H1 in H2. injection H2 as ->. by exists conn.
    + rewrite list_lookup_insert_ne by done. eauto.
  - intros ch' ch1 e. simpl.
    destruct (decide (ch' = ch)) as [->|Hne].
    + rewrite list_lookup_insert_eq by done. intros [= <-]. simpl.
      rewrite elem_of_app, list_elem_of_singleton.
      intros [?| ->]; [by eapply (wf_sent _ Hwf ch)|done].
    + rewrite list_lookup_insert_ne by done. apply (wf_sent _ Hwf).
  - intros ch' ch1. simpl.
    destruct (decide (ch' = ch)) as [->|Hne].
    + rewrite list_lookup_insert_eq by done. intros [= <-]. simpl.
      rewrite length_app. pose proof (wf_rcvd _ Hwf _ _ Hch0). lia.
    + rewrite list_lookup_insert_ne by done. apply (wf_rcvd _ Hwf).
Qed.

Lemma wf_recv w ch e ok w' :
  wf w → recv ch w = Some (e, ok, w') → wf w'.
Proof.
  intros Hwf. unfold recv.
  destruct (chans w !! ch) as [ch0|] eqn:Hch0; [|done].
  pose proof (lookup_lt_Some _ _ _ Hch0) as Hlt.
  destruct (chan_recv ch0) as [e' ok' ch1|] eqn:Hrecv; [|done].
  intros [= <- <- <-].
  assert (Hch1 : sent ch1 = sent ch0 ∧ closed ch1 = closed ch0
                 ∧ (rcvd ch1 ≤ length (sent ch1))%nat).
  { pose proof (wf_rcvd _ Hwf _ _ Hch0) as Hle. unfold chan_recv in Hrecv.
    destruct (drop (rcvd ch0) (sent ch0)) as [|e0 l0] eqn:Hdrop;
      [destruct (closed ch0) eqn:Hc0|]; simplify_eq; rewrite ?Hc0; [done|].
    simpl. repeat split.
    apply (f_equal length) in Hdrop. rewrite length_drop in Hdrop.
    simpl in Hdrop. lia. }
  destruct Hch1 as (Hs & Hc & Hr).
  apply (wf_chans w); try done.
  - intros zk id ch' ch0' Hown Hch0'. simpl.
    destruct (wf_live _ Hwf _ _ _ Hown) as (ch0'' & Heq & Hop & _).
    rewrite Hch0' in Heq. injection Heq as <-.
    destruct (decide (ch' = ch)) as [->|Hne].
    + rewrite list_lookup_insert_eq by done. exists ch1.
      rewrite Hch0 in Hch0'. injection Hch0' as <-.
      rewrite Hc, Hs. auto.
    + rewrite list_lookup_insert_ne by done. eauto.
  - intros ch' ch1' e0. simpl.
    destruct (decide (ch' = ch)) as [->|Hne].
    + rewrite list_lookup_insert_eq by done. intros [= <-]. rewrite Hs.
      by eapply (wf_sent _ Hwf ch).
    + rewrite list_lookup_insert_ne by done. apply (wf_sent _ Hwf).
  - intros ch' ch1'. simpl.
    destruct (decide (ch' = ch)) as [->|Hne].
    + rewrite list_lookup_insert_eq by done. by intros [= <-].
    + rewrite list_lookup_insert_ne by done. apply (wf_rcvd _ Hwf).
Qed.

(** ** Closing all watches of a connection *)

Lemma delete_all_lookup ids : ∀ (m : gmap N nat) k,
  delete_all ids m !! k = if decide (k ∈ ids) then None else m !! k.
Proof.
  unfold delete_all. induction ids as [|id ids IH]; intros m k.
  - destruct (decide (k ∈ [])) as [Hin|_]; [by apply elem_of_nil in Hin|done].
  - cbn [foldl]. rewrite IH.
    destruct (decide (k ∈ ids)) as [Hin|Hnin], (decide (k ∈ id :: ids)) as [Hin'|Hnin'];
      try done.
    + destruct Hnin'. by right.
    + apply elem_of_cons in Hin' as [->|?]; [|done]. apply lookup_delete_eq.
    + apply lookup_delete_ne. intros <-. destruct Hnin'. left.
Qed.

Lemma shut_all_lookup chs : ∀ (l : list Chan) i,
  shut_all chs l !! i = if decide (i ∈ chs) then shut <$> l !! i else l !! i.
Proof.
  unfold shut_all. induction chs as [|ch chs IH]; intros l i.
  - destruct (decide (i ∈ [])) as [Hin|_]; [by apply elem_of_nil in Hin|done].
  - cbn [foldl]. rewrite IH.
    destruct (decide (i ∈ chs)) as [Hin|Hnin], (decide (i ∈ ch :: chs)) as [Hin'|Hnin'].
    + destruct (decide (i = ch)) as [->|Hne].
      * rewrite list_lookup_alter_eq. by destruct (l !! ch).
      * by rewrite list_lookup_alter_ne.
    + destruct Hnin'. by right.
    + apply elem_of_cons in Hin' as [->|?]; [|done]. apply list_lookup_alter_eq.
    + apply list_lookup_alter_ne. intros <-. destruct Hnin'. left.
Qed.

Lemma shut_all_length chs : ∀ l : list Chan, length (shut_all chs l) = length l.
Proof.
  unfold shut_all. induction chs as [|ch chs IH]; intros l; simpl; [done|].
  by rewrite IH, length_alter.
Qed.

Lemma insert_shut (l : list Chan) ch ch0 :
  l !! ch = Some ch0 → <[ch := shut ch0]> l = alter shut ch l.
Proof.
  intros Hch. apply list_eq. intros i.
  pose proof (lookup_lt_Some _ _ _ Hch) as Hlt.
  destruct (decide (i = ch)) as [->|Hne].
  - by rewrite list_lookup_insert_eq, list_lookup_alter_eq, Hch.
  - by rewrite list_lookup_insert_ne, list_lookup_alter_ne.
Qed.

Lemma close_watches_eq zk l : ∀ w conn,
  conns w !! zk = Some conn →
  NoDup l.*2 →
  (∀ ch, ch ∈ l.*2 → ∃ ch0, chans w !! ch = Some ch0 ∧ closed ch0 = false) →
  close_watches zk l w = Done tt (watches_closed zk conn l w).
Proof.
  induction l as [|[watchId ch] l IH]; intros w conn Hzk Hnd Hopen.
  - simpl. unfold mret, M_ret, watches_closed. simpl. f_equal.
    destruct w as [cs chs wc cnt lc lp], conn as [m sid h]. simpl in *.
    f_equal. symmetry. by apply list_insert_id.
  - simpl in Hnd. apply NoDup_cons in Hnd as [Hnin Hnd].
    destruct (Hopen ch) as (ch0 & Hch0 & Hop); [left|].
    cbn [close_watches]. unfold mbind at 1. unfold M_bind.
    assert (Hclose : close_chan ch w
                     = Done tt (set_chans (λ l, alter shut ch l) w)).
    { apply close_chan_Done. exists ch0. repeat split; [done..|].
      unfold set_chans. f_equal. symmetry. by apply insert_shut. }
    rewrite Hclose. unfold mbind at 1. unfold M_bind.
    assert (Hupd : update_conn zk (set_watchChannels (λ m, delete watchId m))
                     (set_chans (λ l, alter shut ch l) w)
                   = Done tt (set_conns
                                (λ l, <[zk := set_watchChannels
                                               (λ m, delete watchId m) conn]> l)
                                (set_chans (λ l, alter shut ch l) w))).
    { apply update_conn_Done. by exists conn. }
    rewrite Hupd. unfold mbind at 1. unfold M_bind. unfold modify at 1.
    rewrite (IH _ (set_watchChannels (λ m, delete watchId m) conn));
      [| |done|].
    + unfold watches_closed. simpl. f_equal. f_equal.
      by rewrite list_insert_insert_eq.
    + simpl. apply list_lookup_insert_eq. by eapply lookup_lt_Some.
    + intros ch' Hin. simpl.
      destruct (Hopen ch') as (ch0' & Hch0' & Hop'); [by right|].
      exists ch0'. split; [|done].
      rewrite list_lookup_alter_ne; [done|]. by intros ->.
Qed.

Lemma closeAllWatches_eq zk w conn :
  conns w !! zk = Some conn →
  (∀ id1 id2 ch, watchChannels conn !! id1 = Some ch →
                 watchChannels conn !! id2 = Some ch → id1 = id2) →
  (∀ id ch, watchChannels conn !! id = Some ch →
            ∃ ch0, chans w !! ch = Some ch0 ∧ closed ch0 = false) →
  closeAllWatches zk w
    = Done tt (watches_closed zk conn (map_to_list (watchChannels conn)) w).
Proof.
  intros Hzk Hinj Hopen. unfold closeAllWatches. unfold mbind, M_bind.
  unfold get_conn. rewrite Hzk. apply close_watches_eq; [done| |].
  - apply NoDup_fmap_2_strong; [|apply NoDup_map_to_list].
    intros [id1 ch1] [id2 ch2] H1%elem_of_map_to_list H2%elem_of_map_to_list.
    simpl. intros <-. f_equal. by eapply Hinj.
  - intros ch ([id ch'] & -> & Hin%elem_of_map_to_list)%list_elem_of_fmap.
    by eapply Hopen.
Qed.

Lemma delete_all_keys (m : gmap N nat) :
  delete_all (map_to_list m).*1 m = ∅.
Proof.
  apply map_eq. intros k. rewrite delete_all_lookup, lookup_empty.
  destruct (decide (k ∈ (map_to_list m).*1)) as [|Hnin]; [done|].
  destruct (m !! k) as [ch|] eqn:Hk; [|done].
  destruct Hnin. apply list_elem_of_fmap. exists (k, ch).
  split; [done|]. by apply elem_of_map_to_list.
Qed.

Lemma wf_conn_inj w zk conn :
  wf w → conns w !! zk = Some conn →
  ∀ id1 id2 ch, watchChannels conn !! id1 = Some ch →
                watchChannels conn !! id2 = Some ch → id1 = id2.
Proof.
  intros Hwf Hzk id1 id2 ch H1 H2.
  apply (wf_alias _ Hwf zk id1 zk id2 ch); by exists conn.
Qed.

Lemma wf_conn_open w zk conn :
  wf w → conns w !! zk = Some conn →
  ∀ id ch, watchChannels conn !! id = Some ch →
           ∃ ch0, chans w !! ch = Some ch0 ∧ closed ch0 = false.
Proof.
  intros Hwf Hzk id ch Hch.
  destruct (wf_live _ Hwf zk id ch) as (ch0 & ? & ? & _); [by exists conn|eauto].
Qed.

Section SessionFacts.
Context {R : Type} `{!Runtime R}.

Lemma Close_closed_eq zk w (r : R) conn :
  conns w !! zk = Some conn → handle conn = None →
  Close zk w r = Done (Some (ErrCode ZCLOSING), r) w.
Proof.
  intros Hzk Hh. unfold Close. munfold. unfold get_conn. by rewrite Hzk, Hh.
Qed.

Lemma Close_open_eq zk w (r : R) conn h rc cerr r' :
  conns w !! zk = Some conn → handle conn = Some h →
  (∀ id1 id2 ch, watchChannels conn !! id1 = Some ch →
                 watchChannels conn !! id2 = Some ch → id1 = id2) →
  (∀ id ch, watchChannels conn !! id = Some ch →
            ∃ ch0, chans w !! ch = Some ch0 ∧ closed ch0 = false) →
  zookeeper_close (Some h) r = ((rc, cerr), r') →
  Close zk w r = Done (zkError rc cerr, r') (closed_world zk conn w).
Proof.
  intros Hzk Hh Hinj Hopen Hcall. unfold Close. munfold.
  unfold get_conn at 1. rewrite Hzk, Hh, Hcall.
  rewrite (closeAllWatches_eq _ _ _ Hzk Hinj Hopen).
  unfold stopWatchLoop, update_conn. munfold. unfold get_conn. simpl.
  rewrite list_lookup_insert_eq by (by eapply lookup_lt_Some).
  unfold closed_world, set_conns, set_watchLoop. simpl.
  rewrite list_insert_insert_eq. unfold set_handle, set_watchChannels. simpl.
  by rewrite delete_all_keys.
Qed.

Lemma insert_snoc {A} (l : list A) (x y : A) :
  <[length l := y]> (l ++ [x]) = l ++ [y].
Proof. rewrite insert_app_r_alt by done. by rewrite Nat.sub_diag. Qed.

Lemma dial_eq servers ns clientId w (r : R) h cerr r' :
  zookeeper_init servers (C_int (ns `quot` 1000000)) clientId (watchCounter w) r
    = ((h, cerr), r') →
  dial servers ns clientId w r =
    match h with
    | Some h0 =>
      Done (Some (length (conns w)), Some (length (chans w)), None, r') (dialed h0 w)
    | None =>
      Done (None, None, zkError ZSYSTEMERROR cerr, r') (dial_failed w)
    end.
Proof.
  intros Hcall. unfold dial. munfold. unfold new_conn at 1.
  set (w1 := set_conns (λ l, l ++ [mkConn ∅ 0%N None]) w).
  assert (Hzk : conns w1 !! length (conns w) = Some (mkConn ∅ 0%N None))
    by (by apply list_lookup_middle).
  rewrite (createWatch_created _ _ _ _ Hzk).
  unfold update_conn at 1. munfold. unfold get_conn at 1.
  rewrite (created_conn _ _ _ _ Hzk). simpl.
  rewrite Hcall.
  match goal with |- _ ?w0 r' = _ => set (w2 := w0) end.
  assert (Hw2 : w2 = mkWorld
            (conns w ++ [mkConn {[watchCounter w := length (chans w)]}
                           (watchCounter w) None])
            (chans w ++ [make_chan 32])
            (<[watchCounter w := length (conns w)]> (watchConns w))
            (uintptr_wrap (watchCounter w + 1))
            (watchLoopCounter w) (watchLoops w)).
  { unfold w2, created, set_conns, set_sessionWatchId, set_watchChannels, w1.
    simpl. by rewrite list_insert_insert_eq, insert_snoc, insert_empty. }
  rewrite Hw2. clear w2 Hw2.
  destruct h as [h0|].
  - unfold update_conn, runWatchLoop. munfold. unfold get_conn. simpl.
    rewrite list_lookup_middle by done. simpl.
    unfold dialed, set_conns, set_watchLoop. simpl. by rewrite insert_snoc.
  - match goal with
    | |- context [closeAllWatches ?zk ?w0] =>
      rewrite (closeAllWatches_eq zk w0
                 (mkConn {[watchCounter w := length (chans w)]} (watchCounter w) None))
    end.
    + unfold watches_closed, dial_failed. simpl.
      rewrite map_to_list_singleton. simpl.
      rewrite insert_snoc, delete_insert_eq.
      unfold set_watchChannels, delete_all, shut_all. simpl.
      rewrite delete_singleton_eq.
      rewrite alter_app_r_alt by done. by rewrite Nat.sub_diag.
    + simpl. by apply list_lookup_middle.
    + simpl. intros id1 id2 ch [<- _]%lookup_singleton_Some
               [<- _]%lookup_singleton_Some. done.
    + simpl. intros id ch [_ <-]%lookup_singleton_Some.
      eexists. split; [by apply list_lookup_middle|done].
Qed.
End SessionFacts.

Lemma wf_dialed h w : wf w → no_wrap w → wf (dialed h w).
Proof.
  intros Hwf Hnw.
  pose proof (owns_snoc w (dialed h w) _ eq_refl) as Hown.
  pose proof (is_session_snoc w (dialed h w) _ eq_refl) as Hses.
  pose proof (is_open_snoc w (dialed h w) _ eq_refl) as Hopen.
  simpl in Hown, Hses, Hopen.
  setoid_rewrite lookup_singleton_Some in Hown.
  destruct (wf_fresh w Hwf) as [Hfresh Hnown].
  assert (Hcnt : watchCounter (dialed h w) = (watchCounter w + 1)%N).
  { simpl. by apply uintptr_wrap_small. }
  split.
  - intros id zk. setoid_rewrite Hown. simpl. rewrite lookup_insert_Some.
    rewrite (wf_reg _ Hwf). split.
    + intros [[<- <-]|[Hne [ch Hch]]]; [exists (length (chans w)); by right|].
      exists ch. by left.
    + intros (ch & [Hch|(-> & <- & <-)]); [|by left].
      right. split; [|by exists ch]. intros <-. by destruct (Hnown zk ch).
  - intros id zk. rewrite Hcnt. simpl. rewrite lookup_insert_Some.
    intros [[<- _]|[_ Hreg%(wf_below _ Hwf)]]; lia.
  - intros zk id ch. rewrite Hown. setoid_rewrite Hses. simpl.
    intros [Hch|(-> & <- & <-)].
    + destruct (wf_live _ Hwf _ _ _ Hch) as (ch0 & Hch0 & ? & Hempty).
      exists ch0. rewrite chans_snoc_lookup. repeat split; [by left|done|].
      intros Hns. apply Hempty. intros ?. apply Hns. by left.
    + eexists. rewrite chans_snoc_lookup. split; [by right|]. done.
  - intros zk1 id1 zk2 id2 ch. rewrite !Hown.
    intros [H1|(-> & <- & <-)] [H2|(-> & <- & Heq)].
    + by eapply (wf_alias _ Hwf).
    + subst ch. destruct (wf_live _ Hwf _ _ _ H1) as (ch0 & Hch0%lookup_lt_Some & _).
      lia.
    + destruct (wf_live _ Hwf _ _ _ H2) as (ch0 & Hch0%lookup_lt_Some & _). lia.
    + done.
  - intros zk. rewrite Hopen. setoid_rewrite Hses. setoid_rewrite Hown.
    intros [Hop|[-> _]].
    + destruct (wf_session _ Hwf _ Hop) as (id & ch & ? & ?). exists id, ch. auto.
    + exists (watchCounter w), (length (chans w)). split; by right.
  - intros ch ch0 e. simpl. rewrite chans_snoc_lookup.
    intros [Hch0|[_ ->]]; [by apply (wf_sent _ Hwf ch)|].
    simpl. by intros ?%elem_of_nil.
  - intros ch ch0. simpl. rewrite chans_snoc_lookup.
    intros [Hch0|[_ ->]]; [by apply (wf_rcvd _ Hwf ch)|]. simpl. lia.
Qed.

Lemma wf_dial_failed w : wf w → no_wrap w → wf (dial_failed w).
Proof.
  intros Hwf Hnw.
  pose proof (owns_snoc w (dial_failed w) _ eq_refl) as Hown.
  pose proof (is_session_snoc w (dial_failed w) _ eq_refl) as Hses.
  pose proof (is_open_snoc w (dial_failed w) _ eq_refl) as Hopen.
  simpl in Hown, Hses, Hopen.
  destruct (wf_fresh w Hwf) as [Hfresh Hnown].
  assert (Hown' : ∀ zk id ch, owns (dial_failed w) zk id ch ↔ owns w zk id ch).
  { intros zk id ch. rewrite Hown. split; [|by left].
    intros [?|[_ Hch]]; [done|]. by rewrite lookup_empty in Hch. }
  assert (Hopen' : ∀ zk, is_open (dial_failed w) zk ↔ is_open w zk).
  { intros zk. rewrite Hopen. split; [|by left].
    intros [?|[_ Hh]]; [done|]. by destruct Hh. }
  assert (Hcnt : watchCounter (dial_failed w) = (watchCounter w + 1)%N).
  { simpl. by apply uintptr_wrap_small. }
  split.
  - intros id zk. setoid_rewrite Hown'. simpl.
    rewrite delete_id by done. apply (wf_reg _ Hwf).
  - intros id zk. rewrite Hcnt. simpl. rewrite delete_id by done.
    intros Hreg%(wf_below _ Hwf). lia.
  - intros zk id ch. rewrite Hown'. setoid_rewrite Hses. simpl. intros Hch.
    destruct (wf_live _ Hwf _ _ _ Hch) as (ch0 & Hch0 & ? & Hempty).
    exists ch0. rewrite chans_snoc_lookup. repeat split; [by left|done|].
    intros Hns. apply Hempty. intros ?. apply Hns. by left.
  - intros zk1 id1 zk2 id2 ch. rewrite !Hown'. apply (wf_alias _ Hwf).
  - intros zk. rewrite Hopen'. setoid_rewrite Hses. setoid_rewrite Hown'.
    intros Hop. destruct (wf_session _ Hwf _ Hop) as (id & ch & ? & ?).
    exists id, ch. auto.
  - intros ch ch0 e. simpl. rewrite chans_snoc_lookup.
    intros [Hch0|[_ ->]]; [by apply (wf_sent _ Hwf ch)|].
    simpl. by intros ?%elem_of_nil.
  - intros ch ch0. simpl. rewrite chans_snoc_lookup.
    intros [Hch0|[_ ->]]; [by apply (wf_rcvd _ Hwf ch)|]. simpl. lia.
Qed.

Lemma wf_oneshot_delivery w zk conn watchId ch ch0 event :
  wf w →
  watchConns w !! watchId = Some zk →
  conns w !! zk = Some conn →
  watchId ≠ sessionWatchId conn →
  watchChannels conn !! watchId = Some ch →
  chans w !! ch = Some ch0 →
  State event ≠ STATE_CLOSED →
  wf (mkWorld
        (<[zk := set_watchChannels (λ m, delete watchId m) conn]> (conns w))
        (<[ch := mkChan (cap ch0) (sent ch0 ++ [event]) (rcvd ch0) true]> (chans w))
        (delete watchId (watchConns w))
        (watchCounter w) (watchLoopCounter w) (watchLoops w)).
Proof.
  intros Hwf Hreg Hzk Hid Hch Hch0 Hst.
  match goal with |- wf ?w0 => set (w' := w0) end.
  pose proof (lookup_lt_Some _ _ _ Hch0) as Hlt.
  pose proof (is_session_insert w w' zk conn _ Hzk eq_refl eq_refl) as Hses.
  pose proof (is_open_insert w w' zk conn _ Hzk eq_refl) as Hopen.
  assert (Hzown : owns w zk watchId ch) by (by exists conn).
  assert (Howner : ∀ zk' ch', owns w zk' watchId ch' → zk' = zk).
  { intros zk' ch' Hown.
    assert (watchConns w !! watchId = Some zk') as H1
      by (apply (wf_reg _ Hwf); eauto). congruence. }
  assert (Hown : ∀ zk' id ch', owns w' zk' id ch' ↔ owns w zk' id ch' ∧ id ≠ watchId).
  { intros zk' id ch'. rewrite (owns_insert w w' zk conn _ Hzk eq_refl). simpl.
    rewrite lookup_delete_Some. split.
    - intros [(-> & Hne & Hc)|[Hne Hown]].
      + split; [by exists conn|done].
      + split; [done|]. intros ->. by apply Hne, (Howner _ ch').
    - intros [Hown Hne]. destruct (decide (zk' = zk)) as [->|Hzne]; [|by right].
      left. destruct Hown as (conn' & Hzk' & Hc). rewrite Hzk in Hzk'.
      injection Hzk' as <-. done. }
  split.
  - intros id zk'. setoid_rewrite Hown. simpl. rewrite lookup_delete_Some.
    rewrite (wf_reg _ Hwf). split.
    + intros [Hne [ch' Hc]]. exists ch'. done.
    + intros (ch' & Hc & Hne). split; [done|by exists ch'].
  - intros id zk'. simpl. rewrite lookup_delete_Some.
    intros [_ Hr]. by apply (wf_below _ Hwf) in Hr.
  - intros zk' id ch'. rewrite Hown. setoid_rewrite Hses. simpl.
    intros [Hc Hne].
    destruct (wf_live _ Hwf _ _ _ Hc) as (ch0' & Hch0' & ? & ?).
    exists ch0'. split; [|done].
    rewrite list_lookup_insert_ne; [done|]. intros <-.
    by apply Hne, (wf_alias _ Hwf _ _ _ _ _ Hc Hzown).
  - intros zk1 id1 zk2 id2 ch'. rewrite !Hown. intros [H1 _] [H2 _].
    by eapply (wf_alias _ Hwf).
  - intros zk'. rewrite Hopen. setoid_rewrite Hses. setoid_rewrite Hown.
    intros Hop.
    assert (is_open w zk') as Hop'.
    { destruct Hop as [[-> ?]|[_ ?]]; [|done]. by exists conn. }
    destruct (wf_session _ Hwf _ Hop') as (id & ch' & Hs & Hc).
    exists id, ch'. repeat split; [done..|]. intros ->.
    pose proof (Howner _ _ Hc) as ->.
    destruct Hs as (conn' & Hzk' & Hsid). rewrite Hzk in Hzk'.
    injection Hzk' as <-. done.
  - intros ch' ch1 e. simpl.
    destruct (decide (ch' = ch)) as [->|Hne].
    + rewrite list_lookup_insert_eq by done. intros [= <-]. simpl.
      rewrite elem_of_app, list_elem_of_singleton.
      intros [?| ->]; [by eapply (wf_sent _ Hwf ch)|done].
    + rewrite list_lookup_insert_ne by done. apply (wf_sent _ Hwf).
  - intros ch' ch1. simpl.
    destruct (decide (ch' = ch)) as [->|Hne].
    + rewrite list_lookup_insert_eq by done. intros [= <-]. simpl.
      rewrite length_app. pose proof (wf_rcvd _ Hwf _ _ Hch0). lia.
    + rewrite list_lookup_insert_ne by done. apply (wf_rcvd _ Hwf).
Qed.

Lemma elem_of_map_to_list_fst (m : gmap N nat) k :
  k ∈ (map_to_list m).*1 ↔ is_Some (m !! k).
Proof.
  rewrite list_elem_of_fmap. split.
  - intros ([k' v] & -> & Hin%elem_of_map_to_list). eauto.
  - intros [v Hk]. exists (k, v). split; [done|]. by apply elem_of_map_to_list.
Qed.

Lemma elem_of_map_to_list_snd (m : gmap N nat) v :
  v ∈ (map_to_list m).*2 ↔ ∃ k, m !! k = Some v.
Proof.
  rewrite list_elem_of_fmap. split.
  - intros ([k v'] & -> & Hin%elem_of_map_to_list). eauto.
  - intros [k Hk]. exists (k, v). split; [done|]. by apply elem_of_map_to_list.
Qed.

Lemma wf_closed_world zk conn w :
  wf w → conns w !! zk = Some conn → wf (closed_world zk conn w).
Proof.
  intros Hwf Hzk.
  set (w' := closed_world zk conn w).
  pose proof (is_session_insert w w' zk conn _ Hzk eq_refl eq_refl) as Hses.
  assert (Hown : ∀ zk' id ch, owns w' zk' id ch ↔ zk' ≠ zk ∧ owns w zk' id ch).
  { intros zk' id ch. rewrite (owns_insert w w' zk conn _ Hzk eq_refl). simpl.
    rewrite lookup_empty. split; [by intros [[_ ?]|?]|by right]. }
  assert (Hopen : ∀ zk', is_open w' zk' ↔ zk' ≠ zk ∧ is_open w zk').
  { intros zk'. rewrite (is_open_insert w w' zk conn _ Hzk eq_refl). simpl.
    split; [intros [[_ []]|?]; done|by right]. }
  assert (Hmine : ∀ id, id ∈ (map_to_list (watchChannels conn)).*1
                        ↔ watchConns w !! id = Some zk).
  { intros id. rewrite elem_of_map_to_list_fst, (wf_reg _ Hwf). split.
    - intros [ch Hch]. exists ch. by exists conn.
    - intros (ch & conn' & Hzk' & Hch). rewrite Hzk in Hzk'.
      injection Hzk' as <-. eauto. }
  assert (Hother : ∀ zk' id ch, zk' ≠ zk → owns w zk' id ch →
                     ch ∉ (map_to_list (watchChannels conn)).*2).
  { intros zk' id ch Hne Hc [id' Hin]%elem_of_map_to_list_snd.
    assert (owns w zk id' ch) as Hc' by (by exists conn).
    pose proof (wf_alias _ Hwf _ _ _ _ _ Hc Hc') as ->.
    assert (watchConns w !! id' = Some zk') as H1 by (apply (wf_reg _ Hwf); eauto).
    assert (watchConns w !! id' = Some zk) as H2 by (apply (wf_reg _ Hwf); eauto).
    congruence. }
  split.
  - intros id zk'. setoid_rewrite Hown. simpl. rewrite delete_all_lookup.
    destruct (decide (id ∈ _)) as [Hin|Hnin].
    + split; [done|]. intros (ch & Hne & Hc). apply Hmine in Hin.
      assert (watchConns w !! id = Some zk') as H1 by (apply (wf_reg _ Hwf); eauto).
      congruence.
    + rewrite (wf_reg _ Hwf). split.
      * intros [ch Hc]. exists ch. split; [|done]. intros ->.
        apply Hnin, Hmine, (wf_reg _ Hwf). eauto.
      * intros (ch & _ & Hc). eauto.
  - intros id zk'. simpl. rewrite delete_all_lookup.
    destruct (decide (id ∈ _)); [done|]. apply (wf_below _ Hwf).
  - intros zk' id ch. rewrite Hown. setoid_rewrite Hses. simpl.
    intros [Hne Hc].
    destruct (wf_live _ Hwf _ _ _ Hc) as (ch0 & Hch0 & ? & ?).
    exists ch0. split; [|done].
    rewrite shut_all_lookup, decide_False; [done|]. by eapply Hother.
  - intros zk1 id1 zk2 id2 ch. rewrite !Hown. intros [_ H1] [_ H2].
    by eapply (wf_alias _ Hwf).
  - intros zk'. rewrite Hopen. setoid_rewrite Hses. setoid_rewrite Hown.
    intros [Hne Hop]. destruct (wf_session _ Hwf _ Hop) as (id & ch & ? & ?).
    exists id, ch. auto.
  - intros ch ch1 e. simpl. rewrite shut_all_lookup.
    destruct (decide (ch ∈ _)).
    + intros (ch0 & Hch0 & ->)%fmap_Some. simpl. by apply (wf_sent _ Hwf ch).
    + apply (wf_sent _ Hwf).
  - intros ch ch1. simpl. rewrite shut_all_lookup.
    destruct (decide (ch ∈ _)).
    + intros (ch0 & Hch0 & ->)%fmap_Some. simpl. by apply (wf_rcvd _ Hwf ch).
    + apply (wf_rcvd _ Hwf).
Qed.

(** ** Every reachable world is well-formed *)

Lemma wf_init : wf init_World.
Proof.
  split; simpl.
  - intros id zk. rewrite lookup_empty. split; [done|].
    by intros (ch & conn & ? & _).
  - intros id zk. by rewrite lookup_empty.
  - by intros zk id ch (conn & ? & _).
  - by intros zk1 id1 zk2 id2 ch (conn & ? & _).
  - by intros zk (conn & ? & _).
  - done.
  - done.
Qed.

Lemma wf_sendEvent watchId event w w' :
  wf w → sendEvent watchId event w = Done tt w' → wf w'.
Proof.
  intros Hwf [Hst [->|(zk & conn & ch & ch0 & Hreg & Hzk & _ & Hch & Hch0 & _ & _ & H)]]
    %sendEvent_Done; [done|].
  destruct H as [[-> ->]|[Hid ->]].
  - by eapply wf_session_delivery.
  - by eapply wf_oneshot_delivery.
Qed.

Section StepFacts.
Context {R : Type} `{!Runtime R}.

Lemma wf_dial servers ns clientId w (r : R) res w' :
  wf w → no_wrap w → dial servers ns clientId w r = Done res w' → wf w'.
Proof.
  intros Hwf Hnw.
  destruct (zookeeper_init servers (C_int (ns `quot` 1000000)) clientId
              (watchCounter w) r) as [[h cerr] r'] eqn:Hcall.
  rewrite (dial_eq _ _ _ _ _ _ _ _ Hcall).
  destruct h as [h|]; intros [= _ <-].
  - by apply wf_dialed.
  - by apply wf_dial_failed.
Qed.

Lemma wf_Close zk w (r : R) res w' :
  wf w → Close zk w r = Done res w' → wf w'.
Proof.
  intros Hwf.
  destruct (conns w !! zk) as [conn|] eqn:Hzk; last first.
  { unfold Close. munfold. unfold get_conn. by rewrite Hzk. }
  destruct (handle conn) as [h|] eqn:Hh.
  - destruct (zookeeper_close (Some h) r) as [[rc cerr] r'] eqn:Hcall.
    rewrite (Close_open_eq _ _ _ _ _ _ _ _ Hzk Hh
               (wf_conn_inj _ _ _ Hwf Hzk) (wf_conn_open _ _ _ Hwf Hzk) Hcall).
    intros [= _ <-]. by apply wf_closed_world.
  - rewrite (Close_closed_eq _ _ _ _ Hzk Hh). by intros [= _ <-].
Qed.

Lemma wf_forget_created zk w conn w' :
  wf w → no_wrap w → conns w !! zk = Some conn →
  forgetWatch zk (watchCounter w) (created zk true conn w) = Done tt w' →
  wf w'.
Proof.
  intros Hwf Hnw Hzk.
  rewrite (forget_created _ _ _ _ Hzk (proj1 (wf_fresh _ Hwf))
             (wf_fresh_conn _ _ _ Hwf Hzk)).
  intros [= <-]. by apply wf_forgotten.
Qed.

Lemma wf_GetW zk path w (r : R) res w' :
  wf w → no_wrap w → GetW zk path w r = Done res w' → wf w'.
Proof.
  intros Hwf Hnw.
  destruct (conns w !! zk) as [conn|] eqn:Hzk; last first.
  { unfold GetW. munfold. by rewrite (createWatch_nil _ _ _ Hzk). }
  destruct (zoo_wget (handle conn) path (Some (watchCounter w)) r)
    as [[[[rc cerr] data] reply] r'] eqn:Hcall.
  rewrite (GetW_eq _ _ _ _ _ _ _ _ _ _ Hzk Hcall).
  destruct (rc =? ZOK).
  - intros [= _ <-]. by apply wf_created.
  - destruct (forgetWatch _ _ _) as [[] w1|] eqn:Hf; [|done].
    intros [= _ <-]. by eapply wf_forget_created.
Qed.

Lemma wf_ChildrenW zk path w (r : R) res w' :
  wf w → no_wrap w → ChildrenW zk path w r = Done res w' → wf w'.
Proof.
  intros Hwf Hnw.
  destruct (conns w !! zk) as [conn|] eqn:Hzk; last first.
  { unfold ChildrenW. munfold. by rewrite (createWatch_nil _ _ _ Hzk). }
  destruct (zoo_wget_children2 (handle conn) path (Some (watchCounter w)) r)
    as [[[[rc cerr] names] reply] r'] eqn:Hcall.
  rewrite (ChildrenW_eq _ _ _ _ _ _ _ _ _ _ Hzk Hcall). cbv zeta.
  destruct (rc =? ZOK).
  - intros [= _ <-]. by apply wf_created.
  - destruct (forgetWatch _ _ _) as [[] w1|] eqn:Hf; [|done].
    intros [= _ <-]. by eapply wf_forget_created.
Qed.

Lemma wf_ExistsW zk path w (r : R) res w' :
  wf w → no_wrap w → ExistsW zk path w r = Done res w' → wf w'.
Proof.
  intros Hwf Hnw.
  destruct (conns w !! zk) as [conn|] eqn:Hzk; last first.
  { unfold ExistsW. munfold. by rewrite (createWatch_nil _ _ _ Hzk). }
  destruct (zoo_wexists (handle conn) path (Some (watchCounter w)) r)
    as [[[rc cerr] reply] r'] eqn:Hcall.
  rewrite (ExistsW_eq _ _ _ _ _ _ _ _ _ Hzk Hcall).
  destruct (rc =? ZOK); [intros [= _ <-]; by apply wf_created|].
  destruct (rc =? ZNONODE); [intros [= _ <-]; by apply wf_created|].
  destruct (forgetWatch _ _ _) as [[] w1|] eqn:Hf; [|done].
  intros [= _ <-]. by eapply wf_forget_created.
Qed.
End StepFacts.

Lemma wf_step w w' : wf w → step w w' → wf w'.
Proof.
  intros Hwf Hstep. destruct Hstep.
  - by eapply wf_dial.
  - by eapply wf_Close.
  - by eapply wf_GetW.
  - by eapply wf_ChildrenW.
  - by eapply wf_ExistsW.
  - by eapply wf_sendEvent.
  - by eapply wf_recv.
Qed.

Lemma reachable_wf w : reachable w → wf w.
Proof.
  induction 1 as [|w w' _ IH Hstep]; [apply wf_init|by eapply wf_step].
Qed.

(** ** Channels along transitions *)

Lemma evolves_refl ch0 : evolves ch0 ch0.
Proof. by repeat split. Qed.

Lemma evolves_trans ch0 ch1 ch2 : evolves ch0 ch1 → evolves ch1 ch2 → evolves ch0 ch2.
Proof.
  intros (Hc1 & Hp1 & Hf1) (Hc2 & Hp2 & Hf2). split; [congruence|split].
  - by etrans.
  - intros Hcl. destruct (Hf1 Hcl) as [Hcl1 Hs1]. destruct (Hf2 Hcl1) as [Hcl2 Hs2].
    split; [done|congruence].
Qed.

Lemma evolves_shut ch0 : evolves ch0 (shut ch0).
Proof. by repeat split. Qed.

(** What a transition does to the channel heap. *)
Lemma step_chans w w' :
  wf w → step w w' →
  (∃ x, chans w' = chans w ++ [x] ∧ sent x = [] ∧ cap x = 32%nat) ∨
  (∃ chs, chans w' = shut_all chs (chans w)) ∨
  chans w' = chans w ∨
  (∃ ch ch0 ch1, chans w !! ch = Some ch0 ∧ chans w' = <[ch := ch1]> (chans w)
                 ∧ evolves ch0 ch1).
Proof.
  intros Hwf Hstep.
  assert (Hwatch : ∀ zk conn rcok w1,
            conns w !! zk = Some conn →
            (if rcok : bool then w1 = created zk true conn w
             else forgetWatch zk (watchCounter w) (created zk true conn w) = Done tt w1) →
            ∃ x, chans w1 = chans w ++ [x] ∧ sent x = [] ∧ cap x = 32%nat).
  { intros zk conn rcok w1 Hzk Hw1. destruct rcok.
    - subst w1. by eexists.
    - rewrite (forget_created _ _ _ _ Hzk (proj1 (wf_fresh _ Hwf))
                 (wf_fresh_conn _ _ _ Hwf Hzk)) in Hw1.
      injection Hw1 as <-. by eexists. }
  destruct Hstep as [R RT servers ns clientId w r res w' Hnw Hrun
                    |R RT zk w r res w' Hrun
                    |R RT zk path w r res w' Hnw Hrun
                    |R RT zk path w r res w' Hnw Hrun
                    |R RT zk path w r res w' Hnw Hrun
                    |watchId event w w' Hrun
                    |ch w e ok w' Hrun].
  - destruct (zookeeper_init servers (C_int (ns `quot` 1000000)) clientId
                (watchCounter w) r) as [[h cerr] r'] eqn:Hcall.
    rewrite (dial_eq _ _ _ _ _ _ _ _ Hcall) in Hrun. left.
    destruct h as [h|]; injection Hrun as _ <-; by eexists.
  - destruct (conns w !! zk) as [conn|] eqn:Hzk; last first.
    { revert Hrun. unfold Close. munfold. unfold get_conn. by rewrite Hzk. }
    destruct (handle conn) as [h|] eqn:Hh.
    + destruct (zookeeper_close (Some h) r) as [[rc cerr] r'] eqn:Hcall.
      rewrite (Close_open_eq _ _ _ _ _ _ _ _ Hzk Hh
                 (wf_conn_inj _ _ _ Hwf Hzk) (wf_conn_open _ _ _ Hwf Hzk) Hcall)
        in Hrun.
      injection Hrun as _ <-. right. left. by eexists.
    + rewrite (Close_closed_eq _ _ _ _ Hzk Hh) in Hrun.
      injection Hrun as _ <-. by do 2 right; left.
  - destruct (conns w !! zk) as [conn|] eqn:Hzk; last first.
    { revert Hrun. unfold GetW. munfold. by rewrite (createWatch_nil _ _ _ Hzk). }
    destruct (zoo_wget (handle conn) path (Some (watchCounter w)) r)
      as [[[[rc cerr] data] reply] r'] eqn:Hcall.
    rewrite (GetW_eq _ _ _ _ _ _ _ _ _ _ Hzk Hcall) in Hrun. left.
    apply (Hwatch zk conn (rc =? ZOK)); [done|].
    destruct (rc =? ZOK); [by injection Hrun as _ <-|].
    destruct (forgetWatch _ _ _) as [[] w1|]; [by injection Hrun as _ <-|done].
  - destruct (conns w !! zk) as [conn|] eqn:Hzk; last first.
    { revert Hrun. unfold ChildrenW. munfold. by rewrite (createWatch_nil _ _ _ Hzk). }
    destruct (zoo_wget_children2 (handle conn) path (Some (watchCounter w)) r)
      as [[[[rc cerr] names] reply] r'] eqn:Hcall.
    rewrite (ChildrenW_eq _ _ _ _ _ _ _ _ _ _ Hzk Hcall) in Hrun. cbv zeta in Hrun.
    left. apply (Hwatch zk conn (rc =? ZOK)); [done|].
    destruct (rc =? ZOK); [by injection Hrun as _ <-|].
    destruct (forgetWatch _ _ _) as [[] w1|]; [by injection Hrun as _ <-|done].
  - destruct (conns w !! zk) as [conn|] eqn:Hzk; last first.
    { revert Hrun. unfold ExistsW. munfold. by rewrite (createWatch_nil _ _ _ Hzk). }
    destruct (zoo_wexists (handle conn) path (Some (watchCounter w)) r)
      as [[[rc cerr] reply] r'] eqn:Hcall.
    rewrite (ExistsW_eq _ _ _ _ _ _ _ _ _ Hzk Hcall) in Hrun. left.
    apply (Hwatch zk conn ((rc =? ZOK) || (rc =? ZNONODE))); [done|].
    destruct (rc =? ZOK); [by injection Hrun as _ <-|].
    destruct (rc =? ZNONODE); [by injection Hrun as _ <-|].
    destruct (forgetWatch _ _ _) as [[] w1|]; [by injection Hrun as _ <-|done].
  - apply sendEvent_Done in Hrun
      as [_ [->|(zk & conn & ch & ch0 & _ & _ & _ & _ & Hch0 & Hop & _ & H)]];
      [by do 2 right; left|].
    do 3 right. exists ch, ch0.
    destruct H as [[_ ->]|[_ ->]]; eexists; (split; [done|split; [done|]]).
    + split; [done|]. split; [by apply prefix_app_r|by rewrite Hop].
    + split; [done|]. split; [by apply prefix_app_r|by rewrite Hop].
  - unfold recv in Hrun.
    destruct (chans w !! ch) as [ch0|] eqn:Hch0; [|done].
    destruct (chan_recv ch0) as [e' ok' ch1|] eqn:Hrecv; [|done].
    injection Hrun as _ _ <-. do 3 right. exists ch, ch0, ch1.
    split; [done|]. split; [done|].
    unfold chan_recv in Hrecv.
    destruct (drop (rcvd ch0) (sent ch0)); [destruct (closed ch0) eqn:Hc0|];
      simplify_eq; [apply evolves_refl|]. by repeat split.
Qed.

Lemma step_evolves w w' ch ch0 :
  wf w → step w w' → chans w !! ch = Some ch0 →
  ∃ ch1, chans w' !! ch = Some ch1 ∧ evolves ch0 ch1.
Proof.
  intros Hwf Hstep Hch0.
  pose proof (lookup_lt_Some _ _ _ Hch0) as Hlt.
  destruct (step_chans w w' Hwf Hstep)
    as [(x & -> & _)|[[chs ->]|[->|(ch' & ch0' & ch1 & Hch0' & -> & Hev)]]].
  - exists ch0. split; [by rewrite lookup_app_l|apply evolves_refl].
  - rewrite shut_all_lookup, Hch0. destruct (decide (ch ∈ chs)); eexists.
    + split; [done|apply evolves_shut].
    + split; [done|apply evolves_refl].
  - exists ch0. split; [done|apply evolves_refl].
  - destruct (decide (ch' = ch)) as [->|Hne].
    + rewrite list_lookup_insert_eq by done. exists ch1. split; [done|]. congruence.
    + rewrite list_lookup_insert_ne by done. exists ch0.
      split; [done|apply evolves_refl].
Qed.

(** Along any number of transitions from a well-formed world, a channel
    keeps its capacity and the events sent on it, and a closed channel
    never gets another event. *)
Lemma steps_evolve w w' :
  rtc step w w' → wf w →
  wf w' ∧ ∀ ch ch0, chans w !! ch = Some ch0 →
            ∃ ch1, chans w' !! ch = Some ch1 ∧ evolves ch0 ch1.
Proof.
  induction 1 as [w|w w1 w' Hstep _ IH]; intros Hwf.
  - split; [done|]. intros ch ch0 ?. exists ch0. split; [done|apply evolves_refl].
  - destruct (IH (wf_step _ _ Hwf Hstep)) as [Hwf' Hev]. split; [done|].
    intros ch ch0 Hch0.
    destruct (step_evolves _ _ _ _ Hwf Hstep Hch0) as (ch1 & Hch1 & Hev1).
    destruct (Hev _ _ Hch1) as (ch2 & Hch2 & Hev2).
    exists ch2. split; [done|by eapply evolves_trans].
Qed.

(** ** The concrete worlds are reachable *)

Lemma reachable_ex_dialed : reachable ex_dialed.
Proof.
  eapply reach_step; [apply reach_init|].
  apply (step_dial Script.t _ "localhost:2181" 5000000000 None init_World
           (Script.mk [Script.RInit (Some 1%nat) None] [])
           (Some 0%nat, Some 0%nat, None,
            Script.mk [] [Script.CInit "localhost:2181" 5000 None 0])).
  - reflexivity.
  - vm_compute. reflexivity.
Defined.

Lemma reachable_ex_watching : reachable ex_watching.
Proof.
  eapply reach_step; [apply reachable_ex_dialed|].
  apply (step_GetW Script.t _ 0 "/test" ex_dialed
           (Script.mk [Script.RGet ZOK None "one" ex_stat] [])
           ("one"%string, Some (mkStat ex_stat), Some 1%nat, None,
            Script.mk [] [Script.CGet (Some 1%nat) "/test" (Some 1%N)])).
  - reflexivity.
  - vm_compute. reflexivity.
Defined.

(** ** Receiving *)

Lemma recv_Some ch w e ok w' :
  recv ch w = Some (e, ok, w') →
  ∃ ch0, chans w !! ch = Some ch0 ∧
         ((ok = true ∧ e ∈ sent ch0) ∨
          (ok = false ∧ e = zero_Event ∧ closed ch0 = true
           ∧ drop (rcvd ch0) (sent ch0) = [])).
Proof.
  unfold recv. destruct (chans w !! ch) as [ch0|]; [|done].
  unfold chan_recv. destruct (drop (rcvd ch0) (sent ch0)) as [|e0 l] eqn:Hdrop.
  - destruct (closed ch0) eqn:Hcl; [|done]. intros [= <- <- <-].
    exists ch0. split; [done|]. by right.
  - intros [= <- <- <-]. exists ch0. split; [done|]. left. split; [done|].
    apply (subseteq_drop (rcvd ch0)). rewrite Hdrop. left.
Qed.

(** Reading a channel that was closed right after one event: first the
    event, then the zeroed event with [ok] false. *)
Lemma recv_closed_once ch w cap0 event :
  chans w !! ch = Some (mkChan cap0 [event] 0 true) →
  ∃ w1, recv ch w = Some (event, true, w1) ∧
        ∃ w2, recv ch w1 = Some (zero_Event, false, w2).
Proof.
  intros Hch. pose proof (lookup_lt_Some _ _ _ Hch) as Hlt.
  eexists. split; [unfold recv; by rewrite Hch|].
  eexists. unfold recv, set_chans. cbn [chans].
  rewrite list_lookup_insert_eq by done. reflexivity.
Qed.

(** ** The closed sentinel *)

(** C9.  [sendEvent] panics at once, with "Attempted to send a CLOSED
    event", on every event whose state is [STATE_CLOSED], whatever the
    registry holds; hence in every reachable world no event in any channel
    has that state, every event a consumer receives with [ok] true has
    another state, and the closed event is seen only as the zeroed value,
    with [ok] false, read from a closed and drained channel. *)
Theorem closed_event_never_sent :
  (∀ watchId ty path w,
     sendEvent watchId (mkEvent ty path STATE_CLOSED) w
       = Panic "Attempted to send a CLOSED event") ∧
  (∀ w, reachable w → ∀ ch ch0 e,
     chans w !! ch = Some ch0 → e ∈ sent ch0 → State e ≠ STATE_CLOSED) ∧
  (∀ w, reachable w → ∀ ch e ok w',
     recv ch w = Some (e, ok, w') →
     (ok = true ∧ State e ≠ STATE_CLOSED) ∨
     (ok = false ∧ e = zero_Event ∧
      ∃ ch0, chans w !! ch = Some ch0 ∧ closed ch0 = true)) ∧
  State zero_Event = STATE_CLOSED ∧ Type_ zero_Event = EVENT_CLOSED.
Proof.
  split; [|split; [|split; [|done]]].
  - intros. by apply sendEvent_closed_state.
  - intros w Hw%reachable_wf. apply (wf_sent _ Hw).
  - intros w Hw%reachable_wf ch e ok w'
      (ch0 & Hch0 & [[-> Hin]|(-> & -> & Hcl & _)])%recv_Some.
    + left. split; [done|]. by eapply (wf_sent _ Hw ch).
    + right. eauto.
Qed.

(** C9 on a concrete registry. *)
Lemma closed_event_never_sent_witness :
  sendEvent 1 (mkEvent EVENT_CHANGED "/test" STATE_CLOSED) ex_watching
    = Panic "Attempted to send a CLOSED event".
Proof.
  exact (proj1 closed_event_never_sent 1%N EVENT_CHANGED "/test"%string ex_watching).
Defined.

(** ** Delivery retires one-shot watches only *)

(** C5 (amended).  In a well-formed world, delivering an event on a registered
    watch that is not its connection's session watch finds the channel
    empty, removes the identifier from both registry maps and leaves the
    channel closed with exactly that event in it; later events for the
    identifier are dropped, and whatever transitions follow, the channel
    stays closed with that one event; a consumer reads the event and
    then the zeroed event ([EVENT_CLOSED], [STATE_CLOSED]) with [ok]
    false.  Delivering on the session watch changes neither registry map
    and leaves the channel open; and in every reachable world a
    connection that has not been closed still has its session watch
    registered, on an open channel. *)
Theorem delivery_retires_oneshot_only :
  (∀ w zk conn watchId ch ch0 event,
     wf w →
     conns w !! zk = Some conn →
     watchChannels conn !! watchId = Some ch →
     chans w !! ch = Some ch0 →
     (chan_len ch0 < cap ch0)%nat →
     State event ≠ STATE_CLOSED →
     filtered watchId event conn = false →
     ∃ w', sendEvent watchId event w = Done tt w' ∧
       (watchId ≠ sessionWatchId conn →
          sent ch0 = [] ∧
          watchConns w' !! watchId = None ∧
          (∀ zk' ch', ¬ owns w' zk' watchId ch') ∧
          chans w' !! ch = Some (mkChan (cap ch0) [event] 0 true) ∧
          (∀ e', State e' ≠ STATE_CLOSED → sendEvent watchId e' w' = Done tt w') ∧
          (∀ w'', rtc step w' w'' →
             ∃ ch2, chans w'' !! ch = Some ch2 ∧ sent ch2 = [event]
                    ∧ closed ch2 = true) ∧
          (∃ w1, recv ch w' = Some (event, true, w1) ∧
                 ∃ w2, recv ch w1 = Some (zero_Event, false, w2))) ∧
       (watchId = sessionWatchId conn →
          watchConns w' = watchConns w ∧ conns w' = conns w ∧
          chans w' !! ch
            = Some (mkChan (cap ch0) (sent ch0 ++ [event]) (rcvd ch0) false))) ∧
  (∀ w, reachable w → ∀ zk conn,
     conns w !! zk = Some conn → is_Some (handle conn) →
     ∃ ch ch0, watchChannels conn !! sessionWatchId conn = Some ch ∧
               watchConns w !! sessionWatchId conn = Some zk ∧
               chans w !! ch = Some ch0 ∧ closed ch0 = false) ∧
  zero_Event = mkEvent EVENT_CLOSED "" STATE_CLOSED.
Proof.
  split; [|split; [|done]].
  - intros w zk conn watchId ch ch0 event Hwf Hzk Hch Hch0 Hroom Hst Hf.
    pose proof (lookup_lt_Some _ _ _ Hch0) as Hlt.
    assert (Hown : owns w zk watchId ch) by (by exists conn).
    assert (Hreg : watchConns w !! watchId = Some zk)
      by (apply (wf_reg _ Hwf); eauto).
    destruct (wf_live _ Hwf _ _ _ Hown) as (ch0' & Hch0' & Hop & Hempty).
    rewrite Hch0 in Hch0'. injection Hch0' as <-.
    destruct (decide (watchId = sessionWatchId conn)) as [Hid|Hid].
    + eexists. split; [by eapply sendEvent_session|].
      split; [done|]. intros _. simpl.
      repeat split. by apply list_lookup_insert_eq.
    + pose proof (sendEvent_oneshot _ _ _ _ _ _ _ Hst Hreg Hzk Hid Hf Hch Hch0
                    Hop Hroom) as Hsend.
      pose proof (wf_oneshot_delivery _ _ _ _ _ _ _ Hwf Hreg Hzk Hid Hch Hch0 Hst)
        as Hwf'.
      assert (Hnil : sent ch0 = []).
      { apply Hempty. intros (conn' & Hzk' & Hsid). congruence. }
      assert (Hr0 : rcvd ch0 = 0%nat).
      { pose proof (wf_rcvd _ Hwf _ _ Hch0) as Hle. rewrite Hnil in Hle.
        simpl in Hle. lia. }
      eexists. split; [exact Hsend|]. split; [|done]. intros _.
      match type of Hwf' with wf ?w0 => set (w' := w0) in * end.
      assert (Hreg' : watchConns w' !! watchId = None) by apply lookup_delete_eq.
      assert (Hch' : chans w' !! ch = Some (mkChan (cap ch0) [event] 0 true)).
      { simpl. rewrite list_lookup_insert_eq by done. by rewrite Hnil, Hr0. }
      split; [done|]. split; [done|]. split; [|split; [done|split; [|split]]].
      * intros zk' ch' Hown'.
        assert (watchConns w' !! watchId = Some zk') as H1
          by (apply (wf_reg _ Hwf'); eauto). congruence.
      * intros e' He'. by apply sendEvent_absent.
      * intros w'' Hsteps.
        destruct (steps_evolve _ _ Hsteps Hwf') as [_ Hev].
        destruct (Hev _ _ Hch') as (ch2 & Hch2 & _ & _ & Hfin).
        exists ch2. destruct Hfin as [? ?]; done.
      * destruct (recv_closed_once _ _ _ _ Hch') as (w1 & H1 & w2 & H2).
        eauto.
  - intros w Hw%reachable_wf zk conn Hzk Hh.
    destruct (wf_session _ Hw zk) as (id & ch & (conn' & Hzk' & Hsid) & Hown);
      [by exists conn|].
    rewrite Hzk in Hzk'. injection Hzk' as <-. subst id.
    destruct (wf_live _ Hw _ _ _ Hown) as (ch0 & Hch0 & Hop & _).
    exists ch, ch0. repeat split; [|by apply (wf_reg _ Hw); eauto|done..].
    destruct Hown as (conn' & Hzk' & Hch). congruence.
Qed.

(** C5 on a concrete registry: a "changed" event for the one-shot watch 1
    of [ex_watching]. *)
Lemma delivery_retires_oneshot_only_witness :
  ∃ w', sendEvent 1 (mkEvent EVENT_CHANGED "/test" STATE_CONNECTED) ex_watching
          = Done tt w' ∧
        watchConns w' !! 1%N = None ∧
        chans w' !! 1%nat
          = Some (mkChan 32 [mkEvent EVENT_CHANGED "/test" STATE_CONNECTED] 0 true).
Proof.
  destruct (proj1 delivery_retires_oneshot_only ex_watching 0%nat
              (mkConn {[0%N := 0%nat; 1%N := 1%nat]} 0 (Some 1%nat))
              1%N 1%nat (make_chan 32)
              (mkEvent EVENT_CHANGED "/test" STATE_CONNECTED))
    as (w' & Hsend & Hone & _).
  - exact (reachable_wf _ reachable_ex_watching).
  - vm_compute. reflexivity.
  - vm_compute. reflexivity.
  - vm_compute. reflexivity.
  - vm_compute. lia.
  - vm_compute. discriminate.
  - vm_compute. reflexivity.
  - exists w'. destruct Hone as (_ & Hreg & _ & Hch & _); [discriminate|].
    split; [exact Hsend|]. split; [exact Hreg|exact Hch].
Defined.

(** C5, as stated, fails once the identifier counter has wrapped.  From
    [ex_wrapping] a first [GetW] takes the identifier 2^64 - 1, and a
    second one takes 0, the identifier of the connection's session watch.
    The stream [GetW] returned is then fed as if it were the session
    stream: two events for the identifier are both sent on it, it is not
    closed, and the identifier stays in both registry maps. *)
Lemma wrapped_watch_is_not_retired :
  ∃ r1 w1 ch r2 w2 w3 w4,
    GetW 0 "/other" ex_wrapping
      (Script.mk [Script.RGet ZOK None "zero" ex_stat;
                  Script.RGet ZOK None "one" ex_stat] [])
      = Done ("zero"%string, Some (mkStat ex_stat), Some 1%nat, None, r1) w1 ∧
    GetW 0 "/test" w1 r1
      = Done ("one"%string, Some (mkStat ex_stat), Some ch, None, r2) w2 ∧
    ch = 2%nat ∧
    (∃ conn, conns w2 !! 0%nat = Some conn ∧ sessionWatchId conn = 0%N
             ∧ is_Some (handle conn) ∧ watchChannels conn !! 0%N = Some ch) ∧
    sendEvent 0 (mkEvent EVENT_CHANGED "/test" STATE_CONNECTED) w2 = Done tt w3 ∧
    sendEvent 0 (mkEvent EVENT_DELETED "/test" STATE_CONNECTED) w3 = Done tt w4 ∧
    watchConns w4 !! 0%N = Some 0%nat ∧
    chans w4 !! ch
      = Some (mkChan 32 [mkEvent EVENT_CHANGED "/test" STATE_CONNECTED;
                         mkEvent EVENT_DELETED "/test" STATE_CONNECTED] 0 false).
Proof.
  do 7 eexists. split; [vm_compute; reflexivity|].
  split; [vm_compute; reflexivity|].
  split; [reflexivity|].
  split; [eexists; split; [vm_compute; reflexivity|];
          split; [reflexivity|]; split; [by eexists|vm_compute; reflexivity]|].
  split; [vm_compute; reflexivity|].
  split; [vm_compute; reflexivity|].
  split; vm_compute; reflexivity.
Qed.

(** ** Close *)

Section CloseFacts.
Context {R : Type} `{!Runtime R}.

(** C6.  In a well-formed world, [Close] on a connection whose handle
    is set calls the library's close on that handle, returns the error
    of its status, closes every channel of the connection's watches,
    removes those watches from both registry maps (other connections'
    entries stay), and sets the handle to nil.  Every later [Close] on
    the connection returns [ZCLOSING], calls nothing in the library and
    leaves the world as it is. *)
Theorem Close_twice zk w (r : R) conn h rc cerr r1 :
  wf w →
  conns w !! zk = Some conn →
  handle conn = Some h →
  zookeeper_close (Some h) r = ((rc, cerr), r1) →
  ∃ w1, Close zk w r = Done (zkError rc cerr, r1) w1 ∧
    (∀ id ch, watchChannels conn !! id = Some ch →
       watchConns w1 !! id = None ∧
       ∃ ch0, chans w !! ch = Some ch0 ∧ closed ch0 = false
              ∧ chans w1 !! ch = Some (shut ch0)) ∧
    conns w1 !! zk = Some (mkConn ∅ (sessionWatchId conn) None) ∧
    (∀ id, watchChannels conn !! id = None →
           watchConns w1 !! id = watchConns w !! id) ∧
    (∀ r2 : R, Close zk w1 r2 = Done (Some (ErrCode ZCLOSING), r2) w1).
Proof.
  intros Hwf Hzk Hh Hcall.
  pose proof (lookup_lt_Some _ _ _ Hzk) as Hlt.
  exists (closed_world zk conn w). split.
  { apply (Close_open_eq _ _ _ _ _ _ _ _ Hzk Hh); [|by eapply wf_conn_open|done].
    by eapply wf_conn_inj. }
  assert (Hzk1 : conns (closed_world zk conn w) !! zk
                 = Some (mkConn ∅ (sessionWatchId conn) None)).
  { simpl. by apply list_lookup_insert_eq. }
  split; [|split; [done|split]].
  - intros id ch Hch. split.
    + simpl. rewrite delete_all_lookup, decide_True; [done|].
      apply elem_of_map_to_list_fst. eauto.
    + destruct (wf_conn_open _ _ _ Hwf Hzk _ _ Hch) as (ch0 & Hch0 & Hop).
      exists ch0. repeat split; [done..|]. simpl.
      rewrite shut_all_lookup, decide_True, Hch0; [done|].
      apply elem_of_map_to_list_snd. eauto.
  - intros id Hnone. simpl. rewrite delete_all_lookup, decide_False; [done|].
    rewrite elem_of_map_to_list_fst, Hnone. by intros [? ?].
  - intros r2. by eapply Close_closed_eq.
Qed.
End CloseFacts.

(** C6 on a concrete run: closing the connection of [ex_watching] leaves
    no pending watch, and closing it again returns [ZCLOSING]. *)
Lemma Close_twice_witness :
  ∃ w1, Close 0 ex_watching (Script.mk [Script.RClose ZOK None] [])
          = Done (None, Script.mk [] [Script.CClose (Some 1%nat)]) w1 ∧
        watchConns w1 !! 0%N = None ∧ watchConns w1 !! 1%N = None ∧
        Close 0 w1 (Script.mk [] [Script.CClose (Some 1%nat)])
          = Done (Some (ErrCode ZCLOSING),
                  Script.mk [] [Script.CClose (Some 1%nat)]) w1.
Proof.
  destruct (Close_twice 0 ex_watching (Script.mk [Script.RClose ZOK None] [])
              (mkConn {[0%N := 0%nat; 1%N := 1%nat]} 0 (Some 1%nat))
              1%nat ZOK None (Script.mk [] [Script.CClose (Some 1%nat)]))
    as (w1 & Hclose & Hwatches & _ & _ & Hagain).
  - exact (reachable_wf _ reachable_ex_watching).
  - vm_compute. reflexivity.
  - reflexivity.
  - reflexivity.
  - exists w1. split; [exact Hclose|].
    split; [apply (Hwatches 0%N 0%nat); vm_compute; reflexivity|].
    split; [apply (Hwatches 1%N 1%nat); vm_compute; reflexivity|].
    apply Hagain.
Defined.


(** Every channel of a reachable world, session or one-shot, has
    capacity 32: no caller passes [false] to [createWatch]. *)
Lemma reachable_cap w :
  reachable w → ∀ ch ch0, chans w !! ch = Some ch0 → cap ch0 = 32%nat.
Proof.
  induction 1 as [|w w' Hw IH Hstep]; [done|].
  intros ch ch1.
  destruct (step_chans w w' (reachable_wf _ Hw) Hstep)
    as [(x & -> & _ & Hcap)|[[chs ->]|[->|(ch' & ch0' & ch1' & Hch0' & -> & Hev)]]].
  - intros [?|[_ ->]]%chans_snoc_lookup; [by eapply IH|done].
  - rewrite shut_all_lookup. destruct (decide (ch ∈ chs)); [|apply IH].
    intros (ch0 & Hch0 & ->)%fmap_Some. simpl. by eapply IH.
  - apply IH.
  - pose proof (lookup_lt_Some _ _ _ Hch0') as Hlt.
    destruct (decide (ch' = ch)) as [->|Hne].
    + rewrite list_lookup_insert_eq by done. intros [= <-].
      destruct Hev as [-> _]. by eapply IH.
    + rewrite list_lookup_insert_ne by done. apply IH.
Qed.

(** ** Operations that only read *)

Section ReadOnly.
Context {R : Type} `{!Runtime R}.

Lemma Get_world zk path w (r : R) res w' :
  Get zk path w r = Done res w' → w' = w.
Proof.
  destruct (conns w !! zk) as [conn|] eqn:Hzk; last first.
  { unfold Get. munfold. unfold get_conn. by rewrite Hzk. }
  destruct (zoo_wget (handle conn) path None r)
    as [[[[rc cerr] data] reply] r'] eqn:Hcall.
  rewrite (Get_eq _ _ _ _ _ _ _ _ _ _ Hzk Hcall). by intros [= _ <-].
Qed.

Lemma Exists_world zk path w (r : R) res w' :
  Exists zk path w r = Done res w' → w' = w.
Proof.
  destruct (conns w !! zk) as [conn|] eqn:Hzk; last first.
  { unfold Exists. munfold. unfold get_conn. by rewrite Hzk. }
  destruct (zoo_wexists (handle conn) path None r)
    as [[[rc cerr] reply] r'] eqn:Hcall.
  rewrite (Exists_eq _ _ _ _ _ _ _ _ _ Hzk Hcall). by intros [= _ <-].
Qed.

Lemma Create_world zk path value flags aclv w (r : R) res w' :
  Create zk path value flags aclv w r = Done res w' → w' = w.
Proof.
  destruct (conns w !! zk) as [conn|] eqn:Hzk; last first.
  { unfold Create. munfold. unfold get_conn. by rewrite Hzk. }
  destruct (zoo_create (handle conn) path value aclv (C_int flags) r)
    as [[[rc cerr] created] r'] eqn:Hcall.
  rewrite (Create_eq _ _ _ _ _ _ _ _ _ _ _ _ Hzk Hcall). by intros [= _ <-].
Qed.

Lemma Set_world zk path value version w (r : R) res w' :
  Set_ zk path value version w r = Done res w' → w' = w.
Proof.
  destruct (conns w !! zk) as [conn|] eqn:Hzk; last first.
  { unfold Set_. munfold. unfold get_conn. by rewrite Hzk. }
  destruct (zoo_set2 (handle conn) path value version r)
    as [[[rc cerr] reply] r'] eqn:Hcall.
  rewrite (Set_eq _ _ _ _ _ _ _ _ _ _ _ Hzk Hcall). by intros [= _ <-].
Qed.

(** [RetryChange] never touches the registry, however long it loops. *)
Lemma RetryChange_world fuel zk path flags acl (changeFunc : ChangeFunc) :
  ∀ w (r : R) res w',
    RetryChange fuel zk path flags acl changeFunc w r = Done res w' → w' = w.
Proof.
  induction fuel as [|fuel IH]; intros w r res w'; cbn [RetryChange].
  - by intros [= _ <-].
  - rewrite bindR_Done.
    intros ([[oldValue oldStat] err] & r1 & w1 & ->%Get_world & Hrest).
    destruct (negb (is_nil err) && negb (err_is ZNONODE err));
      [by injection Hrest as _ <-|].
    destruct (changeFunc oldValue oldStat) as [newValue err'].
    destruct (negb (is_nil err')); [by injection Hrest as _ <-|].
    destruct oldStat as [oldStat|].
    + destruct (newValue =? oldValue)%string; [by injection Hrest as _ <-|].
      apply bindR_Done in Hrest
        as ([stat err2] & r2 & w2 & ->%Set_world & Hrest).
      destruct (is_nil err2 || _); [by injection Hrest as _ <-|by eapply IH].
    + apply bindR_Done in Hrest
        as ([created err2] & r2 & w2 & ->%Create_world & Hrest).
      destruct (is_nil err2 || _); [by injection Hrest as _ <-|by eapply IH].
Qed.
End ReadOnly.


(** * Further properties of the package *)

(** ** Transitions by their effect *)

Lemma step_effect w w' : wf w → step w w' → effect w w'.
Proof.
  intros Hwf Hstep.
  assert (Hwatch : ∀ zk conn (rcok : bool) w1,
            no_wrap w → conns w !! zk = Some conn →
            (if rcok then w1 = created zk true conn w
             else forgetWatch zk (watchCounter w) (created zk true conn w)
                  = Done tt w1) →
            effect w w1).
  { intros zk conn rcok w1 Hnw Hzk Hw1. destruct rcok.
    - subst w1. by constructor.
    - rewrite (forget_created _ _ _ _ Hzk (proj1 (wf_fresh _ Hwf))
                 (wf_fresh_conn _ _ _ Hwf Hzk)) in Hw1.
      injection Hw1 as <-. by constructor. }
  destruct Hstep as [R RT servers ns clientId w r res w' Hnw Hrun
                    |R RT zk w r res w' Hrun
                    |R RT zk path w r res w' Hnw Hrun
                    |R RT zk path w r res w' Hnw Hrun
                    |R RT zk path w r res w' Hnw Hrun
                    |watchId event w w' Hrun
                    |ch w e ok w' Hrun].
  - destruct (zookeeper_init servers (C_int (ns `quot` 1000000)) clientId
                (watchCounter w) r) as [[h cerr] r'] eqn:Hcall.
    rewrite (dial_eq _ _ _ _ _ _ _ _ Hcall) in Hrun.
    destruct h as [h|]; injection Hrun as _ <-; by constructor.
  - destruct (conns w !! zk) as [conn|] eqn:Hzk; last first.
    { revert Hrun. unfold Close. munfold. unfold get_conn. by rewrite Hzk. }
    destruct (handle conn) as [h|] eqn:Hh.
    + destruct (zookeeper_close (Some h) r) as [[rc cerr] r'] eqn:Hcall.
      rewrite (Close_open_eq _ _ _ _ _ _ _ _ Hzk Hh
                 (wf_conn_inj _ _ _ Hwf Hzk) (wf_conn_open _ _ _ Hwf Hzk) Hcall)
        in Hrun.
      injection Hrun as _ <-. by econstructor.
    + rewrite (Close_closed_eq _ _ _ _ Hzk Hh) in Hrun.
      injection Hrun as _ <-. constructor.
  - destruct (conns w !! zk) as [conn|] eqn:Hzk; last first.
    { revert Hrun. unfold GetW. munfold. by rewrite (createWatch_nil _ _ _ Hzk). }
    destruct (zoo_wget (handle conn) path (Some (watchCounter w)) r)
      as [[[[rc cerr] data] reply] r'] eqn:Hcall.
    rewrite (GetW_eq _ _ _ _ _ _ _ _ _ _ Hzk Hcall) in Hrun.
    apply (Hwatch zk conn (rc =? ZOK)); [done..|].
    destruct (rc =? ZOK); [by injection Hrun as _ <-|].
    destruct (forgetWatch _ _ _) as [[] w1|]; [by injection Hrun as _ <-|done].
  - destruct (conns w !! zk) as [conn|] eqn:Hzk; last first.
    { revert Hrun. unfold ChildrenW. munfold. by rewrite (createWatch_nil _ _ _ Hzk). }
    destruct (zoo_wget_children2 (handle conn) path (Some (watchCounter w)) r)
      as [[[[rc cerr] names] reply] r'] eqn:Hcall.
    rewrite (ChildrenW_eq _ _ _ _ _ _ _ _ _ _ Hzk Hcall) in Hrun. cbv zeta in Hrun.
    apply (Hwatch zk conn (rc =? ZOK)); [done..|].
    destruct (rc =? ZOK); [by injection Hrun as _ <-|].
    destruct (forgetWatch _ _ _) as [[] w1|]; [by injection Hrun as _ <-|done].
  - destruct (conns w !! zk) as [conn|] eqn:Hzk; last first.
    { revert Hrun. unfold ExistsW. munfold. by rewrite (createWatch_nil _ _ _ Hzk). }
    destruct (zoo_wexists (handle conn) path (Some (watchCounter w)) r)
      as [[[rc cerr] reply] r'] eqn:Hcall.
    rewrite (ExistsW_eq _ _ _ _ _ _ _ _ _ Hzk Hcall) in Hrun.
    apply (Hwatch zk conn ((rc =? ZOK) || (rc =? ZNONODE))); [done..|].
    destruct (rc =? ZOK); [by injection Hrun as _ <-|].
    destruct (rc =? ZNONODE); [by injection Hrun as _ <-|].
    destruct (forgetWatch _ _ _) as [[] w1|]; [by injection Hrun as _ <-|done].
  - apply sendEvent_Done in Hrun
      as [Hst [->|(zk & conn & ch & ch0 & Hreg & Hzk & _ & Hch & Hch0 & Hop & Hroom & H)]];
      [constructor|].
    destruct H as [[-> ->]|[Hid ->]].
    + by eapply eff_session_delivered.
    + by eapply eff_oneshot_delivered.
  - unfold recv in Hrun.
    destruct (chans w !! ch) as [ch0|] eqn:Hch0; [|done].
    destruct (chan_recv ch0) as [e' ok' ch1|] eqn:Hrecv; [|done].
    injection Hrun as _ _ <-. by econstructor.
Qed.

(** ** Counting pending watches *)

Lemma size_delete_S (m : gmap N nat) i x :
  m !! i = Some x → S (size (delete i m)) = size m.
Proof.
  intros Hi. rewrite <- (insert_delete_id m i x Hi) at 2.
  by rewrite map_size_insert_None by apply lookup_delete_eq.
Qed.

Lemma delete_all_size ids : ∀ m : gmap N nat,
  NoDup ids → (∀ id, id ∈ ids → is_Some (m !! id)) →
  (size (delete_all ids m) + length ids = size m)%nat.
Proof.
  unfold delete_all. induction ids as [|id ids IH]; intros m Hnd Hin.
  - simpl. lia.
  - apply NoDup_cons in Hnd as [Hnin Hnd]. cbn [foldl length].
    destruct (Hin id) as [x Hx]; [left|].
    rewrite <- (size_delete_S m id x Hx).
    rewrite <- (IH (delete id m) Hnd); [lia|].
    intros id' Hin'. rewrite lookup_delete_ne by (by intros ->).
    apply Hin. by right.
Qed.

Lemma sum_insert {A} (f : A → nat) (l : list A) i x y :
  l !! i = Some x →
  (sum_list_with f (<[i := y]> l) + f x = sum_list_with f l + f y)%nat.
Proof.
  revert i. induction l as [|a l IH]; intros [|i] Hi; simplify_eq/=; [lia|].
  pose proof (IH i Hi). lia.
Qed.

Lemma size_keys (m : gmap N nat) : length (map_to_list m).*1 = size m.
Proof. by rewrite length_fmap, length_map_to_list. Qed.

(** The watches a connection holds are registered, so [Close] takes
    exactly that many out of [watchConns]. *)
Lemma closed_world_count zk conn w :
  wf w → conns w !! zk = Some conn →
  (CountPendingWatches (closed_world zk conn w) + size (watchChannels conn)
   = CountPendingWatches w)%nat.
Proof.
  intros Hwf Hzk. unfold CountPendingWatches. simpl.
  rewrite <- (size_keys (watchChannels conn)).
  apply delete_all_size; [apply NoDup_fst_map_to_list|].
  intros id [ch Hch]%elem_of_map_to_list_fst.
  exists zk. apply (wf_reg _ Hwf). exists ch. by exists conn.
Qed.

Lemma effect_count w w' :
  wf w → effect w w' →
  (CountPendingWatches w' + owned_total w = CountPendingWatches w + owned_total w')%nat.
Proof.
  intros Hwf Heff. unfold owned_total.
  destruct Heff as [h Hnw|Hnw|zk conn h Hzk Hh| |zk conn Hnw Hzk|Hnw
                   |zk conn ch ch0 event Hreg Hzk Hch Hch0 Hop Hroom Hst
                   |zk conn watchId ch ch0 event Hreg Hzk Hid Hch Hch0 Hop Hroom Hst
                   |ch ch0 e ok ch1 Hch0 Hrecv].
  - unfold CountPendingWatches. simpl.
    rewrite map_size_insert_None by apply (wf_fresh _ Hwf).
    rewrite sum_list_with_app. simpl. rewrite map_size_singleton. lia.
  - unfold CountPendingWatches. simpl.
    rewrite delete_id by apply (wf_fresh _ Hwf).
    rewrite sum_list_with_app. simpl. rewrite map_size_empty. lia.
  - pose proof (closed_world_count zk conn w Hwf Hzk) as Hc.
    pose proof (sum_insert (λ conn, size (watchChannels conn)) (conns w) zk conn
                  (mkConn ∅ (sessionWatchId conn) None) Hzk) as Hs.
    simpl in *. rewrite map_size_empty in Hs. lia.
  - lia.
  - unfold CountPendingWatches. simpl.
    rewrite map_size_insert_None by apply (wf_fresh _ Hwf).
    pose proof (sum_insert (λ conn, size (watchChannels conn)) (conns w) zk conn
                  (set_watchChannels
                     (λ m, <[watchCounter w := length (chans w)]> m) conn) Hzk) as Hs.
    simpl in Hs.
    rewrite map_size_insert_None in Hs by (by eapply wf_fresh_conn). lia.
  - unfold CountPendingWatches. simpl. lia.
  - unfold CountPendingWatches. simpl. lia.
  - unfold CountPendingWatches. simpl.
    pose proof (size_delete_S _ _ _ Hreg) as H1.
    pose proof (size_delete_S _ _ _ Hch) as H2.
    pose proof (sum_insert (λ conn, size (watchChannels conn)) (conns w) zk conn
                  (set_watchChannels (λ m, delete watchId m) conn) Hzk) as Hs.
    simpl in Hs. lia.
  - unfold CountPendingWatches. simpl. lia.
Qed.

(** In every reachable world the number [CountPendingWatches]
    reports, the size of [watchConns], is the number of watches the
    connections hold in their [watchChannels] maps: what was registered
    and neither delivered, forgotten nor closed. *)
Theorem pending_count_is_owned w :
  reachable w → CountPendingWatches w = owned_total w.
Proof.
  induction 1 as [|w w' Hw IH Hstep]; [done|].
  pose proof (reachable_wf _ Hw) as Hwf.
  pose proof (effect_count _ _ Hwf (step_effect _ _ Hwf Hstep)). lia.
Qed.

Lemma pending_count_is_owned_witness :
  CountPendingWatches ex_watching = 2%nat ∧ owned_total ex_watching = 2%nat.
Proof.
  pose proof (pending_count_is_owned ex_watching reachable_ex_watching) as H.
  split; [vm_compute; reflexivity|]. rewrite <- H. vm_compute. reflexivity.
Defined.


(** ** The registry invariant, spelled out *)



(** ** What can make the dispatcher panic *)

(** In a reachable world an event whose state is not [STATE_CLOSED]
    makes [sendEvent] panic in one case only: the identifier is a
    registered session watch whose channel already holds 32 or more unread
    events; the panic is then "Session event channel buffer is full".  In
    particular a delivery on a one-shot watch never finds its buffer
    full, and the dispatcher never sends on a closed channel nor closes a
    channel twice. *)
Theorem sendEvent_panics_only_on_session_overflow w watchId event :
  reachable w →
  State event ≠ STATE_CLOSED →
  (∃ w', sendEvent watchId event w = Done tt w') ∨
  (sendEvent watchId event w = Panic "Session event channel buffer is full" ∧
   ∃ zk conn ch ch0,
     watchConns w !! watchId = Some zk ∧ conns w !! zk = Some conn ∧
     watchId = sessionWatchId conn ∧ watchChannels conn !! watchId = Some ch ∧
     chans w !! ch = Some ch0 ∧ (32 ≤ chan_len ch0)%nat).
Proof.
  intros Hw Hst. pose proof (reachable_wf _ Hw) as Hwf.
  destruct (watchConns w !! watchId) as [zk|] eqn:Hreg; last first.
  { left. exists w. by apply sendEvent_absent. }
  destruct (proj1 (wf_reg _ Hwf _ _) Hreg) as (ch & conn & Hzk & Hch).
  destruct (wf_live _ Hwf zk watchId ch) as (ch0 & Hch0 & Hop & Hempty);
    [by exists conn|].
  pose proof (reachable_cap _ Hw _ _ Hch0) as Hcap.
  destruct (filtered watchId event conn) eqn:Hf.
  { left. exists w. by eapply sendEvent_filtered. }
  destruct (decide (watchId = sessionWatchId conn)) as [Hid|Hid].
  - destruct (decide (chan_len ch0 < cap ch0)%nat) as [Hroom|Hfull].
    + left. eexists. by eapply sendEvent_session.
    + right. split.
      * rewrite (sendEvent_full _ _ _ _ _ _ _ Hst Hreg Hzk Hf Hch Hch0 Hop) by lia.
        by rewrite Hid, N.eqb_refl.
      * exists zk, conn, ch, ch0. repeat split; [done..|lia].
  - left. eexists. eapply sendEvent_oneshot; eauto.
    unfold chan_len. rewrite Hempty, Hcap; [simpl; lia|].
    intros (conn' & Hzk' & Hsid). congruence.
Qed.

Lemma sendEvent_panics_only_on_session_overflow_witness :
  ∃ w', sendEvent 1 (mkEvent EVENT_DELETED "/test" STATE_CONNECTED) ex_watching
        = Done tt w'.
Proof.
  destruct (sendEvent_panics_only_on_session_overflow ex_watching 1
              (mkEvent EVENT_DELETED "/test" STATE_CONNECTED)
              reachable_ex_watching) as [H|[H _]].
  - vm_compute. discriminate.
  - exact H.
  - vm_compute in H. discriminate H.
Defined.


(** ** The session channel overflows at 32 unread events *)





(** ** The watch loop is started once *)

Lemma effect_open w w' zk :
  effect w w' → is_open w' zk →
  is_open w zk ∨ (∃ h, w' = dialed h w ∧ zk = length (conns w)).
Proof.
  intros Heff.
  destruct Heff as [h Hnw|Hnw|zk0 conn h Hzk Hh| |zk0 conn Hnw Hzk|Hnw
                   |zk0 conn ch ch0 event Hreg Hzk Hch Hch0 Hop Hroom Hst
                   |zk0 conn watchId ch ch0 event Hreg Hzk Hid Hch Hch0 Hop Hroom Hst
                   |ch ch0 e ok ch1 Hch0 Hrecv].
  - rewrite (is_open_snoc w (dialed h w) _ eq_refl). intros [?|[-> _]]; eauto.
  - rewrite (is_open_snoc w (dial_failed w) _ eq_refl).
    intros [?|[_ [? ?]]]; [by left|done].
  - rewrite (is_open_insert w (closed_world zk0 conn w) zk0 conn _ Hzk eq_refl).
    intros [[_ [? ?]]|[_ ?]]; [done|by left].
  - by left.
  - rewrite (is_open_insert w (created zk0 true conn w) zk0 conn _ Hzk eq_refl).
    intros [[-> ?]|[_ ?]]; left; [by exists conn|done].
  - by left.
  - by left.
  - rewrite (is_open_insert w (oneshot_delivered zk0 conn watchId ch ch0 event w)
               zk0 conn _ Hzk eq_refl).
    intros [[-> ?]|[_ ?]]; left; [by exists conn|done].
  - by left.
Qed.

Lemma reachable_loop w :
  reachable w →
  (watchLoopCounter w = 0 ∧ watchLoops w = 0%nat ∧ ∀ zk, ¬ is_open w zk) ∨
  (1 ≤ watchLoopCounter w ∧ watchLoops w = 1%nat).
Proof.
  induction 1 as [|w w' Hw IH Hstep].
  { left. repeat split. by intros zk (conn & ? & _). }
  pose proof (reachable_wf _ Hw) as Hwf.
  pose proof (step_effect _ _ Hwf Hstep) as Heff.
  assert (Hkeep : watchLoopCounter w' = watchLoopCounter w →
                  watchLoops w' = watchLoops w →
                  (∀ zk, is_open w' zk → is_open w zk) →
                  (watchLoopCounter w' = 0 ∧ watchLoops w' = 0%nat
                   ∧ ∀ zk, ¬ is_open w' zk) ∨
                  (1 ≤ watchLoopCounter w' ∧ watchLoops w' = 1%nat)).
  { intros -> -> Hop. destruct IH as [(? & ? & Hno)|?]; [left|by right].
    repeat split; [done..|]. intros zk Hz. by apply (Hno zk), Hop. }
  pose proof (λ zk, effect_open w w' zk Heff) as Hopen.
  destruct Heff as [h Hnw|Hnw|zk0 conn h Hzk Hh| |zk0 conn Hnw Hzk|Hnw
                   |zk0 conn ch ch0 event Hreg Hzk Hch Hch0 Hop Hroom Hst
                   |zk0 conn watchId ch ch0 event Hreg Hzk Hid Hch Hch0 Hop Hroom Hst
                   |ch ch0 e ok ch1 Hch0 Hrecv].
  - right. simpl. destruct IH as [(-> & -> & _)|[? ->]]; [done|].
    destruct (Z.eqb_spec (watchLoopCounter w) 0); [lia|]. split; [lia|done].
  - apply Hkeep; [done..|]. intros zk Hz.
    destruct (Hopen zk Hz) as [?|(h & Heq & _)]; [done|].
    apply (f_equal watchLoopCounter) in Heq. simpl in Heq. lia.
  - destruct IH as [(_ & _ & Hno)|[Hge Hl]].
    { destruct (Hno zk0). exists conn. by rewrite Hh. }
    right. simpl. split; [|done].
    destruct (Z.eqb_spec (watchLoopCounter w - 1) 0); lia.
  - done.
  - apply Hkeep; [done..|]. intros zk Hz.
    destruct (Hopen zk Hz) as [?|(h & Heq & _)]; [done|].
    apply (f_equal watchLoopCounter) in Heq. simpl in Heq. lia.
  - apply Hkeep; [done..|]. intros zk Hz.
    destruct (Hopen zk Hz) as [?|(h & Heq & _)]; [done|].
    apply (f_equal watchLoopCounter) in Heq. simpl in Heq. lia.
  - apply Hkeep; [done..|]. intros zk Hz.
    destruct (Hopen zk Hz) as [?|(h & Heq & _)]; [done|].
    apply (f_equal watchLoopCounter) in Heq. simpl in Heq. lia.
  - apply Hkeep; [done..|]. intros zk Hz.
    destruct (Hopen zk Hz) as [?|(h & Heq & _)]; [done|].
    apply (f_equal watchLoopCounter) in Heq. simpl in Heq. lia.
  - apply Hkeep; [done..|]. intros zk Hz.
    destruct (Hopen zk Hz) as [?|(h & Heq & _)]; [done|].
    apply (f_equal watchLoopCounter) in Heq. simpl in Heq. lia.
Qed.

(** In every reachable world at most one [_watchLoop] goroutine has been
    started; it has been started as soon as one [dial] succeeded, whatever
    was closed since: the counter never returns to 0, so no later [dial]
    starts a second loop; and while a connection is open the loop runs. *)
Theorem watch_loop_started_once w :
  reachable w →
  (watchLoops w ≤ 1)%nat ∧
  (watchLoops w = 1%nat ↔ 1 ≤ watchLoopCounter w) ∧
  (watchLoops w = 0%nat ↔ watchLoopCounter w = 0) ∧
  (∀ zk, is_open w zk → watchLoops w = 1%nat).
Proof.
  intros [(Hc & Hl & Hno)|[Hc Hl]]%reachable_loop.
  - rewrite Hc, Hl. repeat split; try lia; try done.
    intros zk Hz. by destruct (Hno zk).
  - rewrite Hl. repeat split; try lia; done.
Qed.

Lemma watch_loop_started_once_witness :
  watchLoops ex_two = 1%nat ∧ watchLoopCounter ex_two = 2.
Proof.
  assert (Hr : reachable ex_two).
  { eapply reach_step; [apply reachable_ex_watching|].
    apply (step_dial Script.t _ "localhost:2181" 5000000000 None ex_watching
             (Script.mk [Script.RInit (Some 2%nat) None] [])
             (Some 1%nat, Some 2%nat, None,
              Script.mk [] [Script.CInit "localhost:2181" 5000 None 2])).
    - reflexivity.
    - vm_compute. reflexivity. }
  destruct (watch_loop_started_once ex_two Hr) as (_ & _ & _ & Hopen).
  split; [|vm_compute; reflexivity].
  apply (Hopen 1%nat). eexists. split; [vm_compute; reflexivity|]. by eexists.
Defined.

(** ** Close retires the connection's own watches and nothing else *)

Section CloseFrame.
Context {R : Type} `{!Runtime R}.

(** In a well-formed world, [Close] on an open connection does not
    panic, lowers [CountPendingWatches] by exactly the number of watches
    the connection held, and leaves every other connection, its
    registered watches and their channels as they were. *)
Theorem Close_retires_own_watches_only zk w (r : R) conn h rc cerr r1 :
  wf w →
  conns w !! zk = Some conn →
  handle conn = Some h →
  zookeeper_close (Some h) r = ((rc, cerr), r1) →
  ∃ w1, Close zk w r = Done (zkError rc cerr, r1) w1 ∧
    (CountPendingWatches w1 + size (watchChannels conn)
     = CountPendingWatches w)%nat ∧
    (∀ zk', zk' ≠ zk → conns w1 !! zk' = conns w !! zk') ∧
    (∀ zk' id ch, zk' ≠ zk → owns w zk' id ch →
       watchConns w1 !! id = Some zk' ∧ chans w1 !! ch = chans w !! ch) ∧
    wf w1.
Proof.
  intros Hwf Hzk Hh Hcall.
  exists (closed_world zk conn w). split.
  { apply (Close_open_eq _ _ _ _ _ _ _ _ Hzk Hh); [|by eapply wf_conn_open|done].
    by eapply wf_conn_inj. }
  split; [by apply closed_world_count|]. split; [|split].
  - intros zk' Hne. simpl. by rewrite list_lookup_insert_ne.
  - intros zk' id ch Hne Hown.
    assert (Hreg : watchConns w !! id = Some zk') by (apply (wf_reg _ Hwf); eauto).
    split; simpl.
    + rewrite delete_all_lookup, decide_False; [done|].
      intros [ch' Hch']%elem_of_map_to_list_fst.
      assert (watchConns w !! id = Some zk) as Hreg'.
      { apply (wf_reg _ Hwf). exists ch'. by exists conn. }
      congruence.
    + rewrite shut_all_lookup, decide_False; [done|].
      intros [id' Hch']%elem_of_map_to_list_snd.
      assert (owns w zk id' ch) as Hown' by (by exists conn).
      pose proof (wf_alias _ Hwf _ _ _ _ _ Hown Hown') as ->.
      assert (watchConns w !! id' = Some zk) as Hreg'.
      { apply (wf_reg _ Hwf). eauto. }
      congruence.
  - by apply wf_closed_world.
Qed.
End CloseFrame.

(** Closing the first connection of [ex_two], which holds two watches,
    leaves the one watch of the second connection pending. *)
Lemma Close_retires_own_watches_only_witness :
  ∃ w1, Close 0 ex_two (Script.mk [Script.RClose ZOK None] [])
          = Done (None, Script.mk [] [Script.CClose (Some 1%nat)]) w1 ∧
        CountPendingWatches ex_two = 3%nat ∧
        CountPendingWatches w1 = 1%nat ∧
        watchConns w1 !! 2%N = Some 1%nat.
Proof.
  assert (Hr : reachable ex_two).
  { eapply reach_step; [apply reachable_ex_watching|].
    apply (step_dial Script.t _ "localhost:2181" 5000000000 None ex_watching
             (Script.mk [Script.RInit (Some 2%nat) None] [])
             (Some 1%nat, Some 2%nat, None,
              Script.mk [] [Script.CInit "localhost:2181" 5000 None 2])).
    - reflexivity.
    - vm_compute. reflexivity. }
  destruct (Close_retires_own_watches_only 0 ex_two
              (Script.mk [Script.RClose ZOK None] [])
              (mkConn {[0%N := 0%nat; 1%N := 1%nat]} 0 (Some 1%nat))
              1%nat ZOK None (Script.mk [] [Script.CClose (Some 1%nat)]))
    as (w1 & Hclose & Hcount & _ & Hothers & _).
  - exact (reachable_wf _ Hr).
  - vm_compute. reflexivity.
  - reflexivity.
  - reflexivity.
  - exists w1. split; [exact Hclose|].
    assert (Hc : CountPendingWatches ex_two = 3%nat) by (vm_compute; reflexivity).
    split; [exact Hc|]. split.
    + rewrite Hc in Hcount.
      change (size (watchChannels
                      (mkConn {[0%N := 0%nat; 1%N := 1%nat]} 0 (Some 1%nat))))
        with 2%nat in Hcount. lia.
    + apply (Hothers 1%nat 2%N 2%nat); [discriminate|].
      eexists. split; vm_compute; reflexivity.
Defined.

(** ** dial *)

Section DialFacts.
Context {R : Type} `{!Runtime R}.

(** In a well-formed world whose identifier counter is not about to
    wrap: when the library returns no handle, [dial] returns no connection and
    no channel; the error is the errno if there is one and
    [ZSYSTEMERROR] otherwise; the session watch it had registered is gone
    again, so in a well-formed world [watchConns] and the pending count
    are as before, no connection has become open, and the channel made
    for the session is left closed and empty. *)
Theorem dial_failure_cleans_up servers ns clientId w (r : R) cerr r' :
  wf w → no_wrap w →
  zookeeper_init servers (C_int (ns `quot` 1000000)) clientId (watchCounter w) r
    = ((None, cerr), r') →
  ∃ w1 err,
    dial servers ns clientId w r = Done (None, None, Some err, r') w1 ∧
    err = default (ErrCode ZSYSTEMERROR) cerr ∧
    watchConns w1 = watchConns w ∧
    CountPendingWatches w1 = CountPendingWatches w ∧
    (∀ zk, is_open w1 zk ↔ is_open w zk) ∧
    chans w1 = chans w ++ [mkChan 32 [] 0 true] ∧
    wf w1.
Proof.
  intros Hwf Hnw Hcall.
  exists (dial_failed w), (default (ErrCode ZSYSTEMERROR) cerr).
  split; [|split; [done|]].
  { rewrite (dial_eq _ _ _ _ _ _ _ _ Hcall). by destruct cerr. }
  assert (Hreg : watchConns (dial_failed w) = watchConns w).
  { simpl. apply delete_id, (wf_fresh _ Hwf). }
  split; [done|]. split; [unfold CountPendingWatches; by rewrite Hreg|].
  split; [|split; [done|by apply wf_dial_failed]].
  intros zk. rewrite (is_open_snoc w (dial_failed w) _ eq_refl). simpl.
  split; [intros [?|[_ [? ?]]]; done|by left].
Qed.

(** In a well-formed world whose identifier counter is not about to
    wrap: when the library returns a handle, [dial] returns a new connection
    and its session channel: the channel is new, empty, open and of
    capacity 32; the identifier passed to the library as watch context is
    registered as the session watch of the new connection; one more
    watch is pending. *)
Theorem dial_success_registers_session servers ns clientId w (r : R) h cerr r' :
  wf w → no_wrap w →
  zookeeper_init servers (C_int (ns `quot` 1000000)) clientId (watchCounter w) r
    = ((Some h, cerr), r') →
  ∃ w1 zk ch,
    dial servers ns clientId w r = Done (Some zk, Some ch, None, r') w1 ∧
    conns w !! zk = None ∧ chans w !! ch = None ∧
    conns w1 !! zk
      = Some (mkConn {[watchCounter w := ch]} (watchCounter w) (Some h)) ∧
    chans w1 !! ch = Some (make_chan 32) ∧
    watchConns w1 !! watchCounter w = Some zk ∧
    CountPendingWatches w1 = S (CountPendingWatches w) ∧
    wf w1.
Proof.
  intros Hwf Hnw Hcall.
  exists (dialed h w), (length (conns w)), (length (chans w)).
  split; [by rewrite (dial_eq _ _ _ _ _ _ _ _ Hcall)|].
  split; [by apply lookup_ge_None|]. split; [by apply lookup_ge_None|].
  split; [by apply list_lookup_middle|]. split; [by apply list_lookup_middle|].
  split; [apply lookup_insert_eq|]. split; [|by apply wf_dialed].
  unfold CountPendingWatches. simpl.
  apply map_size_insert_None, (wf_fresh _ Hwf).
Qed.
End DialFacts.

Lemma dial_failure_cleans_up_witness :
  ∃ w1, dial "bad-domain-without-port" 5000000000 None ex_watching
          (Script.mk [Script.RInit None (Some (Errno 22))] [])
        = Done (None, None, Some (Errno 22),
                Script.mk [] [Script.CInit "bad-domain-without-port" 5000 None 2])
            w1 ∧
        CountPendingWatches w1 = 2%nat.
Proof.
  destruct (dial_failure_cleans_up "bad-domain-without-port" 5000000000 None
              ex_watching (Script.mk [Script.RInit None (Some (Errno 22))] [])
              (Some (Errno 22))
              (Script.mk [] [Script.CInit "bad-domain-without-port" 5000 None 2]))
    as (w1 & err & Hdial & -> & _ & Hcount & _).
  - exact (reachable_wf _ reachable_ex_watching).
  - reflexivity.
  - reflexivity.
  - exists w1. split; [exact Hdial|]. rewrite Hcount. vm_compute. reflexivity.
Defined.

Lemma dial_success_registers_session_witness :
  ∃ w1, dial "localhost:2181" 5000000000 None ex_watching
          (Script.mk [Script.RInit (Some 2%nat) None] [])
        = Done (Some 1%nat, Some 2%nat, None,
                Script.mk [] [Script.CInit "localhost:2181" 5000 None 2])
            w1 ∧
        CountPendingWatches w1 = 3%nat.
Proof.
  destruct (dial_success_registers_session "localhost:2181" 5000000000 None
              ex_watching (Script.mk [Script.RInit (Some 2%nat) None] [])
              2%nat None
              (Script.mk [] [Script.CInit "localhost:2181" 5000 None 2]))
    as (w1 & zk & ch & Hdial & _ & _ & _ & _ & _ & Hcount & _).
  - exact (reachable_wf _ reachable_ex_watching).
  - reflexivity.
  - reflexivity.
  - exists w1. split.
    + rewrite Hdial. vm_compute in Hdial. by injection Hdial as <- <- <-.
    + rewrite Hcount. vm_compute. reflexivity.
Defined.

(** ** A watch is registered, fires once, and is gone *)

Section WatchLifeCycle.
Context {R : Type} `{!Runtime R}.

Lemma open_session_below w zk conn :
  wf w → conns w !! zk = Some conn → is_Some (handle conn) →
  (sessionWatchId conn < watchCounter w)%N.
Proof.
  intros Hwf Hzk Hh.
  destruct (wf_session _ Hwf zk) as (id & ch & (conn' & Hzk' & Hsid) & Hown);
    [by exists conn|].
  rewrite Hzk in Hzk'. injection Hzk' as <-. subst id.
  apply (wf_below _ Hwf _ zk), (wf_reg _ Hwf). eauto.
Qed.

(** In a well-formed world whose identifier counter is not about to
    wrap, a successful [GetW] on an open connection
    returns a new, empty channel of capacity 32 and makes one more watch
    pending.  The first event the dispatcher then gets for that watch (a
    node event, or a session event in the expired or auth-failed state)
    is put on the channel, the channel is closed, and both registry maps
    and the pending count are again what they were before the [GetW]. *)
Theorem watch_fires_once_and_retires zk path w (r : R) conn cerr data reply r' event :
  wf w → no_wrap w →
  conns w !! zk = Some conn → is_Some (handle conn) →
  zoo_wget (handle conn) path (Some (watchCounter w)) r
    = ((ZOK, cerr, data, reply), r') →
  State event ≠ STATE_CLOSED →
  (Type_ event = EVENT_SESSION →
   State event = STATE_EXPIRED_SESSION ∨ State event = STATE_AUTH_FAILED) →
  ∃ w1 ch w2,
    GetW zk path w r = Done (data, Some (mkStat reply), Some ch, None, r') w1 ∧
    CountPendingWatches w1 = S (CountPendingWatches w) ∧
    chans w !! ch = None ∧
    chans w1 !! ch = Some (make_chan 32) ∧
    sendEvent (watchCounter w) event w1 = Done tt w2 ∧
    conns w2 = conns w ∧ watchConns w2 = watchConns w ∧
    CountPendingWatches w2 = CountPendingWatches w ∧
    chans w2 !! ch = Some (mkChan 32 [event] 0 true).
Proof.
  intros Hwf Hnw Hzk Hh Hcall Hst Hcrit.
  pose proof (open_session_below _ _ _ Hwf Hzk Hh) as Hsid.
  destruct (wf_fresh _ Hwf) as [Hfresh _].
  pose proof (wf_fresh_conn _ _ _ Hwf Hzk) as Hfc.
  pose proof (lookup_lt_Some _ _ _ Hzk) as Hlt.
  set (conn1 := set_watchChannels
                  (λ m, <[watchCounter w := length (chans w)]> m) conn).
  set (w1 := created zk true conn w).
  assert (Hf : filtered (watchCounter w) event conn1 = false).
  { unfold filtered. simpl.
    destruct (Z.eqb_spec (Type_ event) EVENT_SESSION) as [Hty|]; [|done].
    destruct (Hcrit Hty) as [-> | ->]; simpl; by rewrite andb_false_r. }
  assert (Hsend : sendEvent (watchCounter w) event w1
                  = Done tt (oneshot_delivered zk conn1 (watchCounter w)
                               (length (chans w)) (make_chan 32) event w1)).
  { apply sendEvent_oneshot; try done.
    - apply lookup_insert_eq.
    - by apply created_conn.
    - simpl. lia.
    - apply lookup_insert_eq.
    - apply created_chan.
    - simpl. unfold chan_len. simpl. lia. }
  exists w1, (length (chans w)),
    (oneshot_delivered zk conn1 (watchCounter w) (length (chans w))
       (make_chan 32) event w1).
  split; [by rewrite (GetW_eq _ _ _ _ _ _ _ _ _ _ Hzk Hcall)|].
  assert (Hwc : delete (watchCounter w) (watchConns w1) = watchConns w).
  { simpl. by apply delete_insert_id. }
  split; [unfold CountPendingWatches; simpl; by apply map_size_insert_None|].
  split; [by apply lookup_ge_None|]. split; [apply created_chan|].
  split; [exact Hsend|]. split; [|split; [exact Hwc|split]].
  - simpl. rewrite list_insert_insert_eq. apply list_insert_id.
    rewrite Hzk. f_equal. destruct conn as [m sid h0]. unfold set_watchChannels.
    simpl in *. f_equal. by rewrite delete_insert_id.
  - unfold CountPendingWatches. simpl. by rewrite delete_insert_id.
  - simpl. rewrite list_lookup_insert_eq; [done|].
    rewrite length_app. simpl. lia.
Qed.
End WatchLifeCycle.

Lemma watch_fires_once_and_retires_witness :
  ∃ w1 w2,
    GetW 0 "/test" ex_dialed (Script.mk [Script.RGet ZOK None "one" ex_stat] [])
      = Done ("one"%string, Some (mkStat ex_stat), Some 1%nat, None,
              Script.mk [] [Script.CGet (Some 1%nat) "/test" (Some 1%N)]) w1 ∧
    sendEvent 1 (mkEvent EVENT_CHANGED "/test" STATE_CONNECTED) w1 = Done tt w2 ∧
    CountPendingWatches w2 = 1%nat.
Proof.
  destruct (watch_fires_once_and_retires 0 "/test" ex_dialed
              (Script.mk [Script.RGet ZOK None "one" ex_stat] [])
              (mkConn {[0%N := 0%nat]} 0 (Some 1%nat)) None "one" ex_stat
              (Script.mk [] [Script.CGet (Some 1%nat) "/test" (Some 1%N)])
              (mkEvent EVENT_CHANGED "/test" STATE_CONNECTED))
    as (w1 & ch & w2 & HGetW & _ & _ & _ & Hsend & _ & _ & Hcount & _).
  - exact (reachable_wf _ reachable_ex_dialed).
  - reflexivity.
  - vm_compute. reflexivity.
  - by eexists.
  - reflexivity.
  - vm_compute. discriminate.
  - vm_compute. discriminate.
  - exists w1, w2.
    assert (ch = 1%nat) as ->.
    { vm_compute in HGetW. by injection HGetW as <- _. }
    split; [exact HGetW|]. split; [exact Hsend|].
    rewrite Hcount. vm_compute. reflexivity.
Defined.

(** ** Forgetting a watch *)

Lemma wf_forget_registered w zk conn watchId ch :
  wf w →
  conns w !! zk = Some conn →
  watchId ≠ sessionWatchId conn →
  watchChannels conn !! watchId = Some ch →
  wf (mkWorld
        (<[zk := set_watchChannels (λ m, delete watchId m) conn]> (conns w))
        (chans w) (delete watchId (watchConns w))
        (watchCounter w) (watchLoopCounter w) (watchLoops w)).
Proof.
  intros Hwf Hzk Hid Hch.
  match goal with |- wf ?w0 => set (w' := w0) end.
  pose proof (is_session_insert w w' zk conn _ Hzk eq_refl eq_refl) as Hses.
  pose proof (is_open_insert w w' zk conn _ Hzk eq_refl) as Hopen.
  assert (Hzown : owns w zk watchId ch) by (by exists conn).
  assert (Howner : ∀ zk' ch', owns w zk' watchId ch' → zk' = zk).
  { intros zk' ch' Hown.
    assert (watchConns w !! watchId = Some zk') as H1
      by (apply (wf_reg _ Hwf); eauto).
    assert (watchConns w !! watchId = Some zk) as H2
      by (apply (wf_reg _ Hwf); eauto).
    congruence. }
  assert (Hown : ∀ zk' id ch', owns w' zk' id ch' ↔ owns w zk' id ch' ∧ id ≠ watchId).
  { intros zk' id ch'. rewrite (owns_insert w w' zk conn _ Hzk eq_refl). simpl.
    rewrite lookup_delete_Some. split.
    - intros [(-> & Hne & Hc)|[Hne Hown]].
      + split; [by exists conn|done].
      + split; [done|]. intros ->. by apply Hne, (Howner _ ch').
    - intros [Hown Hne]. destruct (decide (zk' = zk)) as [->|Hzne]; [|by right].
      left. destruct Hown as (conn' & Hzk' & Hc). rewrite Hzk in Hzk'.
      injection Hzk' as <-. done. }
  split.
  - intros id zk'. setoid_rewrite Hown. simpl. rewrite lookup_delete_Some.
    rewrite (wf_reg _ Hwf). split.
    + intros [Hne [ch' Hc]]. exists ch'. done.
    + intros (ch' & Hc & Hne). split; [done|by exists ch'].
  - intros id zk'. simpl. rewrite lookup_delete_Some.
    intros [_ Hr]. by apply (wf_below _ Hwf) in Hr.
  - intros zk' id ch'. rewrite Hown. setoid_rewrite Hses. simpl.
    intros [Hc Hne]. apply (wf_live _ Hwf _ _ _ Hc).
  - intros zk1 id1 zk2 id2 ch'. rewrite !Hown. intros [H1 _] [H2 _].
    by eapply (wf_alias _ Hwf).
  - intros zk'. rewrite Hopen. setoid_rewrite Hses. setoid_rewrite Hown.
    intros Hop.
    assert (is_open w zk') as Hop'.
    { destruct Hop as [[-> ?]|[_ ?]]; [|done]. by exists conn. }
    destruct (wf_session _ Hwf _ Hop') as (id & ch' & Hs & Hc).
    exists id, ch'. repeat split; [done..|]. intros ->.
    pose proof (Howner _ _ Hc) as ->.
    destruct Hs as (conn' & Hzk' & Hsid). rewrite Hzk in Hzk'.
    injection Hzk' as <-. done.
  - apply (wf_sent _ Hwf).
  - apply (wf_rcvd _ Hwf).
Qed.

(** A channel that no watch refers to, open and with nothing sent, is
    left as it is by every transition, and no watch ever refers to it
    again. *)
Lemma effect_unowned w w' ch ch0 :
  wf w → effect w w' →
  chans w !! ch = Some ch0 → sent ch0 = [] → closed ch0 = false →
  (∀ zk id, ¬ owns w zk id ch) →
  chans w' !! ch = Some ch0 ∧ (∀ zk id, ¬ owns w' zk id ch).
Proof.
  intros Hwf Heff Hch0 Hnil Hopn Hno.
  pose proof (lookup_lt_Some _ _ _ Hch0) as Hlt.
  destruct Heff as [h Hnw|Hnw|zk0 conn h Hzk Hh| |zk0 conn Hnw Hzk|Hnw
                   |zk0 conn ch' ch0' event Hreg Hzk Hch Hch0' Hop Hroom Hst
                   |zk0 conn watchId ch' ch0' event Hreg Hzk Hid Hch Hch0' Hop Hroom Hst
                   |ch' ch0' e ok ch1 Hch0' Hrecv].
  - split; [simpl; by rewrite lookup_app_l|].
    intros zk id. rewrite (owns_snoc w (dialed h w) _ eq_refl). simpl.
    intros [?|[_ [_ <-]%lookup_singleton_Some]]; [by eapply Hno|lia].
  - split; [simpl; by rewrite lookup_app_l|].
    intros zk id. rewrite (owns_snoc w (dial_failed w) _ eq_refl). simpl.
    intros [?|[_ ?]]; [by eapply Hno|done].
  - split.
    + simpl. rewrite shut_all_lookup, decide_False; [done|].
      intros [id Hin]%elem_of_map_to_list_snd. apply (Hno zk0 id). by exists conn.
    + intros zk id.
      rewrite (owns_insert w (closed_world zk0 conn w) zk0 conn _ Hzk eq_refl).
      simpl. intros [[_ ?]|[_ ?]]; [done|by eapply Hno].
  - done.
  - split; [simpl; by rewrite lookup_app_l|].
    intros zk id. rewrite (owns_created zk0 true conn w Hwf Hzk).
    intros [?|(_ & _ & ->)]; [by eapply Hno|lia].
  - split; [simpl; by rewrite lookup_app_l|].
    intros zk id. rewrite (owns_same w (forgotten true w) eq_refl). apply Hno.
  - assert (ch' ≠ ch) as Hne.
    { intros ->. apply (Hno zk0 (sessionWatchId conn)). by exists conn. }
    split; [simpl; by rewrite list_lookup_insert_ne|].
    intros zk id. rewrite (owns_same w (session_delivered ch' ch0' event w) eq_refl).
    apply Hno.
  - assert (ch' ≠ ch) as Hne.
    { intros ->. apply (Hno zk0 watchId). by exists conn. }
    split; [simpl; by rewrite list_lookup_insert_ne|].
    intros zk id.
    rewrite (owns_insert w (oneshot_delivered zk0 conn watchId ch' ch0' event w)
               zk0 conn _ Hzk eq_refl). simpl.
    intros [[-> [_ ?]%lookup_delete_Some]|[_ ?]]; [|by eapply Hno].
    apply (Hno zk0 id). by exists conn.
  - split.
    + simpl. destruct (decide (ch' = ch)) as [->|Hne];
        [|by rewrite list_lookup_insert_ne].
      rewrite Hch0 in Hch0'. injection Hch0' as <-.
      unfold chan_recv in Hrecv. rewrite Hnil, drop_nil, Hopn in Hrecv. done.
    + intros zk id.
      rewrite (owns_same w (set_chans (λ l, <[ch' := ch1]> l) w) eq_refl).
      apply Hno.
Qed.

Lemma steps_unowned w w' ch ch0 :
  rtc step w w' → wf w →
  chans w !! ch = Some ch0 → sent ch0 = [] → closed ch0 = false →
  (∀ zk id, ¬ owns w zk id ch) →
  chans w' !! ch = Some ch0.
Proof.
  induction 1 as [w|w w1 w' Hstep _ IH]; intros Hwf Hch0 Hnil Hopn Hno; [done|].
  destruct (effect_unowned _ _ _ _ Hwf (step_effect _ _ Hwf Hstep)
              Hch0 Hnil Hopn Hno) as [Hch1 Hno1].
  apply IH; [by eapply wf_step|done..].
Qed.

(** [forgetWatch] for an identifier that is registered nowhere changes
    nothing.  For a registered one-shot watch it removes the entry from
    both maps, one watch less is pending, and the channel is not closed:
    whatever happens afterwards it stays open and empty, so a receive on
    it blocks in every later world. *)
Theorem forgetWatch_never_closes_the_channel zk w conn watchId :
  wf w → conns w !! zk = Some conn →
  (watchChannels conn !! watchId = None → watchConns w !! watchId = None →
   forgetWatch zk watchId w = Done tt w) ∧
  (∀ ch, watchChannels conn !! watchId = Some ch →
     watchId ≠ sessionWatchId conn →
     ∃ w1, forgetWatch zk watchId w = Done tt w1 ∧
       watchConns w1 !! watchId = None ∧
       S (CountPendingWatches w1) = CountPendingWatches w ∧
       ∀ w', rtc step w1 w' →
         recv ch w' = None ∧
         ∃ ch0, chans w' !! ch = Some ch0 ∧ sent ch0 = [] ∧ closed ch0 = false).
Proof.
  intros Hwf Hzk. split.
  - intros Hch Hreg. rewrite (forgetWatch_eq _ _ _ _ Hzk).
    destruct w as [cs chs wc cnt lc lp], conn as [m sid h]. simpl in *.
    unfold set_watchChannels. simpl.
    rewrite !delete_id by done. by rewrite list_insert_id.
  - intros ch Hch Hid.
    assert (Hown : owns w zk watchId ch) by (by exists conn).
    assert (Hreg : watchConns w !! watchId = Some zk)
      by (apply (wf_reg _ Hwf); eauto).
    destruct (wf_live _ Hwf _ _ _ Hown) as (ch0 & Hch0 & Hop & Hempty).
    assert (Hnil : sent ch0 = []).
    { apply Hempty. intros (conn' & Hzk' & Hsid). congruence. }
    pose proof (wf_forget_registered _ _ _ _ _ Hwf Hzk Hid Hch) as Hwf1.
    eexists. split; [by apply forgetWatch_eq|].
    split; [apply lookup_delete_eq|]. split; [by eapply size_delete_S|].
    intros w' Hsteps.
    match type of Hwf1 with wf ?w0 => set (w1 := w0) in * end.
    assert (Hno : ∀ zk' id, ¬ owns w1 zk' id ch).
    { intros zk' id.
      rewrite (owns_insert w w1 zk conn _ Hzk eq_refl). simpl.
      intros [[-> [Hne Hc]%lookup_delete_Some]|[Hne Hc]].
      - apply Hne. apply (wf_alias _ Hwf zk watchId zk id ch); [done|by exists conn].
      - pose proof (wf_alias _ Hwf _ _ _ _ _ Hc Hown) as ->.
        assert (watchConns w !! watchId = Some zk') as H1
          by (apply (wf_reg _ Hwf); eauto). congruence. }
    pose proof (steps_unowned _ _ _ _ Hsteps Hwf1 Hch0 Hnil Hop Hno) as Hch'.
    split; [|eauto].
    unfold recv. rewrite Hch'. unfold chan_recv. by rewrite Hnil, drop_nil, Hop.
Qed.

Lemma forgetWatch_never_closes_the_channel_witness :
  ∃ w1, forgetWatch 0 1 ex_watching = Done tt w1 ∧
        CountPendingWatches w1 = 1%nat ∧ recv 1 w1 = None.
Proof.
  destruct (proj2 (forgetWatch_never_closes_the_channel 0 ex_watching
                     (mkConn {[0%N := 0%nat; 1%N := 1%nat]} 0 (Some 1%nat)) 1
                     (reachable_wf _ reachable_ex_watching) eq_refl) 1%nat)
    as (w1 & Hf & _ & Hcount & Hlater).
  - vm_compute. reflexivity.
  - discriminate.
  - exists w1. split; [exact Hf|]. split.
    + assert (CountPendingWatches ex_watching = 2%nat) as Hc
        by (vm_compute; reflexivity).
      rewrite Hc in Hcount. by injection Hcount.
    + apply (Hlater w1). apply rtc_refl.
Defined.

(** ** RetryChange: the ways out of the loop, and the way back in *)

Section RetryChangeRounds.
Context {R : Type} `{!Runtime R}.

(** A failing read other than no-such-node ends [RetryChange] at once:
    the error of [Get] is returned, the change function is not consulted
    and nothing more is asked of the library. *)
Theorem RetryChange_get_error_returned fuel zk path flags acl
    (changeFunc : ChangeFunc) w (r : R) conn rc cerr data reply r1 :
  conns w !! zk = Some conn →
  zoo_wget (handle conn) path None r = ((rc, cerr, data, reply), r1) →
  rc ≠ ZOK →
  zkError rc cerr ≠ Some (ErrCode ZNONODE) →
  zkError rc cerr ≠ None ∧
  RetryChange (S fuel) zk path flags acl changeFunc w r
    = Done (Returned (zkError rc cerr), r1) w.
Proof.
  intros Hzk Hget Hrc Hnn.
  pose proof (zkError_nonzero rc cerr Hrc) as Herr. split; [done|].
  cbn [RetryChange]. unfold mbind at 1. unfold MR_bind.
  rewrite (Get_eq _ _ _ _ _ _ _ _ _ _ Hzk Hget).
  destruct (Z.eqb_spec rc ZOK) as [|_]; [done|]. simpl.
  destruct (zkError rc cerr) as [e|]; [|done].
  destruct (err_is ZNONODE (Some e)) eqn:He; [by apply err_is_true in He|].
  done.
Qed.

(** When the change function reports an error, or asks for the value the
    node already has, [RetryChange] returns what the function returned
    (the error, or nil) and writes nothing: the library is left in the
    state the read left it in.  On an absent node the function is given
    the empty string and a nil stat, whatever the failed read stored. *)
Theorem RetryChange_stops_without_writing fuel zk path flags acl
    (changeFunc : ChangeFunc) w (r : R) conn rc cerr data reply r1 newValue err :
  conns w !! zk = Some conn →
  zoo_wget (handle conn) path None r = ((rc, cerr, data, reply), r1) →
  rc = ZOK ∨ rc = ZNONODE →
  changeFunc (if rc =? ZOK then data else ""%string)
             (if rc =? ZOK then Some (mkStat reply) else None) = (newValue, err) →
  err ≠ None ∨ (rc = ZOK ∧ newValue = data) →
  RetryChange (S fuel) zk path flags acl changeFunc w r = Done (Returned err, r1) w.
Proof.
  intros Hzk Hget Hrc Hf Hstop.
  cbn [RetryChange]. unfold mbind at 1. unfold MR_bind.
  rewrite (Get_eq _ _ _ _ _ _ _ _ _ _ Hzk Hget).
  destruct Hrc as [-> | ->].
  - change (ZOK =? ZOK) with true in *. simpl. rewrite Hf.
    destruct err as [e|]; [done|]. simpl.
    destruct Hstop as [?|[_ ->]]; [done|]. by rewrite String.eqb_refl.
  - change (ZNONODE =? ZOK) with false in *. simpl. rewrite Hf.
    destruct err as [e|]; [done|]. by destruct Hstop as [?|[? _]].
Qed.

(** One round of the loop on an absent node. *)
Lemma RetryChange_create_round fuel zk path flags acl (changeFunc : ChangeFunc)
    w (r : R) conn cerr0 data reply r1 newValue rc cerr created r2 :
  conns w !! zk = Some conn →
  zoo_wget (handle conn) path None r = ((ZNONODE, cerr0, data, reply), r1) →
  changeFunc ""%string None = (newValue, None) →
  zoo_create (handle conn) path newValue acl (C_int flags) r1
    = ((rc, cerr, created), r2) →
  RetryChange (S fuel) zk path flags acl changeFunc w r =
    if rc =? ZOK then Done (Returned None, r2) w
    else if err_is ZNODEEXISTS (zkError rc cerr)
         then RetryChange fuel zk path flags acl changeFunc w r2
         else Done (Returned (zkError rc cerr), r2) w.
Proof.
  intros Hzk Hget Hf Hcreate. cbn [RetryChange].
  unfold mbind at 1. unfold MR_bind.
  rewrite (Get_eq _ _ _ _ _ _ _ _ _ _ Hzk Hget).
  change (ZNONODE =? ZOK) with false. simpl. rewrite Hf. simpl.
  unfold mbind at 1. unfold MR_bind.
  rewrite (Create_eq _ _ _ _ _ _ _ _ _ _ _ _ Hzk Hcreate).
  destruct (Z.eqb_spec rc ZOK) as [|Hrc]; simpl; [done|].
  pose proof (zkError_nonzero rc cerr Hrc) as Herr.
  destruct (zkError rc cerr) as [e|]; [|done]. simpl.
  destruct e as [c0| |]; try done. by destruct (c0 =? ZNODEEXISTS).
Qed.

(** On an absent node [RetryChange] creates it with the value the change
    function computes from the empty string.  Success returns nil, a node
    that has appeared meanwhile restarts the loop, and any other failure
    of [Create] is returned to the caller as it is. *)
Theorem RetryChange_create_error_returned fuel zk path flags acl
    (changeFunc : ChangeFunc) w (r : R) conn cerr0 data reply r1 newValue
    rc cerr created r2 :
  conns w !! zk = Some conn →
  zoo_wget (handle conn) path None r = ((ZNONODE, cerr0, data, reply), r1) →
  changeFunc ""%string None = (newValue, None) →
  zoo_create (handle conn) path newValue acl (C_int flags) r1
    = ((rc, cerr, created), r2) →
  (rc = ZOK →
   RetryChange (S fuel) zk path flags acl changeFunc w r = Done (Returned None, r2) w) ∧
  (rc = ZNODEEXISTS →
   RetryChange (S fuel) zk path flags acl changeFunc w r
     = RetryChange fuel zk path flags acl changeFunc w r2) ∧
  (rc ≠ ZOK → zkError rc cerr ≠ Some (ErrCode ZNODEEXISTS) →
   zkError rc cerr ≠ None ∧
   RetryChange (S fuel) zk path flags acl changeFunc w r
     = Done (Returned (zkError rc cerr), r2) w).
Proof.
  intros Hzk Hget Hf Hcreate.
  rewrite (RetryChange_create_round _ _ _ _ _ _ _ _ _ _ _ _ _ _ _ _ _ _
             Hzk Hget Hf Hcreate).
  split; [by intros ->|]. split; [by intros ->|].
  intros Hrc Hne. split; [by apply zkError_nonzero|].
  destruct (Z.eqb_spec rc ZOK) as [|_]; [done|].
  destruct (err_is ZNODEEXISTS (zkError rc cerr)) eqn:He;
    [by apply err_is_true in He|].
  done.
Qed.

(** The loop has no bound on its rounds.  Against a library that always
    finds the node and always refuses the version-checked write because
    the node changed or vanished in between, [RetryChange] is still
    looping after any number of rounds, and never returns. *)
Theorem RetryChange_retries_without_bound zk path flags acl
    (changeFunc : ChangeFunc) w conn oldValue reply newValue :
  conns w !! zk = Some conn →
  (∀ r : R, ∃ cerr r1,
     zoo_wget (handle conn) path None r = ((ZOK, cerr, oldValue, reply), r1)) →
  changeFunc oldValue (Some (mkStat reply)) = (newValue, None) →
  newValue ≠ oldValue →
  (∀ r : R, ∃ rc cerr reply2 r2,
     zoo_set2 (handle conn) path newValue (version reply) r = ((rc, cerr, reply2), r2)
     ∧ (rc = ZBADVERSION ∨ rc = ZNONODE)) →
  ∀ fuel (r : R), ∃ r',
    RetryChange fuel zk path flags acl changeFunc w r = Done (StillLooping, r') w.
Proof.
  intros Hzk Hget Hf Hne Hset fuel.
  induction fuel as [|fuel IH]; intros r; [by exists r|].
  destruct (Hget r) as (cerr0 & r1 & Hg).
  destruct (Hset r1) as (rc & cerr & reply2 & r2 & Hs & Hrc).
  destruct (IH r2) as [r' Hr']. exists r'.
  destruct (RetryChange_set_retry fuel _ _ flags acl _ _ _ _ _ _ _ _ _ _ _ _ _
              Hzk Hg Hf Hne Hs) as [_ Hretry].
  by rewrite Hretry.
Qed.
End RetryChangeRounds.

Lemma RetryChange_get_error_returned_witness :
  RetryChange 1 0 "/test" 0 [] (λ _ _, ("two"%string, None)) ex_dialed
    (Script.mk [Script.RGet ZNOAUTH None "" zero_C_Stat] [])
  = Done (Returned (Some (ErrCode ZNOAUTH)),
          Script.mk [] [Script.CGet (Some 1%nat) "/test" None])
         ex_dialed.
Proof.
  refine (proj2 (RetryChange_get_error_returned 0 0 "/test" 0 [] _ ex_dialed _
                   (mkConn {[0%N := 0%nat]} 0 (Some 1%nat)) ZNOAUTH None ""
                   zero_C_Stat _ _ _ _ _)).
  - vm_compute. reflexivity.
  - reflexivity.
  - discriminate.
  - vm_compute. discriminate.
Defined.

Lemma RetryChange_stops_without_writing_witness :
  RetryChange 1 0 "/test" 0 [] (λ oldValue _, (oldValue, None)) ex_dialed
    (Script.mk [Script.RGet ZOK None "one" ex_stat] [])
  = Done (Returned None, Script.mk [] [Script.CGet (Some 1%nat) "/test" None])
         ex_dialed.
Proof.
  refine (RetryChange_stops_without_writing 0 0 "/test" 0 [] _ ex_dialed _
            (mkConn {[0%N := 0%nat]} 0 (Some 1%nat)) ZOK None "one" ex_stat
            _ "one" None _ _ _ _ _).
  - vm_compute. reflexivity.
  - reflexivity.
  - by left.
  - reflexivity.
  - right. done.
Defined.

Lemma RetryChange_create_error_returned_witness :
  RetryChange 1 0 "/test" 0 [] (λ _ _, ("new"%string, None)) ex_dialed
    (Script.mk [Script.RGet ZNONODE None "" zero_C_Stat;
                Script.RCreate ZNOAUTH None ""] [])
  = Done (Returned (Some (ErrCode ZNOAUTH)),
          Script.mk [] [Script.CGet (Some 1%nat) "/test" None;
                        Script.CCreate (Some 1%nat) "/test" "new" [] 0])
         ex_dialed.
Proof.
  destruct (RetryChange_create_error_returned 0 0 "/test" 0 []
              (λ _ _, ("new"%string, None)) ex_dialed
              (Script.mk [Script.RGet ZNONODE None "" zero_C_Stat;
                          Script.RCreate ZNOAUTH None ""] [])
              (mkConn {[0%N := 0%nat]} 0 (Some 1%nat)) None "" zero_C_Stat
              (Script.mk [Script.RCreate ZNOAUTH None ""]
                 [Script.CGet (Some 1%nat) "/test" None])
              "new" ZNOAUTH None ""
              (Script.mk [] [Script.CGet (Some 1%nat) "/test" None;
                             Script.CCreate (Some 1%nat) "/test" "new" [] 0]))
    as (_ & _ & Hfail).
  - vm_compute. reflexivity.
  - reflexivity.
  - reflexivity.
  - reflexivity.
  - apply Hfail; [discriminate|vm_compute; discriminate].
Defined.

Lemma RetryChange_retries_without_bound_witness :
  ∃ calls : nat,
    RetryChange 3 0 "/test" 0 [] (λ _ _, ("new"%string, None)) ex_dialed 0%nat
    = Done (StillLooping, calls) ex_dialed.
Proof.
  apply (RetryChange_retries_without_bound 0 "/test" 0 []
           (λ _ _, ("new"%string, None)) ex_dialed
           (mkConn {[0%N := 0%nat]} 0 (Some 1%nat)) "old" zero_C_Stat "new").
  - vm_compute. reflexivity.
  - intros n. by exists None, (S n).
  - reflexivity.
  - discriminate.
  - intros n. exists ZBADVERSION, None, zero_C_Stat, (S n). split; [reflexivity|by left].
Defined.

(** ** The watch loop *)

(** Notifications for identifiers that are not registered pass through
    the loop without any effect. *)
Lemma watchLoop_unregistered queue w :
  Forall (λ d, watchConns w !! watch_context d = None
               ∧ connection_state d ≠ STATE_CLOSED) queue →
  _watchLoop queue w = Done tt w.
Proof.
  induction 1 as [|d rest [Hreg Hst] _ IH]; [done|].
  cbn [_watchLoop]. unfold mbind, M_bind.
  by rewrite (sendEvent_absent _ (watch_event d) _ Hst Hreg).
Qed.



Section LateNotifications.
Context {R : Type} `{!Runtime R}.

(** Once a connection is closed, whatever the library still reports for
    the watches it held, the session watch included, is dropped: the loop
    neither panics nor changes anything. *)
Theorem notifications_after_Close_are_dropped zk w (r : R) conn h rc cerr r1 queue :
  wf w →
  conns w !! zk = Some conn →
  handle conn = Some h →
  zookeeper_close (Some h) r = ((rc, cerr), r1) →
  Forall (λ d, is_Some (watchChannels conn !! watch_context d)
               ∧ connection_state d ≠ STATE_CLOSED) queue →
  ∃ w1, Close zk w r = Done (zkError rc cerr, r1) w1 ∧
        _watchLoop queue w1 = Done tt w1.
Proof.
  intros Hwf Hzk Hh Hcall Hqueue.
  exists (closed_world zk conn w). split.
  { apply (Close_open_eq _ _ _ _ _ _ _ _ Hzk Hh); [|by eapply wf_conn_open|done].
    by eapply wf_conn_inj. }
  apply watchLoop_unregistered.
  eapply Forall_impl; [exact Hqueue|]. intros d [[ch Hch] Hst]. split; [|done].
  simpl. rewrite delete_all_lookup, decide_True; [done|].
  apply elem_of_map_to_list_fst. eauto.
Qed.
End LateNotifications.

Lemma notifications_after_Close_are_dropped_witness :
  ∃ w1, Close 0 ex_watching (Script.mk [Script.RClose ZOK None] [])
          = Done (None, Script.mk [] [Script.CClose (Some 1%nat)]) w1 ∧
        _watchLoop [mk_watch_data 1 EVENT_CHANGED STATE_CONNECTED "/test";
                    mk_watch_data 0 EVENT_SESSION STATE_EXPIRED_SESSION ""] w1
          = Done tt w1.
Proof.
  apply (notifications_after_Close_are_dropped 0 ex_watching
           (Script.mk [Script.RClose ZOK None] [])
           (mkConn {[0%N := 0%nat; 1%N := 1%nat]} 0 (Some 1%nat)) 1%nat ZOK None
           (Script.mk [] [Script.CClose (Some 1%nat)])
           [mk_watch_data 1 EVENT_CHANGED STATE_CONNECTED "/test";
            mk_watch_data 0 EVENT_SESSION STATE_EXPIRED_SESSION ""]
           (reachable_wf _ reachable_ex_watching)).
  - vm_compute. reflexivity.
  - reflexivity.
  - reflexivity.
  - repeat constructor; (by eexists) || discriminate.
Defined.

(** ** Printing events *)

Ltac state_cases :=
  repeat match goal with
         | |- context [Z.eqb ?a ?b] => destruct (Z.eqb_spec a b)
         end.

Lemma append_assoc (s1 s2 s3 : string) : (s1 +:+ s2) +:+ s3 = s1 +:+ (s2 +:+ s3).
Proof.
  induction s1 as [|a s1 IH]; [done|].
  change (String a ((s1 +:+ s2) +:+ s3) = String a (s1 +:+ s2 +:+ s3)).
  by rewrite IH.
Qed.

(** The text of a session event depends on its state only, and two
    session events print alike exactly when they are in the same state:
    the six known states have six different texts, and an unknown state
    is printed with its number. *)
Theorem Event_String_tells_states_apart e1 e2 :
  Type_ e1 = EVENT_SESSION → Type_ e2 = EVENT_SESSION →
  Event_String e1 = Event_String e2 ↔ State e1 = State e2.
Proof.
  intros H1 H2. unfold Event_String. rewrite H1, H2. simpl.
  split.
  - state_cases; intros Heq; try discriminate Heq; try congruence.
    by apply (inj (String.append _)), (inj pretty) in Heq.
  - by intros ->.
Qed.

Lemma Event_String_tells_states_apart_witness :
  Event_String (mkEvent EVENT_SESSION "/a" STATE_CONNECTING)
    = Event_String (mkEvent EVENT_SESSION "/b" STATE_CONNECTING) ∧
  Event_String (mkEvent EVENT_SESSION "" STATE_CONNECTING)
    ≠ Event_String (mkEvent EVENT_SESSION "" STATE_CONNECTED).
Proof.
  split.
  - apply (Event_String_tells_states_apart
             (mkEvent EVENT_SESSION "/a" STATE_CONNECTING)
             (mkEvent EVENT_SESSION "/b" STATE_CONNECTING)); reflexivity.
  - intros Heq.
    apply (Event_String_tells_states_apart
             (mkEvent EVENT_SESSION "" STATE_CONNECTING)
             (mkEvent EVENT_SESSION "" STATE_CONNECTED)) in Heq;
      [discriminate Heq|reflexivity..].
Defined.

(** For every event that is not a session event the text is that of the
    state, then a semicolon and a space, then what happened, then the
    path.  The test for an empty text before the separator never fails,
    and an event of a type the method does not know, the zeroed event of
    a closed channel among them, is printed with nothing between the
    separator and the path. *)
Theorem Event_String_separator_always_written e :
  Type_ e ≠ EVENT_SESSION →
  ∃ kind,
    Event_String e
      = Event_String (mkEvent EVENT_SESSION "" (State e)) +:+ "; " +:+ kind +:+ Path e ∧
    (kind = "" ↔
       Type_ e ≠ EVENT_CREATED ∧ Type_ e ≠ EVENT_DELETED ∧ Type_ e ≠ EVENT_CHANGED
       ∧ Type_ e ≠ EVENT_CHILD ∧ Type_ e ≠ EVENT_NOTWATCHING).
Proof.
  intros Hty. unfold Event_String. simpl.
  destruct (Z.eqb_spec (Type_ e) (-1)) as [|_]; [done|].
  destruct (Z.eqb_spec (Type_ e) EVENT_SESSION) as [|_]; [done|]. simpl.
  set (s := if State e =? STATE_EXPIRED_SESSION then _ else _).
  assert (Hs : String.eqb s "" = false).
  { apply String.eqb_neq. subst s. state_cases; done. }
  rewrite Hs. simpl.
  destruct (Z.eqb_spec (Type_ e) EVENT_CREATED) as [Ht|?];
    [exists "path created: "; split;
       [by rewrite !append_assoc|split; [done|by intros (?&_)]]|].
  destruct (Z.eqb_spec (Type_ e) EVENT_DELETED) as [Ht|?];
    [exists "path deleted: "; split;
       [by rewrite !append_assoc|split; [done|by intros (_&?&_)]]|].
  destruct (Z.eqb_spec (Type_ e) EVENT_CHANGED) as [Ht|?];
    [exists "path changed: "; split;
       [by rewrite !append_assoc|split; [done|by intros (_&_&?&_)]]|].
  destruct (Z.eqb_spec (Type_ e) EVENT_CHILD) as [Ht|?];
    [exists "path children changed: "; split;
       [by rewrite !append_assoc|split; [done|by intros (_&_&_&?&_)]]|].
  destruct (Z.eqb_spec (Type_ e) EVENT_NOTWATCHING) as [Ht|?];
    [exists "not watching: "; split;
       [by rewrite !append_assoc|split; [done|by intros (_&_&_&_&?)]]|].
  exists "". split; [by rewrite !append_assoc|done].
Qed.

Lemma Event_String_separator_always_written_witness :
  Event_String zero_Event = "Conn connection closed; ".
Proof.
  destruct (Event_String_separator_always_written zero_Event) as (kind & -> & Hkind);
    [discriminate|].
  assert (kind = "") as -> by (apply Hkind; repeat split; discriminate).
  reflexivity.
Defined.

(** ** What the plain operations return *)

Section ResultShape.
Context {R : Type} `{!Runtime R}.

Lemma Children_eq zk path w (r : R) conn rc cerr names reply r' :
  conns w !! zk = Some conn →
  zoo_wget_children2 (handle conn) path None r = ((rc, cerr, names, reply), r') →
  Children zk path w r =
    let children := if (length names =? 0)%nat then [] else names in
    Done (if rc =? ZOK then (children, Some (mkStat reply), None)
          else (children, None, zkError rc cerr), r') w.
Proof.
  intros Hzk Hcall. unfold Children. munfold. unfold get_conn.
  rewrite Hzk, Hcall. simpl. by destruct (rc =? ZOK).
Qed.

Lemma Children_nil zk path w (r : R) :
  conns w !! zk = None → ∃ msg, Children zk path w r = Panic msg.
Proof.
  intros Hzk. unfold Children. munfold. unfold get_conn. rewrite Hzk. eauto.
Qed.

(** [Get], [Children], [Exists], [Create], [Set] and [RetryChange]
    leave the connections, the registry and the channels as they are,
    whatever the library replies.  What they return is a value or an
    error, never both and, except for [Exists] on an absent node, never
    neither: the error is nil exactly when a stat is returned, and with
    an error the data and the created path are empty. *)
Theorem plain_operations_return_value_or_error zk path value flags aclv version
    w (r : R) :
  (∀ data stat err r' w', Get zk path w r = Done (data, stat, err, r') w' →
     w' = w ∧ (err = None ↔ stat ≠ None) ∧ (err ≠ None → data = "")) ∧
  (∀ children stat err r' w',
     Children zk path w r = Done (children, stat, err, r') w' →
     w' = w ∧ (err = None ↔ stat ≠ None)) ∧
  (∀ stat err r' w', Exists zk path w r = Done (stat, err, r') w' →
     w' = w ∧ (err ≠ None → stat = None)) ∧
  (∀ created err r' w',
     Create zk path value flags aclv w r = Done (created, err, r') w' →
     w' = w ∧ (err ≠ None → created = "")) ∧
  (∀ stat err r' w', Set_ zk path value version w r = Done (stat, err, r') w' →
     w' = w ∧ (err = None ↔ stat ≠ None)) ∧
  (∀ fuel changeFunc res w',
     RetryChange fuel zk path flags aclv changeFunc w r = Done res w' → w' = w).
Proof.
  split; [|split; [|split; [|split; [|split]]]].
  - intros data stat err r' w' Hget.
    pose proof (Get_world _ _ _ _ _ _ Hget) as ->. split; [done|].
    destruct (conns w !! zk) as [conn|] eqn:Hzk; last first.
    { unfold Get in Hget. munfold. unfold get_conn in Hget. by rewrite Hzk in Hget. }
    destruct (zoo_wget (handle conn) path None r)
      as [[[[rc cerr] data0] reply] r0] eqn:Hcall.
    rewrite (Get_eq _ _ _ _ _ _ _ _ _ _ Hzk Hcall) in Hget.
    destruct (Z.eqb_spec rc ZOK) as [|Hrc]; injection Hget as <- <- <- <-.
    + done.
    + pose proof (zkError_nonzero rc cerr Hrc). done.
  - intros children stat err r' w' Hch.
    destruct (conns w !! zk) as [conn|] eqn:Hzk; last first.
    { destruct (Children_nil zk path w r Hzk) as [msg Hp]. congruence. }
    destruct (zoo_wget_children2 (handle conn) path None r)
      as [[[[rc cerr] names] reply] r0] eqn:Hcall.
    rewrite (Children_eq _ _ _ _ _ _ _ _ _ _ Hzk Hcall) in Hch. simpl in Hch.
    destruct (Z.eqb_spec rc ZOK) as [|Hrc]; injection Hch as <- <- <- <- <-.
    + done.
    + pose proof (zkError_nonzero rc cerr Hrc). done.
  - intros stat err r' w' Hex.
    pose proof (Exists_world _ _ _ _ _ _ Hex) as ->. split; [done|].
    destruct (conns w !! zk) as [conn|] eqn:Hzk; last first.
    { unfold Exists in Hex. munfold. unfold get_conn in Hex. by rewrite Hzk in Hex. }
    destruct (zoo_wexists (handle conn) path None r)
      as [[[rc cerr] reply] r0] eqn:Hcall.
    rewrite (Exists_eq _ _ _ _ _ _ _ _ _ Hzk Hcall) in Hex.
    destruct (rc =? ZOK); [by injection Hex as <- <- <-|].
    destruct (rc =? ZNONODE); by injection Hex as <- <- <-.
  - intros created err r' w' Hcr.
    pose proof (Create_world _ _ _ _ _ _ _ _ _ Hcr) as ->. split; [done|].
    destruct (conns w !! zk) as [conn|] eqn:Hzk; last first.
    { unfold Create in Hcr. munfold. unfold get_conn in Hcr. by rewrite Hzk in Hcr. }
    destruct (zoo_create (handle conn) path value aclv (C_int flags) r)
      as [[[rc cerr] created0] r0] eqn:Hcall.
    rewrite (Create_eq _ _ _ _ _ _ _ _ _ _ _ _ Hzk Hcall) in Hcr.
    destruct (rc =? ZOK); by injection Hcr as <- <- <-.
  - intros stat err r' w' Hset.
    pose proof (Set_world _ _ _ _ _ _ _ _ Hset) as ->. split; [done|].
    destruct (conns w !! zk) as [conn|] eqn:Hzk; last first.
    { unfold Set_ in Hset. munfold. unfold get_conn in Hset. by rewrite Hzk in Hset. }
    destruct (zoo_set2 (handle conn) path value version r)
      as [[[rc cerr] reply] r0] eqn:Hcall.
    rewrite (Set_eq _ _ _ _ _ _ _ _ _ _ _ Hzk Hcall) in Hset.
    destruct (Z.eqb_spec rc ZOK) as [|Hrc]; injection Hset as <- <- <-.
    + done.
    + pose proof (zkError_nonzero rc cerr Hrc). done.
  - intros fuel changeFunc [res r'] w' Hrun.
    by eapply RetryChange_world.
Qed.
End ResultShape.

Lemma plain_operations_return_value_or_error_witness :
  Get 0 "/test" ex_watching (Script.mk [Script.RGet ZNONODE None "junk" ex_stat] [])
    = Done (""%string, None, Some (ErrCode ZNONODE),
            Script.mk [] [Script.CGet (Some 1%nat) "/test" None]) ex_watching
  ∧ (Some (ErrCode ZNONODE) ≠ None → ""%string = ""%string).
Proof.
  assert (Hget :
    Get 0 "/test" ex_watching (Script.mk [Script.RGet ZNONODE None "junk" ex_stat] [])
    = Done (""%string, None, Some (ErrCode ZNONODE),
            Script.mk [] [Script.CGet (Some 1%nat) "/test" None]) ex_watching)
    by (vm_compute; reflexivity).
  split; [exact Hget|].
  destruct (plain_operations_return_value_or_error 0 "/test" "" 0 [] 0 ex_watching
              (Script.mk [Script.RGet ZNONODE None "junk" ex_stat] []))
    as (Hshape & _).
  exact (proj2 (proj2 (Hshape _ _ _ _ _ Hget))).
Defined.

(** ** Strings and ACL vectors across the C boundary *)

Lemma GoString_app_zero p q :
  Ascii.zero ∉ p → C.GoString (p ++ Ascii.zero :: q) = string_of_list_ascii p.
Proof.
  induction p as [|a p IH]; intros Hnul; [done|].
  apply not_elem_of_cons in Hnul as [Hne Hnul]. simpl.
  destruct (Ascii.eqb_spec a Ascii.zero) as [->|_]; [done|].
  by rewrite IH.
Qed.

Lemma GoString_CString s :
  Ascii.zero ∉ list_ascii_of_string s → C.GoString (C.CString s) = s.
Proof.
  intros Hnul. unfold C.CString.
  rewrite GoString_app_zero by done. apply string_of_list_ascii_of_string.
Qed.

(** A Go string survives the way to C and back exactly when it holds no
    NUL byte; one that does comes back cut off before its first NUL. *)
Theorem GoString_CString_cuts_at_NUL s :
  (C.GoString (C.CString s) = s ↔ Ascii.zero ∉ list_ascii_of_string s) ∧
  (∀ s1 s2, Ascii.zero ∉ list_ascii_of_string s1 →
     s = s1 +:+ String Ascii.zero s2 → C.GoString (C.CString s) = s1).
Proof.
  assert (Hcut : ∀ s1 s2, Ascii.zero ∉ list_ascii_of_string s1 →
            C.GoString (C.CString (s1 +:+ String Ascii.zero s2)) = s1).
  { intros s1 s2 Hnul. unfold C.CString.
    assert (list_ascii_of_string (s1 +:+ String Ascii.zero s2)
            = list_ascii_of_string s1 ++ Ascii.zero :: list_ascii_of_string s2) as ->.
    { clear Hnul. induction s1 as [|a s1 IH]; [done|].
      change (a :: list_ascii_of_string (s1 +:+ String Ascii.zero s2)
              = a :: (list_ascii_of_string s1 ++ Ascii.zero :: list_ascii_of_string s2)).
      by rewrite IH. }
    rewrite <- app_assoc. simpl.
    rewrite GoString_app_zero by done. apply string_of_list_ascii_of_string. }
  split; [|by intros s1 s2 Hnul ->; apply Hcut].
  split.
  - intros Hrt Hin. induction s as [|a s IH]; [by apply elem_of_nil in Hin|].
    unfold C.CString in Hrt. simpl in Hrt, Hin.
    destruct (Ascii.eqb_spec a Ascii.zero) as [->|Hne]; [done|].
    apply elem_of_cons in Hin as [?|Hin]; [done|].
    injection Hrt as Hrt. by apply IH.
  - apply GoString_CString.
Qed.

Lemma GoString_CString_cuts_at_NUL_witness :
  C.GoString (C.CString ("digest" +:+ String Ascii.zero "tail")) = "digest".
Proof.
  apply (proj2 (GoString_CString_cuts_at_NUL
                  ("digest" +:+ String Ascii.zero "tail")) "digest" "tail").
  - vm_compute. intros Hin. repeat (apply elem_of_cons in Hin as [Hin|Hin];
      [discriminate Hin|]). by apply elem_of_nil in Hin.
  - reflexivity.
Defined.

(** An ACL list built into a C vector and parsed back is the list itself,
    provided it has fewer than [2^31] entries, the permissions fit 32
    bits and no scheme or id holds a NUL byte. *)
Theorem ACL_vector_round_trip aclv :
  Z.of_nat (length aclv) < 2 ^ 31 →
  Forall (λ acl, (0 ≤ Perms acl < 2 ^ 32)
                 ∧ (Ascii.zero ∉ list_ascii_of_string (Scheme acl))
                 ∧ (Ascii.zero ∉ list_ascii_of_string (Id acl))) aclv →
  ∃ caclv, buildACLVector true aclv = Some caclv ∧
           parseACLVector caclv = Some aclv.
Proof.
  intros Hlen Hall. eexists. split; [reflexivity|].
  unfold parseACLVector. simpl.
  assert (C.int32_t (Z.of_nat (length aclv)) = Z.of_nat (length aclv)) as ->.
  { unfold C.int32_t. rewrite Z.mod_small by lia. lia. }
  destruct (Z.ltb_spec (Z.of_nat (length aclv)) 0) as [?|_]; [lia|].
  rewrite Nat2Z.id. apply mapM_Some.
  apply Forall2_same_length_lookup_2; [by rewrite length_seq|].
  intros i j acl [-> Hi]%lookup_seq Hacl. simpl.
  rewrite list_lookup_fmap, Hacl. simpl.
  rewrite Forall_lookup in Hall.
  destruct (Hall _ _ Hacl) as (Hperms & Hscheme & Hid).
  destruct acl as [p sch ident]. simpl in *. f_equal. f_equal.
  - unfold uint32, C.int32_t.
    destruct (Z.lt_ge_cases p (2 ^ 31)).
    + rewrite (Z.mod_small (p + 2 ^ 31)) by lia.
      rewrite Z.mod_small by lia. lia.
    + replace (p + 2 ^ 31) with (p - 2 ^ 31 + 1 * 2 ^ 32) by lia.
      rewrite Z_mod_plus_full, (Z.mod_small (p - 2 ^ 31)) by lia.
      replace (p - 2 ^ 31 - 2 ^ 31) with (p + (-1) * 2 ^ 32) by lia.
      rewrite Z_mod_plus_full. apply Z.mod_small. lia.
  - by apply GoString_CString.
  - by apply GoString_CString.
Qed.

Lemma ACL_vector_round_trip_witness :
  ∃ caclv, buildACLVector true (WorldACL 31 ++ AuthACL 4294967295) = Some caclv ∧
           parseACLVector caclv = Some (WorldACL 31 ++ AuthACL 4294967295).
Proof.
  apply (ACL_vector_round_trip (WorldACL 31 ++ AuthACL 4294967295)).
  - simpl. lia.
  - repeat constructor; simpl; try lia;
      intros Hin; repeat (apply elem_of_cons in Hin as [Hin|Hin];
        [discriminate Hin|]); by apply elem_of_nil in Hin.
Defined.

(** ** The server's run directory *)

Lemma list_ascii_of_string_app s1 s2 :
  list_ascii_of_string (s1 +:+ s2) = list_ascii_of_string s1 ++ list_ascii_of_string s2.
Proof.
  induction s1 as [|a s1 IH]; [done|].
  change (a :: list_ascii_of_string (s1 +:+ s2)
          = a :: (list_ascii_of_string s1 ++ list_ascii_of_string s2)).
  by rewrite IH.
Qed.

Section ServerFiles.
Context {F : Type} `{!ZkServer.FileSystem F}.

Lemma readInstallDir_of_data (srv : ZkServer.Server) (fs : F) data :
  ZkServer.ReadFile (ZkServer.path srv "installdir.txt") fs = (data, None) →
  ZkServer.readInstallDir srv fs =
    match last (list_ascii_of_string data) with
    | None => ZkServer.Panics "index out of range"
    | Some b =>
      ZkServer.Returns
        (ZkServer.mkServer (ZkServer.runDir srv)
           (string_of_list_ascii
              (if Ascii.eqb b "010"
               then take (length (list_ascii_of_string data) - 1)
                         (list_ascii_of_string data)
               else list_ascii_of_string data)), None)
    end.
Proof. intros Hread. unfold ZkServer.readInstallDir. by rewrite Hread. Qed.

(** A server attached to a run directory that [CreateServer] has just
    set up is the server [CreateServer] returned: the install directory
    written there is read back as it was given, whatever bytes it holds.
    The file system is any one in which a file that was written reads
    back with the data written. *)
Theorem AttachServer_after_CreateServer port runDir zkDir (fs fs' : F) srv :
  (∀ name data perm fs0 fs1,
     ZkServer.WriteFile name data perm fs0 = (None, fs1) →
     ZkServer.ReadFile name fs1 = (data, None)) →
  ZkServer.CreateServer port runDir zkDir fs = ((Some srv, None), fs') →
  srv = ZkServer.mkServer runDir zkDir ∧
  ZkServer.AttachServer runDir fs' = ZkServer.Returns (Some srv, None).
Proof.
  intros Hlaw. unfold ZkServer.CreateServer.
  destruct (ZkServer.Mkdir runDir 511 fs) as [[e0|] fs0]; [done|]. simpl.
  destruct (ZkServer.writeLog4JConfig _ fs0) as [[e1|] fs1]; [done|]. simpl.
  destruct (ZkServer.writeZooKeeperConfig _ port fs1) as [[e2|] fs2]; [done|]. simpl.
  destruct (ZkServer.writeInstallDir _ fs2) as [[e3|] fs3] eqn:Hwrite; [done|]. simpl.
  intros [= <- <-]. split; [done|].
  apply Hlaw in Hwrite. unfold ZkServer.AttachServer.
  rewrite (readInstallDir_of_data (ZkServer.mkServer runDir "") fs3 _ Hwrite).
  rewrite list_ascii_of_string_app. simpl.
  rewrite last_snoc. simpl.
  rewrite length_app. simpl.
  replace (length (list_ascii_of_string zkDir) + 1 - 1)%nat
    with (length (list_ascii_of_string zkDir)) by lia.
  rewrite take_app_length. by rewrite string_of_list_ascii_of_string.
Qed.

(** [AttachServer] takes the install directory to be the contents of
    [installdir.txt] less one trailing newline.  A file without the
    newline is accepted as it is, only one newline is removed, and an
    empty file is not reported as an error: indexing its last byte
    panics. *)
Theorem AttachServer_strips_one_newline runDir (fs : F) data :
  ZkServer.ReadFile (ZkServer.Join runDir "installdir.txt") fs = (data, None) →
  (data = "" → ZkServer.AttachServer runDir fs = ZkServer.Panics "index out of range") ∧
  (∀ dir, data = dir +:+ ZkServer.nl →
     ZkServer.AttachServer runDir fs
       = ZkServer.Returns (Some (ZkServer.mkServer runDir dir), None)) ∧
  (∀ s b, data = s +:+ String b "" → b ≠ "010"%char →
     ZkServer.AttachServer runDir fs
       = ZkServer.Returns (Some (ZkServer.mkServer runDir data), None)).
Proof.
  intros Hread. unfold ZkServer.AttachServer.
  rewrite (readInstallDir_of_data (ZkServer.mkServer runDir "") fs _ Hread).
  split; [by intros ->|]. split.
  - intros dir ->. rewrite list_ascii_of_string_app. simpl.
    rewrite last_snoc. simpl. rewrite length_app. simpl.
    replace (length (list_ascii_of_string dir) + 1 - 1)%nat
      with (length (list_ascii_of_string dir)) by lia.
    rewrite take_app_length. by rewrite string_of_list_ascii_of_string.
  - intros s b -> Hb.
    assert (Hl : list_ascii_of_string (s +:+ String b "")
                 = list_ascii_of_string s ++ [b])
      by apply list_ascii_of_string_app.
    rewrite Hl, last_snoc.
    destruct (Ascii.eqb_spec b "010") as [|_]; [done|].
    by rewrite <- Hl, string_of_list_ascii_of_string.
Qed.
End ServerFiles.

Lemma AttachServer_after_CreateServer_witness :
  ∃ fs', ZkServer.CreateServer 2181 "/tmp/run" "/opt/zookeeper" (∅ : gmap string string)
           = ((Some (ZkServer.mkServer "/tmp/run" "/opt/zookeeper"), None), fs') ∧
         ZkServer.AttachServer "/tmp/run" fs'
           = ZkServer.Returns (Some (ZkServer.mkServer "/tmp/run" "/opt/zookeeper"), None).
Proof.
  eexists. split; [reflexivity|].
  eapply (AttachServer_after_CreateServer 2181 "/tmp/run" "/opt/zookeeper" ∅).
  - intros name data perm fs0 fs1 [= <-]. simpl. by rewrite lookup_insert_eq.
  - reflexivity.
Defined.

Lemma AttachServer_strips_one_newline_witness :
  ZkServer.AttachServer "/tmp/run"
    ({["/tmp/run/installdir.txt" := ""]} : gmap string string)
  = ZkServer.Panics "index out of range".
Proof.
  apply (AttachServer_strips_one_newline "/tmp/run"
           ({["/tmp/run/installdir.txt" := ""]} : gmap string string) "").
  - vm_compute. reflexivity.
  - reflexivity.
Defined.

(** ** The system class path *)

Lemma systemClassPath_skips before lines :
  Forall (λ line, ZkServer.HasPrefix line (list_ascii_of_string "CLASSPATH=") = false)
    before →
  ZkServer.systemClassPath_lines (before ++ lines) = ZkServer.systemClassPath_lines lines.
Proof.
  induction 1 as [|line before Hline _ IH]; [done|].
  change ((line :: before) ++ lines) with (line :: (before ++ lines)).
  cbn [ZkServer.systemClassPath_lines]. rewrite Hline. cbn [negb]. exact IH.
Qed.

Lemma TrimLeft_all s cutset :
  Forall (λ b, b ∈ cutset) s → ZkServer.TrimLeft s cutset = [].
Proof.
  induction 1 as [|b s Hb _ IH]; [done|]. simpl. by rewrite bool_decide_true.
Qed.

Lemma Trim_quoted body cutset :
  "034"%char ∉ cutset →
  ZkServer.Trim ("034"%char :: body ++ ["034"%char]) cutset
    = "034"%char :: body ++ ["034"%char].
Proof.
  intros Hq. unfold ZkServer.Trim. simpl.
  rewrite bool_decide_false by done.
  rewrite reverse_cons, reverse_app. simpl.
  rewrite bool_decide_false by done.
  rewrite app_comm_cons, reverse_app. simpl.
  by rewrite reverse_cons, reverse_involutive.
Qed.

Lemma Split_nonempty s sep : ZkServer.Split s sep ≠ [].
Proof.
  induction s as [|a s IH]; [done|]. simpl.
  destruct (Ascii.eqb a sep); [done|].
  by destruct (ZkServer.Split s sep).
Qed.

Lemma Split_no_sep s sep : sep ∉ s → ZkServer.Split s sep = [s].
Proof.
  induction s as [|a s IH]; [done|].
  intros [Hne Hs]%not_elem_of_cons. simpl.
  destruct (Ascii.eqb_spec a sep) as [->|_]; [done|].
  by rewrite IH.
Qed.

Lemma Split_app_sep s1 s2 sep :
  sep ∉ s1 → ZkServer.Split (s1 ++ sep :: s2) sep = s1 :: ZkServer.Split s2 sep.
Proof.
  induction s1 as [|a s1 IH]; intros Hs.
  - simpl. by rewrite Ascii.eqb_refl.
  - apply not_elem_of_cons in Hs as [Hne Hs]. simpl.
    destruct (Ascii.eqb_spec a sep) as [->|_]; [done|].
    by rewrite IH.
Qed.

Lemma Split_Join x l sep :
  Forall (λ s, sep ∉ s) (x :: l) →
  ZkServer.Split (ZkServer.strings_Join (x :: l) sep) sep = x :: l.
Proof.
  revert x. induction l as [|y l IH]; intros x Hall.
  - simpl. apply Split_no_sep. by inversion Hall.
  - inversion Hall as [|? ? Hx Hrest]; subst.
    change (ZkServer.strings_Join (x :: y :: l) sep)
      with (x ++ sep :: ZkServer.strings_Join (y :: l) sep).
    rewrite Split_app_sep by done. by rewrite IH.
Qed.

(** A [CLASSPATH=] line whose value is blank does not make
    [systemClassPath] report an empty class path: testing the first byte
    of the trimmed value panics.  Lines before it that do not start with
    [CLASSPATH=] are skipped, lines after it are never read. *)
Theorem systemClassPath_blank_value_panics before blanks rest :
  Forall (λ line, ZkServer.HasPrefix line (list_ascii_of_string "CLASSPATH=") = false)
    before →
  Forall (λ b, b ∈ [" "; "009"; "013"]%char) blanks →
  ZkServer.systemClassPath
    (Some (before
           ++ (list_ascii_of_string "CLASSPATH=" ++ blanks ++ ["010"%char]) :: rest))
    None
  = ZkServer.Panics "index out of range".
Proof.
  intros Hbefore Hblanks. unfold ZkServer.systemClassPath.
  rewrite (systemClassPath_skips _ _ Hbefore).
  change (list_ascii_of_string "CLASSPATH=") with
    ["C"; "L"; "A"; "S"; "S"; "P"; "A"; "T"; "H"; "="]%char.
  cbn [ZkServer.systemClassPath_lines].
  change (list_ascii_of_string "CLASSPATH=") with
    ["C"; "L"; "A"; "S"; "S"; "P"; "A"; "T"; "H"; "="]%char.
  cbn [app ZkServer.HasPrefix Ascii.eqb Bool.eqb andb negb length drop].
  rewrite length_app. cbn [length].
  destruct (Nat.ltb_spec (S (S (S (S (S (S (S (S (S (S (length blanks + 1))))))))))) 11)
    as [?|_]; [lia|].
  replace (S (S (S (S (S (S (S (S (S (S (length blanks + 1)))))))))) - 1 - 10)%nat
    with (length blanks) by lia.
  rewrite drop_0, take_app_length.
  unfold ZkServer.Trim.
  change (list_ascii_of_string (String " " (String "009" (String "013" ""))))
    with [" "; "009"; "013"]%char.
  rewrite (TrimLeft_all _ _ Hblanks). done.
Qed.

Lemma systemClassPath_blank_value_panics_witness :
  ZkServer.systemClassPath
    (Some [list_ascii_of_string ("# settings" +:+ ZkServer.nl);
           list_ascii_of_string ("CLASSPATH=  " +:+ ZkServer.nl);
           list_ascii_of_string ("CLASSPATH=/usr/share/java/zookeeper.jar" +:+ ZkServer.nl)])
    None
  = ZkServer.Panics "index out of range".
Proof.
  apply (systemClassPath_blank_value_panics
           [list_ascii_of_string ("# settings" +:+ ZkServer.nl)]
           [" "; " "]%char
           [list_ascii_of_string ("CLASSPATH=/usr/share/java/zookeeper.jar" +:+ ZkServer.nl)]).
  - repeat constructor.
  - repeat constructor.
Defined.

(** The first [CLASSPATH=] line decides.  When its value is the quoted,
    colon-separated list that starts with [$ZOOCFGDIR], the class path is
    the rest of the list, in order; when nothing follows [$ZOOCFGDIR] the
    class path is reported empty. *)
Theorem systemClassPath_reads_quoted_list before jars rest :
  Forall (λ line, ZkServer.HasPrefix line (list_ascii_of_string "CLASSPATH=") = false)
    before →
  Forall (λ jar, ":"%char ∉ list_ascii_of_string jar) jars →
  ZkServer.systemClassPath
    (Some (before
           ++ (list_ascii_of_string "CLASSPATH=" ++ "034"%char
                 :: ZkServer.strings_Join
                      (list_ascii_of_string <$> ("$ZOOCFGDIR"%string :: jars)) ":"
                 ++ ["034"; "010"]%char) :: rest))
    None
  = if decide (jars = [])
    then ZkServer.Returns
           (None, Some (ZkServer.Errorf_q "empty class path in %q"
                          ZkServer.zookeeperEnviron))
    else ZkServer.Returns (Some jars, None).
Proof.
  intros Hbefore Hjars. unfold ZkServer.systemClassPath.
  rewrite (systemClassPath_skips _ _ Hbefore).
  set (body := ZkServer.strings_Join _ _).
  change (list_ascii_of_string "CLASSPATH=") with
    ["C"; "L"; "A"; "S"; "S"; "P"; "A"; "T"; "H"; "="]%char.
  cbn [ZkServer.systemClassPath_lines].
  change (list_ascii_of_string "CLASSPATH=") with
    ["C"; "L"; "A"; "S"; "S"; "P"; "A"; "T"; "H"; "="]%char.
  cbn [app ZkServer.HasPrefix Ascii.eqb Bool.eqb andb negb length drop].
  rewrite length_app. cbn [length].
  destruct (Nat.ltb_spec
              (S (S (S (S (S (S (S (S (S (S (S (length body + 2)))))))))))) 11)
    as [?|_]; [lia|].
  replace (S (S (S (S (S (S (S (S (S (S (S (length body + 2))))))))))) - 1 - 10)%nat
    with (length ("034"%char :: body ++ ["034"%char])) by (simpl; rewrite length_app; simpl; lia).
  replace ("034"%char :: body ++ ["034"; "010"]%char)
    with (("034"%char :: body ++ ["034"%char]) ++ ["010"%char])
    by (simpl; by rewrite <- app_assoc).
  rewrite ?drop_0, take_app_length.
  change (list_ascii_of_string (String " " (String "009" (String "013" ""))))
    with [" "; "009"; "013"]%char.
  rewrite Trim_quoted; last first.
  { intros Hin. repeat (apply elem_of_cons in Hin as [Hin|Hin]; [discriminate Hin|]).
    by apply elem_of_nil in Hin. }
  cbn [Ascii.eqb Bool.eqb andb length drop].
  rewrite length_app. cbn [length].
  destruct (Nat.ltb_spec (S (length body + 1)) 2) as [?|_].
  { assert (length body = 0%nat) as Hlen by lia. subst body.
    destruct jars; simpl in Hlen; discriminate Hlen. }
  replace (S (length body + 1) - 1 - 1)%nat with (length body) by lia.
  rewrite drop_0, take_app_length. subst body.
  rewrite fmap_cons, Split_Join; last first.
  { constructor.
    - intros Hin. repeat (apply elem_of_cons in Hin as [Hin|Hin]; [discriminate Hin|]).
      by apply elem_of_nil in Hin.
    - by apply Forall_fmap. }
  rewrite string_of_list_ascii_of_string. cbn [String.eqb Ascii.eqb Bool.eqb andb].
  destruct jars as [|jar jars]; [done|].
  rewrite decide_False by done. cbn [length fmap list_fmap Nat.eqb].
  f_equal. f_equal. f_equal.
  rewrite <- list_fmap_compose, string_of_list_ascii_of_string. f_equal.
  clear. induction jars as [|s jars IH]; [done|].
  rewrite fmap_cons, IH. simpl. by rewrite string_of_list_ascii_of_string.
Qed.

Lemma systemClassPath_reads_quoted_list_witness :
  ZkServer.systemClassPath
    (Some [list_ascii_of_string ("# settings" +:+ ZkServer.nl);
           list_ascii_of_string "CLASSPATH=" ++ "034"%char
             :: ZkServer.strings_Join
                  (list_ascii_of_string <$> ["$ZOOCFGDIR"; "/usr/share/java/zookeeper.jar";
                                             "/usr/share/java/log4j.jar"]%string) ":"
             ++ ["034"; "010"]%char])
    None
  = ZkServer.Returns
      (Some ["/usr/share/java/zookeeper.jar"; "/usr/share/java/log4j.jar"]%string, None).
Proof.
  apply (systemClassPath_reads_quoted_list
           [list_ascii_of_string ("# settings" +:+ ZkServer.nl)]
           ["/usr/share/java/zookeeper.jar"; "/usr/share/java/log4j.jar"]%string []).
  - repeat constructor.
  - repeat constructor; vm_compute; intros Hin;
      repeat (apply elem_of_cons in Hin as [Hin|Hin]; [discriminate Hin|]);
      by apply elem_of_nil in Hin.
Defined.

(** ** Close wakes up whoever waits on the connection's channels *)

Section CloseChannels.
Context {R : Type} `{!Runtime R}.

(** [Close] closes every channel the connection had registered and
    takes nothing out of it: events sent before and not yet read can
    still be read, and after them the channel yields the zeroed event.  A
    one-shot watch that never fired yields it at once. *)
Theorem Close_closes_watch_channels zk w (r : R) conn h rc cerr r1 :
  wf w →
  conns w !! zk = Some conn →
  handle conn = Some h →
  zookeeper_close (Some h) r = ((rc, cerr), r1) →
  ∃ w1, Close zk w r = Done (zkError rc cerr, r1) w1 ∧
    ∀ watchId ch, watchChannels conn !! watchId = Some ch →
      ∃ ch0, chans w !! ch = Some ch0 ∧ closed ch0 = false ∧
        chans w1 !! ch = Some (mkChan (cap ch0) (sent ch0) (rcvd ch0) true) ∧
        (watchId ≠ sessionWatchId conn →
         ∃ w2, recv ch w1 = Some (zero_Event, false, w2)).
Proof.
  intros Hwf Hzk Hh Hcall.
  exists (closed_world zk conn w). split.
  { apply (Close_open_eq _ _ _ _ _ _ _ _ Hzk Hh); [|by eapply wf_conn_open|done].
    by eapply wf_conn_inj. }
  intros watchId ch Hch.
  assert (Hown : owns w zk watchId ch) by (by exists conn).
  destruct (wf_live _ Hwf _ _ _ Hown) as (ch0 & Hch0 & Hop & Hempty).
  exists ch0. split; [done|]. split; [done|].
  assert (Hch1 : chans (closed_world zk conn w) !! ch
                 = Some (mkChan (cap ch0) (sent ch0) (rcvd ch0) true)).
  { simpl. rewrite shut_all_lookup, decide_True, Hch0; [done|].
    apply elem_of_map_to_list_snd. eauto. }
  split; [done|].
  intros Hid.
  assert (Hnil : sent ch0 = []).
  { apply Hempty. intros (conn' & Hzk' & Hsid). congruence. }
  eexists. unfold recv. rewrite Hch1. unfold chan_recv. simpl.
  rewrite Hnil, drop_nil. reflexivity.
Qed.
End CloseChannels.

Lemma Close_closes_watch_channels_witness :
  ∃ w1 w2, Close 0 ex_watching (Script.mk [Script.RClose ZOK None] [])
             = Done (None, Script.mk [] [Script.CClose (Some 1%nat)]) w1 ∧
           recv 1 w1 = Some (zero_Event, false, w2).
Proof.
  destruct (Close_closes_watch_channels 0 ex_watching
              (Script.mk [Script.RClose ZOK None] [])
              (mkConn {[0%N := 0%nat; 1%N := 1%nat]} 0 (Some 1%nat)) 1%nat ZOK None
              (Script.mk [] [Script.CClose (Some 1%nat)])
              (reachable_wf _ reachable_ex_watching))
    as (w1 & Hclose & Hchans).
  - vm_compute. reflexivity.
  - reflexivity.
  - reflexivity.
  - destruct (Hchans 1%N 1%nat) as (ch0 & _ & _ & _ & Hrecv).
    + vm_compute. reflexivity.
    + destruct Hrecv as [w2 Hrecv]; [discriminate|].
      exists w1, w2. split; [exact Hclose|exact Hrecv].
Defined.

(** ** What dial asks of the library *)

(** [dial] never panics and calls [zookeeper_init] exactly once,
    whatever the registry holds and whatever the library replies: with
    the servers and the client id it was given, with the fresh watch
    identifier as context, and with the receive timeout in milliseconds:
    the nanoseconds divided by a million and truncated toward zero, for
    every timeout, negative ones included, whose milliseconds fit a C
    [int]. *)
Theorem dial_passes_timeout_in_milliseconds servers ns clientId w replies calls :
  - 2 ^ 31 * 1000000 ≤ ns < 2 ^ 31 * 1000000 →
  ∃ res w',
    dial servers ns clientId w (Script.mk replies calls)
    = Done (res,
            Script.mk (tail replies)
              (calls ++ [Script.CInit servers (ns `quot` 1000000) clientId
                           (watchCounter w)])) w'.
Proof.
  intros Hns.
  assert (Hms : C_int (ns `quot` 1000000) = ns `quot` 1000000).
  { assert (- 2 ^ 31 ≤ ns `quot` 1000000 < 2 ^ 31) as Hq.
    { destruct (Z_le_gt_dec 0 ns) as [Hpos|Hneg].
      - rewrite Z.quot_div_nonneg by lia.
        split; [|apply Z.div_lt_upper_bound; lia].
        pose proof (Z.div_pos ns 1000000). lia.
      - replace ns with (- - ns) by lia.
        rewrite Z.quot_opp_l by lia. rewrite Z.quot_div_nonneg by lia.
        pose proof (Z.div_pos (- ns) 1000000).
        assert ((- ns) `div` 1000000 ≤ 2 ^ 31)
          by (apply Z.div_le_upper_bound; lia).
        lia. }
    unfold C_int. rewrite Z.mod_small by lia. lia. }
  destruct (zookeeper_init servers (C_int (ns `quot` 1000000)) clientId
              (watchCounter w) (Script.mk replies calls)) as [[h cerr] r'] eqn:Hcall.
  assert (Hr' : r' = Script.mk (tail replies)
                       (calls ++ [Script.CInit servers (ns `quot` 1000000) clientId
                                    (watchCounter w)])).
  { rewrite Hms in Hcall. simpl in Hcall. unfold Script.next in Hcall. simpl in Hcall.
    destruct replies as [|[] replies]; simpl in Hcall; by injection Hcall as _ _ <-. }
  rewrite (dial_eq _ _ _ _ _ _ _ _ Hcall), Hr'.
  destruct h; eauto.
Qed.

(** A timeout of minus one and a half milliseconds reaches the library
    as -1. *)
Lemma dial_passes_timeout_in_milliseconds_witness :
  ∃ res w',
    Redial "localhost:2181" (-1500000) 7 ex_dialed
      (Script.mk [Script.RInit (Some 2%nat) None] [])
    = Done (res,
            Script.mk [] [Script.CInit "localhost:2181" (-1) (Some 7%nat) 1]) w'.
Proof.
  apply (dial_passes_timeout_in_milliseconds "localhost:2181" (-1500000) (Some 7%nat)
           ex_dialed [Script.RInit (Some 2%nat) None] []).
  lia.
Defined.
